(** * Verification of the decoding core (src/decoding.py)

    A shallow embedding of the token-search engine of [decoding.py]:
    the inference boundary and its key/value cache, the sequence ranker,
    the greedy and beam-search decoders, the timestamp logit filter and
    the decoding task that drives them.

    Conventions of the embedding.
    - A Python [int] is a [Z]; token ids are [Z].
    - A Python [float] is an exact rational [Q] (finite values only).
      Equality of floats is [Qeq], written [==].
    - A Python list or tuple is a [list]; a [dict] whose iteration order
      matters is an association list in insertion order; the key/value
      cache, whose order does not matter, is a [gmap].
    - An exception is the [Raise] case of [result].
    - In the logit filters a logit is represented by its exponential, so
      that [-inf] is [0] and a softmax is exact rational arithmetic.
    - The numeric kernels, the tokenizer, the model and the language
      detectors are outside the file; they are records of functions. *)

From Stdlib Require Import ZArith QArith Qround List Bool String Ascii Lia.
From Stdlib Require Import Sorted Lqa.
From stdpp Require Import base tactics gmap list.
Import ListNotations.
Open Scope Z_scope.

(* ================================================================= *)
(** * Part I: the program *)
(* ================================================================= *)

(** ** Python runtime: exceptions, slices, strings *)

Inductive exn : Type :=
| ValueError (msg : string)
| AssertionError (msg : string)
| RuntimeError (msg : string)
| ZeroDivisionError
| IndexError
| KeyError
| TypeError
| AttributeError
| ExternalError (msg : string).

Inductive result (A : Type) : Type :=
| Ok (a : A)
| Raise (e : exn).
Arguments Ok {A} a.
Arguments Raise {A} e.

Definition rbind {A B : Type} (m : result A) (k : A -> result B) : result B :=
  match m with
  | Ok a => k a
  | Raise e => Raise e
  end.

Declare Scope result_scope.
Delimit Scope result_scope with result.
Notation "'let*' x ':=' m 'in' k" := (rbind m (fun x => k))
  (at level 10, x name, m at level 100, k at level 200) : result_scope.
Notation "'let*' ' p ':=' m 'in' k" := (rbind m (fun x => let p := x in k))
  (at level 10, p pattern, m at level 100, k at level 200) : result_scope.

Definition is_ok {A : Type} (r : result A) : bool :=
  match r with Ok _ => true | Raise _ => false end.

Fixpoint mapM {A B : Type} (f : A -> result B) (l : list A) : result (list B) :=
  match l with
  | [] => Ok []
  | a :: l' =>
      (let* b := f a in
       let* bs := mapM f l' in
       Ok (b :: bs))%result
  end.

(** Code that mutates an object [S] and may raise: the state reached is
    returned on both exits, as a Python exception leaves the mutations
    made before it in place. *)
Definition M (S A : Type) : Type := S -> result A * S.

Definition ret {S A : Type} (a : A) : M S A := fun s => (Ok a, s).
Definition raise {S A : Type} (e : exn) : M S A := fun s => (Raise e, s).
Definition lift {S A : Type} (r : result A) : M S A := fun s => (r, s).
Definition get {S : Type} : M S S := fun s => (Ok s, s).
Definition put {S : Type} (s : S) : M S unit := fun _ => (Ok tt, s).
Definition bind {S A B : Type} (m : M S A) (k : A -> M S B) : M S B :=
  fun s =>
    match m s with
    | (Ok a, s') => k a s'
    | (Raise e, s') => (Raise e, s')
    end.

(** [try: body finally: final]; an exception of [final] replaces the
    outcome of [body]. *)
Definition try_finally {S A : Type} (body : M S A) (final : M S unit) : M S A :=
  fun s =>
    let '(r, s1) := body s in
    match final s1 with
    | (Ok _, s2) => (r, s2)
    | (Raise e, s2) => (Raise e, s2)
    end.

Declare Scope state_scope.
Delimit Scope state_scope with state.
Notation "'let*' x ':=' m 'in' k" := (bind m (fun x => k))
  (at level 10, x name, m at level 100, k at level 200) : state_scope.
Notation "'let*' ' p ':=' m 'in' k" := (bind m (fun x => let p := x in k))
  (at level 10, p pattern, m at level 100, k at level 200) : state_scope.

(** Run [m] on a component of the state, read by [proj] and written back
    by [upd]. *)
Definition zoom {S T A : Type} (proj : S -> T) (upd : S -> T -> S)
    (m : M T A) : M S A :=
  fun s => let '(r, t') := m (proj s) in (r, upd s t').

(** [xs[i:]]: a negative start counts from the end, and every start is
    clamped to the list. *)
Definition py_slice_from {A : Type} (i : Z) (xs : list A) : list A :=
  let n := Z.of_nat (length xs) in
  let start := if i <? 0 then Z.max (n + i) 0 else Z.min i n in
  skipn (Z.to_nat start) xs.

(** [xs[i]]: a negative index counts from the end; out of range raises. *)
Definition py_index {A : Type} (xs : list A) (i : Z) : result A :=
  let j := if i <? 0 then Z.of_nat (length xs) + i else i in
  if j <? 0 then Raise IndexError
  else
    match xs !! Z.to_nat j with
    | Some x => Ok x
    | None => Raise IndexError
    end.

(** [xs.index(v)] on a list of ints. *)
Fixpoint list_index (v : Z) (xs : list Z) : option nat :=
  match xs with
  | [] => None
  | x :: xs' => if x =? v then Some O else option_map S (list_index v xs')
  end.

Definition is_space (c : ascii) : bool :=
  let n := nat_of_ascii c in
  (Nat.eqb n 32 || (Nat.leb 9 n && Nat.leb n 13))%bool.

Fixpoint lstrip (s : string) : string :=
  match s with
  | String c s' => if is_space c then lstrip s' else s
  | EmptyString => EmptyString
  end.

Fixpoint rstrip (s : string) : string :=
  match s with
  | EmptyString => EmptyString
  | String c s' =>
      match rstrip s' with
      | EmptyString => if is_space c then EmptyString else String c EmptyString
      | r => String c r
      end
  end.

(** [s.strip()] on ASCII white space. *)
Definition py_strip (s : string) : string := rstrip (lstrip s).

(** ** Python runtime: rounding, dictionaries, sorting *)

Definition Qltb (x y : Q) : bool := negb (Qle_bool y x).

(** [round(x)] on a float: to the nearest integer, ties to the even one. *)
Definition py_round (x : Q) : Z :=
  let f := Qfloor x in
  let r := (x - inject_Z f)%Q in
  if Qltb r (1 # 2) then f
  else if Qltb (1 # 2) r then f + 1
  else if Z.even f then f else f + 1.

(** A [dict] keyed by token tuples, in insertion order. *)
Definition dict (V : Type) : Type := list (list Z * V).

(** [d[k] = v]: an existing key keeps its place. *)
Fixpoint dict_set {V : Type} (k : list Z) (v : V) (d : dict V) : dict V :=
  match d with
  | [] => [(k, v)]
  | (k', v') :: d' =>
      if bool_decide (k' = k) then (k', v) :: d'
      else (k', v') :: dict_set k v d'
  end.

Fixpoint dict_get {V : Type} (k : list Z) (d : dict V) : option V :=
  match d with
  | [] => None
  | (k', v') :: d' => if bool_decide (k' = k) then Some v' else dict_get k d'
  end.

(** Stable insertion: [x] goes before the first element it need not
    follow. *)
Fixpoint insert_sorted {K : Type} (follows : Q -> Q -> bool) (x : K * Q)
    (l : list (K * Q)) : list (K * Q) :=
  match l with
  | [] => [x]
  | y :: l' =>
      if follows (snd x) (snd y) then y :: insert_sorted follows x l'
      else x :: l
  end.

(** [sorted(d, key=d.get, reverse=True)], with the values: descending,
    equal values in their original order. *)
Definition sorted_desc {K : Type} (l : list (K * Q)) : list (K * Q) :=
  foldr (insert_sorted (fun x y => Qltb x y)) [] l.

(** The stable ascending sort. *)
Definition sorted_asc {K : Type} (l : list (K * Q)) : list (K * Q) :=
  foldr (insert_sorted (fun x y => Qltb y x)) [] l.

(** [list(range(n))] *)
Definition py_range (n : nat) : list Z := map Z.of_nat (seq 0 n).

(** [enumerate(row)] as pairs of index and value. *)
Definition indexed (row : list Q) : list (Z * Q) :=
  combine (py_range (length row)) row.

(** [row.topk(k)] as pairs of index and value, largest first; among equal
    values the lower index comes first. *)
Definition topk (k : Z) (row : list Q) : result (list (Z * Q)) :=
  if ((k <? 0) || (Z.of_nat (length row) <? k))%bool then
    Raise (RuntimeError "selected index k out of range")
  else Ok (firstn (Z.to_nat k) (sorted_desc (indexed row))).

(** [xs[::step]] *)
Fixpoint every_nth {A : Type} (step : nat) (skip : nat) (xs : list A) : list A :=
  match xs with
  | [] => []
  | x :: xs' =>
      match skip with
      | O => x :: every_nth step (step - 1) xs'
      | S k => every_nth step k xs'
      end
  end.

Definition py_stride {A : Type} (step : Z) (xs : list A) : result (list A) :=
  if step =? 0 then Raise (ValueError "slice step cannot be zero")
  else if 0 <? step then Ok (every_nth (Z.to_nat step) 0 xs)
  else Ok (every_nth (Z.to_nat (- step)) 0 (rev xs)).

(** Rows of [n] consecutive elements. *)
Fixpoint chunks {A : Type} (fuel n : nat) (xs : list A) : list (list A) :=
  match fuel with
  | O => []
  | S fuel' =>
      match xs with
      | [] => []
      | _ => firstn n xs :: chunks fuel' n (skipn n xs)
      end
  end.

(** [x.reshape(a, b, -1)] on a tensor given by its rows: the elements
    are regrouped in rows of the length that [-1] stands for, and these
    rows in [a] groups of [b]. *)
Definition reshape3 {A : Type} (a b : Z) (rows : list (list A))
  : result (list (list (list A))) :=
  let flat := concat rows in
  let total := Z.of_nat (length flat) in
  if ((a <? 0) || (b <? 0) || (a * b =? 0))%bool then
    Raise (RuntimeError "cannot reshape tensor")
  else if negb (total mod (a * b) =? 0) then
    Raise (RuntimeError "shape is invalid for input size")
  else
    let width := Z.to_nat (total / (a * b)) in
    let rows' :=
      if (width =? 0)%nat then repeat [] (Z.to_nat (a * b))
      else chunks (length flat) width flat in
    Ok (chunks (length rows') (Z.to_nat b) rows').

(** [x.reshape(a, b)] on a vector. *)
Definition reshape2 {A : Type} (a b : Z) (xs : list A) : result (list (list A)) :=
  if ((a <? 0) || (b <? 0))%bool then Raise (RuntimeError "cannot reshape tensor")
  else if negb (Z.of_nat (length xs) =? a * b) then
    Raise (RuntimeError "shape is invalid for input size")
  else if b =? 0 then Ok (repeat [] (Z.to_nat a))
  else Ok (chunks (length xs) (Z.to_nat b) xs).

(** [list(np.argsort(row))[::-1]] *)
Definition argsort_reversed (row : list Q) : list Z :=
  rev (map fst (sorted_asc (indexed row))).

(** [xs[i] = v] *)
Definition py_setitem {A : Type} (xs : list A) (i : Z) (v : A) : result (list A) :=
  let j := if i <? 0 then Z.of_nat (length xs) + i else i in
  if ((j <? 0) || (Z.of_nat (length xs) <=? j))%bool then Raise IndexError
  else Ok (<[Z.to_nat j := v]> xs).

Fixpoint foldM {A B : Type} (f : B -> A -> result B) (l : list A) (b : B)
  : result B :=
  match l with
  | [] => Ok b
  | a :: l' => (let* b' := f b a in foldM f l' b')%result
  end.

(** [sorted(set(l))] on ints: the elements once each, increasing. *)
Fixpoint insert_unique (x : Z) (l : list Z) : list Z :=
  match l with
  | [] => [x]
  | y :: l' =>
      if x <? y then x :: l
      else if x =? y then l
      else y :: insert_unique x l'
  end.

Definition sorted_set (l : list Z) : list Z := foldr insert_unique [] l.

(** [s.split(sep)] for a one-character separator. *)
Fixpoint py_split (sep : ascii) (s : string) : list string :=
  match s with
  | EmptyString => [EmptyString]
  | String c s' =>
      if Ascii.eqb c sep then EmptyString :: py_split sep s'
      else
        match py_split sep s' with
        | piece :: pieces => String c piece :: pieces
        | [] => [String c EmptyString]
        end
  end.

Definition digit_value (c : ascii) : option Z :=
  let n := nat_of_ascii c in
  if (Nat.leb 48 n && Nat.leb n 57)%bool then Some (Z.of_nat n - 48) else None.

(** Decimal digits, with single underscores allowed between digits. *)
Fixpoint parse_digits (acc : Z) (after_digit : bool) (s : string) : option Z :=
  match s with
  | EmptyString => if after_digit then Some acc else None
  | String c s' =>
      match digit_value c with
      | Some d => parse_digits (10 * acc + d) true s'
      | None =>
          if (Ascii.eqb c "_" && after_digit)%bool then parse_digits acc false s'
          else None
      end
  end.

(** [int(s)] on an ASCII string. *)
Definition py_int (s : string) : result Z :=
  let bad := Raise (ValueError "invalid literal for int() with base 10") in
  match py_strip s with
  | String "-" digits =>
      match parse_digits 0 false digits with
      | Some n => Ok (- n)
      | None => bad
      end
  | String "+" digits =>
      match parse_digits 0 false digits with
      | Some n => Ok n
      | None => bad
      end
  | digits =>
      match parse_digits 0 false digits with
      | Some n => Ok n
      | None => bad
      end
  end.

(** ** External collaborators: tokenizer and model dimensions *)

(** ** External collaborators: numeric and text back ends

    [log_softmax] is [F.log_softmax] on a row, [categorical_sample] the
    draw [Categorical(logits=logits / temperature).sample()],
    [language_identification] the outcome of importing the language
    identifiers and loading their model, [detect] the call
    [langdetect.detect], [compression_ratio] the function of the
    utilities module. *)

Module Backend.
Record t : Type := {
  log_softmax : list Q -> list Q;
  categorical_sample : Q -> list (list Q) -> list Z;
  language_identification : result unit;
  detect : string -> result string;
  compression_ratio : string -> Q;
  pow : Q -> Q -> Q
}.
End Backend.

Module Tokenizer.
Record t : Type := {
  encode : string -> list Z;
  decode : list Z -> string;
  eot : Z;
  sot : Z;
  sot_prev : Z;
  sot_lm : Z;
  transcribe : Z;
  translate : Z;
  no_speech : option Z;
  no_timestamps : option Z;
  timestamp_begin : Z;
  non_speech_tokens : list Z;
  sot_sequence : list Z;
  sot_sequence_including_notimestamps : list Z
}.
End Tokenizer.

(** ** DecodingOptions *)

Inductive text_or_tokens : Type :=
| Text (s : string)
| Tokens (l : list Z).

Inductive suppress_spec : Type :=
| SuppressStr (s : string)
| SuppressList (l : list Z)
| SuppressTuple (l : list Z).

Module DecodingOptions.
Record t : Type := {
  task : string;
  language : option string;
  temperature : Q;
  sample_len : option Z;
  best_of : option Z;
  beam_size : option Z;
  patience : option Q;
  length_penalty : option Q;
  prompt : option text_or_tokens;
  prefix : option text_or_tokens;
  suppress_blank : bool;
  suppress_tokens : option suppress_spec;
  without_timestamps : bool;
  max_initial_timestamp : option Q;
  withlm : bool;
  lm_path : option string;
  lm_alpha : Q;
  lm_beta : Q;
  select_candidates : option Z
}.
End DecodingOptions.

(** Truth value of a prompt or prefix in [if prefix := ...]. *)
Definition truthy (p : option text_or_tokens) : option text_or_tokens :=
  match p with
  | Some (Text EmptyString) => None
  | Some (Tokens []) => None
  | other => other
  end.

(** [a or b] on optional ints: [None] and [0] are false. *)
Definition or_int (a : option Z) (b : Z) : Z :=
  match a with
  | Some v => if v =? 0 then b else v
  | None => b
  end.


(** ** The external model

    Only its interface: the encoder, the decoder forward pass (which
    returns the logits of every position of every row and, through its
    hooks, the cache extended with the new positions), the installation
    of the cache hooks, the language classifier, and the identities of
    the key and value projections of the decoder blocks.  A spectrogram
    or a feature block is a flat list of numbers. *)

Module Whisper.
Record t : Type := {
  n_text_ctx : Z;
  n_audio_ctx : Z;
  is_encoded : list (list Q) -> bool;
  encoder : list (list Q) -> result (list (list Q));
  decoder : list (list Z) -> list (list Q) -> gmap nat (list (list Q)) ->
            result (list (list (list Q)) * gmap nat (list (list Q)));
  install_kv_cache_hooks : gmap nat (list (list Q)) * list nat;
  detect_language : list (list Q) -> result (list Z * list (list (string * Q)));
  decoder_blocks : list (nat * nat)
}.
End Whisper.

(** [tokens.shape[-1]]: the rows of a tensor have one length; an empty
    batch is given 0 columns. *)
Definition shape_last (tokens : list (list Z)) : Z :=
  match tokens with
  | row :: _ => Z.of_nat (length row)
  | [] => 0
  end.

(** ** PyTorchInference: the key/value cache

    A cached tensor is the list of its rows along the batch dimension;
    a row is the flattened block of cached projections of one hypothesis.
    Modules are identified by a number. *)

Module PyTorchInference.

Abbreviation tensor := (list (list Q)).

Record t : Type := {
  initial_token_length : Z;
  kv_cache : gmap nat tensor;
  hooks : list nat;
  kv_modules : list nat
}.

Definition set_kv_cache (self : t) (c : gmap nat tensor) : t :=
  {| initial_token_length := initial_token_length self;
     kv_cache := c;
     hooks := hooks self;
     kv_modules := kv_modules self |}.

(** [tensor[source_indices]] with a list of ints. *)
Definition index_select (x : tensor) (source_indices : list Z) : result tensor :=
  mapM (py_index x) source_indices.

(** The loop [for module in self.kv_modules]. *)
Fixpoint rearrange_modules (modules : list nat) (source_indices : list Z)
  : M (gmap nat tensor) unit :=
  match modules with
  | [] => ret tt
  | m :: modules' =>
      (let* cache := get in
       match cache !! m with
       | None => raise KeyError
       | Some x =>
           let* x' := lift (index_select x source_indices) in
           let* _ := put (<[m := x']> cache) in
           rearrange_modules modules' source_indices
       end)%state
  end.

Definition rearrange_kv_cache (source_indices : list Z) : M t unit :=
  fun self =>
    if bool_decide (source_indices <> py_range (length source_indices)) then
      zoom kv_cache set_kv_cache
           (rearrange_modules (kv_modules self) source_indices) self
    else (Ok tt, self).

Definition init (model : Whisper.t) (initial_token_length : Z) : t :=
  let key_modules := map fst (Whisper.decoder_blocks model) in
  let value_modules := map snd (Whisper.decoder_blocks model) in
  {| initial_token_length := initial_token_length;
     kv_cache := ∅;
     hooks := [];
     kv_modules := key_modules ++ value_modules |}.

(** [logits]: the hooks are installed on the first call; afterwards only
    the last token of each row is passed on. *)
Definition logits (model : Whisper.t) (tokens : list (list Z))
    (audio_features : list (list Q)) : M t (list (list (list Q))) :=
  fun self =>
    let self :=
      if (size (kv_cache self) =? 0)%nat then
        {| initial_token_length := initial_token_length self;
           kv_cache := fst (Whisper.install_kv_cache_hooks model);
           hooks := snd (Whisper.install_kv_cache_hooks model);
           kv_modules := kv_modules self |}
      else self in
    let tokens :=
      if initial_token_length self <? shape_last tokens
      then map (py_slice_from (-1)) tokens else tokens in
    match Whisper.decoder model tokens audio_features (kv_cache self) with
    | Ok (out, cache) => (Ok out, set_kv_cache self cache)
    | Raise e => (Raise e, self)
    end.

Definition cleanup_caching : M t unit :=
  fun self =>
    (Ok tt, {| initial_token_length := initial_token_length self;
               kv_cache := ∅;
               hooks := [];
               kv_modules := kv_modules self |}).

End PyTorchInference.

(** ** MaximumLikelihoodRanker *)

(** [np.argmax] of a list of floats: the index of the first maximum;
    the running best is replaced only by a strictly greater value. *)
Fixpoint argmax_from (best_i : nat) (best : Q) (i : nat) (l : list Q) : nat :=
  match l with
  | [] => best_i
  | x :: l' =>
      if negb (Qle_bool x best) then argmax_from i x (S i) l'
      else argmax_from best_i best (S i) l'
  end.

Definition np_argmax (l : list Q) : result Z :=
  match l with
  | [] => Raise (ValueError "attempt to get argmax of an empty sequence")
  | x :: l' => Ok (Z.of_nat (argmax_from 0 x 1 l'))
  end.

Module MaximumLikelihoodRanker.
Section Rank.

(** [x ** y] on floats. *)
Variable pow : Q -> Q -> Q.

Variable length_penalty : option Q.

Definition penalty (length : Z) : Q :=
  match length_penalty with
  | None => inject_Z length
  | Some p => pow (inject_Z (5 + length) / 6) p
  end.

(** The inner function [scores(logprobs, lengths)]. *)
Fixpoint scores (logprobs : list Q) (lengths : list Z) : result (list Q) :=
  match logprobs, lengths with
  | logprob :: logprobs', length :: lengths' =>
      if Qeq_bool (penalty length) 0 then Raise ZeroDivisionError
      else
        (let* rest := scores logprobs' lengths' in
         Ok ((logprob / penalty length)%Q :: rest))%result
  | _, _ => Ok []
  end.

Definition rank (tokens : list (list (list Z))) (sum_logprobs : list (list Q))
  : result (list Z) :=
  let lengths := map (map (fun t => Z.of_nat (length t))) tokens in
  mapM (fun '(p, l) => (let* s := scores p l in np_argmax s)%result)
       (combine sum_logprobs lengths).

End Rank.
End MaximumLikelihoodRanker.

(** *** The ranking rule in the words of the specification *)

Section RankSpec.
Variable pow : Q -> Q -> Q.

(** The length penalty: the raw candidate length when no length penalty is
    configured, [((5 + length) / 6) ^ p] when it is [p]. *)
Definition spec_penalty (length_penalty : option Q) (len : nat) : Q :=
  match length_penalty with
  | None => inject_Z (Z.of_nat len)
  | Some p => pow (inject_Z (5 + Z.of_nat len) / 6)%Q p
  end.

(** Score of each candidate of one audio: cumulative log-probability
    divided by the length penalty. *)
Definition spec_scores (length_penalty : option Q)
    (logprobs : list Q) (candidates : list (list Z)) : list Q :=
  map (fun c => (fst c / spec_penalty length_penalty (length (snd c)))%Q)
      (combine logprobs candidates).

End RankSpec.

(** [i] is the arg-max of [l], ties broken by first occurrence. *)
Definition is_first_argmax (l : list Q) (i : nat) : Prop :=
  exists x, l !! i = Some x
    /\ (forall j y, l !! j = Some y -> (y <= x)%Q)
    /\ (forall j y, l !! j = Some y -> (j < i)%nat -> (y < x)%Q).

(** ** GreedyDecoder

    The numeric backend is outside this file: [logprobs] stands for
    [F.log_softmax(logits.float(), dim=-1)] and [sampled] for the draw
    [Categorical(logits=logits / temperature).sample()]; both are inputs
    of the embedding. *)

Module GreedyDecoder.

Record t : Type := {
  temperature : Q;
  eot : Z
}.

(** [tokens[:, -1]] *)
Definition last_column (tokens : list (list Z)) : result (list Z) :=
  mapM (fun row => match last row with
                   | Some x => Ok x
                   | None => Raise IndexError
                   end) tokens.

(** [logprobs[torch.arange(logprobs.shape[0]), next_tokens]] *)
Definition select_rows (logprobs : list (list Q)) (next_tokens : list Z)
  : result (list Q) :=
  if negb (length logprobs =? length next_tokens)%nat then
    Raise IndexError
  else mapM (fun rt => py_index (fst rt) (snd rt)) (combine logprobs next_tokens).

(** The float value of a boolean in [current_logprobs * (tokens[:, -1] != eot)]. *)
Definition of_bool (b : bool) : Q := if b then 1%Q else 0%Q.

Definition update (self : t) (tokens : list (list Z))
    (logits logprobs : list (list Q)) (sampled : list Z)
    (sum_logprobs : list Q)
  : result (list (list Z) * bool * list Q) :=
  (let* next_tokens :=
     (if Qeq_bool (temperature self) 0 then mapM np_argmax logits
      else Ok sampled) in
   let* current_logprobs := select_rows logprobs next_tokens in
   let* last_tokens := last_column tokens in
   if negb ((length current_logprobs =? length last_tokens)%nat
            && (length sum_logprobs =? length last_tokens)%nat) then
     Raise (RuntimeError "The size of tensor a must match the size of tensor b")
   else
     let sum_logprobs :=
       zip_with (fun s cl =>
                   (s + fst cl * of_bool (negb (snd cl =? eot self)))%Q)
                sum_logprobs (combine current_logprobs last_tokens) in
     let next_tokens :=
       zip_with (fun n l => if l =? eot self then eot self else n)
                next_tokens last_tokens in
     let tokens := zip_with (fun row n => row ++ [n]) tokens next_tokens in
     let completed :=
       forallb (fun row => match last row with
                           | Some x => x =? eot self
                           | None => false
                           end) tokens in
     Ok (tokens, completed, sum_logprobs))%result.

(** [F.pad(tokens, (0, 1), value=self.eot)] and [sum_logprobs.tolist()]. *)
Definition finalize (self : t) (tokens : list (list (list Z)))
    (sum_logprobs : list (list Q))
  : list (list (list Z)) * list (list Q) :=
  (map (map (fun row => row ++ [eot self])) tokens, sum_logprobs).

End GreedyDecoder.

(** ** BeamSearchDecoder

    [logprobs] stands for [F.log_softmax(logits.float(), dim=-1)].  The
    decoder and the task share one inference object, so the state that
    [update] mutates is the pair of the decoder and that object.  The
    tensor [sum_logprobs], written in place by the source, is returned
    with the result.  [row_hook] is what a subclass does with the prefix
    of a row before expanding it (nothing here). *)

Module BeamSearchDecoder.

Record t : Type := {
  beam_size : Z;
  eot : Z;
  patience : Q;
  max_candidates : Z;
  finished_sequences : option (list (dict Q));
  data_list : list Z
}.

Definition set_finished_sequences (self : t) (fs : option (list (dict Q))) : t :=
  {| beam_size := beam_size self; eot := eot self; patience := patience self;
     max_candidates := max_candidates self; finished_sequences := fs;
     data_list := data_list self |}.

(** [patience or 1.0] *)
Definition or_float (a : option Q) (b : Q) : Q :=
  match a with
  | Some v => if Qeq_bool v 0 then b else v
  | None => b
  end.

(** [__init__]; [engchar] is the outcome of reading and parsing the
    file of token ids that the constructor opens. *)
Definition init (beam_size eot : Z) (patience : option Q)
    (engchar : result (list Z)) : result t :=
  let patience := or_float patience 1 in
  let max_candidates := py_round (inject_Z beam_size * patience) in
  (let* data_list := engchar in
   if negb (0 <? max_candidates) then
     Raise (AssertionError "Invalid beam size or patience")
   else
     Ok {| beam_size := beam_size; eot := eot; patience := patience;
           max_candidates := max_candidates; finished_sequences := None;
           data_list := data_list |})%result.

Definition reset (self : t) : t := set_finished_sequences self None.

Definition rows_error : exn :=
  ValueError "tokens.shape[0] % self.beam_size != 0".

Section Update.
Variable row_hook : list Z -> result unit.
Variable self : t.

(** STEP 1, for the row [idx]: the cumulative log-probabilities of its
    [beam_size + 1] best continuations. *)
Definition expand_row (tokens : list (list Z)) (logprobs : list (list Q))
    (sum_logprobs : list Q) (acc : dict Q * dict Z) (idx : Z)
  : result (dict Q * dict Z) :=
  (let* prefix := py_index tokens idx in
   let* _ := row_hook prefix in
   let* row := py_index logprobs idx in
   let* top := topk (beam_size self + 1) row in
   foldM (fun (acc : dict Q * dict Z) (tl : Z * Q) =>
            let* s := py_index sum_logprobs idx in
            let new_logprob := (s + snd tl)%Q in
            let sequence := prefix ++ [fst tl] in
            Ok (dict_set sequence new_logprob (fst acc),
                dict_set sequence idx (snd acc)))
         top acc)%result.

Record selection : Type := {
  sel_sum_logprobs : list Q;
  sel_next_tokens : list (list Z);
  sel_source_indices : list Z;
  sel_finished : dict Q
}.

(** STEP 2: walk the candidates, best first. *)
Fixpoint select (sources : dict Z) (candidates : list (list Z * Q))
    (saved : Z) (st : selection) : result selection :=
  match candidates with
  | [] => Ok st
  | (sequence, score) :: rest =>
      match last sequence with
      | None => Raise IndexError
      | Some x =>
          if x =? eot self then
            select sources rest saved
              {| sel_sum_logprobs := sel_sum_logprobs st;
                 sel_next_tokens := sel_next_tokens st;
                 sel_source_indices := sel_source_indices st;
                 sel_finished := dict_set sequence score (sel_finished st) |}
          else
            (let* sum_logprobs :=
               py_setitem (sel_sum_logprobs st)
                          (Z.of_nat (length (sel_next_tokens st))) score in
             let* source :=
               match dict_get sequence sources with
               | Some i => Ok i
               | None => Raise KeyError
               end in
             let st' :=
               {| sel_sum_logprobs := sum_logprobs;
                  sel_next_tokens := sel_next_tokens st ++ [sequence];
                  sel_source_indices := sel_source_indices st ++ [source];
                  sel_finished := sel_finished st |} in
             let saved := saved + 1 in
             if saved =? beam_size self then Ok st'
             else select sources rest saved st')%result
      end
  end.

(** The body of [for i in range(n_audio)]. *)
Definition step_group (tokens : list (list Z)) (logprobs : list (list Q))
    (st : selection * list (dict Q)) (i : Z)
  : result (selection * list (dict Q)) :=
  (let* ss :=
     foldM (expand_row tokens logprobs (sel_sum_logprobs (fst st)))
           (map (fun j => i * beam_size self + j)
                (py_range (Z.to_nat (beam_size self))))
           ([], []) in
   let* sel :=
     select (snd ss) (sorted_desc (fst ss)) 0
       {| sel_sum_logprobs := sel_sum_logprobs (fst st);
          sel_next_tokens := sel_next_tokens (fst st);
          sel_source_indices := sel_source_indices (fst st);
          sel_finished := [] |} in
   Ok (sel, snd st ++ [sel_finished sel]))%result.

(** Adding the newly finished sequences, best first, until the
    candidate list is full. *)
Fixpoint merge_finished (previously_finished : dict Q)
    (newly_finished : list (list Z * Q)) : dict Q :=
  match newly_finished with
  | [] => previously_finished
  | (seq, score) :: rest =>
      if max_candidates self <=? Z.of_nat (length previously_finished) then
        previously_finished
      else merge_finished (dict_set seq score previously_finished) rest
  end.

End Update.

Definition world : Type := t * PyTorchInference.t.

Definition update_with (row_hook : list Z -> result unit)
    (tokens : list (list Z)) (logprobs : list (list Q))
    (sum_logprobs : list Q)
  : M world (list (list Z) * bool * list Q) :=
  (let* w := get in
   let self := fst w in
   let rows := Z.of_nat (length tokens) in
   if beam_size self =? 0 then raise ZeroDivisionError
   else if negb (rows mod beam_size self =? 0) then raise rows_error
   else
     let n_audio := rows / beam_size self in
     let previous :=
       match finished_sequences self with
       | None => repeat [] (Z.to_nat n_audio)
       | Some fs => fs
       end in
     let* _ := put (set_finished_sequences self (Some previous), snd w) in
     let* st :=
       lift (foldM (step_group row_hook self tokens logprobs)
                   (py_range (Z.to_nat n_audio))
                   ({| sel_sum_logprobs := sum_logprobs;
                       sel_next_tokens := [];
                       sel_source_indices := [];
                       sel_finished := [] |}, [])) in
     let* _ :=
       zoom snd (fun w i => (fst w, i))
            (PyTorchInference.rearrange_kv_cache (sel_source_indices (fst st))) in
     if negb (length previous =? length (snd st))%nat then
       raise (AssertionError "")
     else
       let finished :=
         zip_with (fun previously_finished newly_finished =>
                     merge_finished self previously_finished
                                    (sorted_desc newly_finished))
                  previous (snd st) in
       let* w := get in
       let* _ := put (set_finished_sequences self (Some finished), snd w) in
       let completed :=
         forallb (fun sequences =>
                    max_candidates self <=? Z.of_nat (length sequences))
                 finished in
       ret (sel_next_tokens (fst st), completed, sel_sum_logprobs (fst st)))%state.

Definition update := update_with (fun _ => Ok tt).

(** The inner loop of [finalize]: pad with unfinished rows, best first. *)
Fixpoint pad_sequences (self : t) (tokens_i : result (list (list Z)))
    (sum_i : list Q) (js : list Z) : M (dict Q) unit :=
  match js with
  | [] => ret tt
  | j :: js' =>
      (let* rows := lift tokens_i in
       let* row := lift (py_index rows j) in
       let* score := lift (py_index sum_i j) in
       let* sequences := get in
       let sequences := dict_set (row ++ [eot self]) score sequences in
       let* _ := put sequences in
       if beam_size self <=? Z.of_nat (length sequences) then ret tt
       else pad_sequences self tokens_i sum_i js')%state
  end.

(** The loop [for i, sequences in enumerate(self.finished_sequences)]. *)
Fixpoint finalize_loop (self : t) (preceding_tokens : list (list (list Z)))
    (sum_logprobs : list (list Q)) (i : Z) : M (list (dict Q)) unit :=
  fun fs =>
    match fs with
    | [] => (Ok tt, [])
    | sequences :: rest =>
        let '(r, sequences') :=
          if Z.of_nat (length sequences) <? beam_size self then
            match py_index sum_logprobs i with
            | Raise e => (Raise e, sequences)
            | Ok sum_i =>
                pad_sequences self (py_index preceding_tokens i) sum_i
                              (argsort_reversed sum_i) sequences
            end
          else (Ok tt, sequences) in
        match r with
        | Raise e => (Raise e, sequences' :: rest)
        | Ok _ =>
            let '(r', rest') :=
              finalize_loop self preceding_tokens sum_logprobs (i + 1) rest in
            (r', sequences' :: rest')
        end
    end.

Definition finalize (preceding_tokens : list (list (list Z)))
    (sum_logprobs : list (list Q))
  : M t (list (list (list Z)) * list (list Q)) :=
  fun self =>
    match finished_sequences self with
    | None => (Raise TypeError, self)
    | Some fs =>
        let '(r, fs') :=
          finalize_loop self preceding_tokens sum_logprobs 0 fs in
        let self' := set_finished_sequences self (Some fs') in
        match r with
        | Raise e => (Raise e, self')
        | Ok _ => (Ok (map (map fst) fs', map (map snd) fs'), self')
        end
    end.

End BeamSearchDecoder.

(** ** BeamSearchDecoderWithLM

    The class repeats [BeamSearchDecoder] and, before expanding a row,
    feeds the row's tokens after the first four to the n-gram scorer.
    The score it accumulates is not used by the expansion, which takes
    the candidates from the acoustic log-probabilities alone. *)

Module BeamSearchDecoderWithLM.

(** The external scorer; its states are opaque handles. *)
Record kenlm : Type := {
  BeginSentenceWrite : nat;
  BaseScore : nat -> Z -> Q * nat
}.

Record t : Type := {
  base : BeamSearchDecoder.t;
  lm : option kenlm;
  lm_alpha : Q;
  lm_beta : Q;
  select_candidates : option Z
}.

Definition set_base (self : t) (b : BeamSearchDecoder.t) : t :=
  {| base := b; lm := lm self; lm_alpha := lm_alpha self;
     lm_beta := lm_beta self; select_candidates := select_candidates self |}.

(** [__init__]; [model] is the outcome of [kenlm.Model(lm_path)] when a
    path is given. *)
Definition init (beam_size eot : Z) (patience : option Q)
    (model : option (result kenlm)) (lm_alpha lm_beta : Q)
    (select_candidates : option Z) (engchar : result (list Z)) : result t :=
  (let* lm :=
     match model with
     | Some load => (let* m := load in Ok (Some m))
     | None => Ok None
     end in
   let* b := BeamSearchDecoder.init beam_size eot patience engchar in
   Ok {| base := b; lm := lm; lm_alpha := lm_alpha; lm_beta := lm_beta;
         select_candidates := select_candidates |})%result.

Definition reset (self : t) : t := set_base self (BeamSearchDecoder.reset (base self)).

(** [chr(token + 100)] *)
Definition chr_shifted (token : Z) : result Z :=
  if ((0 <=? token + 100) && (token + 100 <? 1114112))%bool then Ok (token + 100)
  else Raise (ValueError "chr() arg not in range(0x110000)").

(** The n-gram score of the tokens of [prefix] after the first four. *)
Definition lm_prefix_score (m : kenlm) (prefix : list Z) : result Q :=
  (let* ps :=
     foldM (fun (ps : Q * nat) (token : Z) =>
              let* c := chr_shifted token in
              let '(p, next_state) := BaseScore m (snd ps) c in
              Ok ((fst ps + p)%Q, next_state))
           (skipn 4 prefix) (0%Q, BeginSentenceWrite m) in
   Ok (fst ps))%result.

Definition row_hook (self : t) (prefix : list Z) : result unit :=
  match list_index 50258 prefix with
  | None => Raise (ValueError "50258 is not in list")
  | Some _ =>
      let skip_len := 4 in
      if skip_len <? Z.of_nat (length prefix) then
        match lm self with
        | None => Raise AttributeError
        | Some m => (let* _ := lm_prefix_score m prefix in Ok tt)%result
        end
      else Ok tt
  end.

Definition world : Type := t * PyTorchInference.t.

Definition update (tokens : list (list Z)) (logprobs : list (list Q))
    (sum_logprobs : list Q)
  : M world (list (list Z) * bool * list Q) :=
  fun w =>
    zoom (fun w : world => (base (fst w), snd w))
         (fun (w : world) (bw : BeamSearchDecoder.world) =>
            (set_base (fst w) (fst bw), snd bw))
         (BeamSearchDecoder.update_with (row_hook (fst w))
            tokens logprobs sum_logprobs) w.

Definition finalize (preceding_tokens : list (list (list Z)))
    (sum_logprobs : list (list Q))
  : M t (list (list (list Z)) * list (list Q)) :=
  zoom base set_base (BeamSearchDecoder.finalize preceding_tokens sum_logprobs).

End BeamSearchDecoderWithLM.

(** ** ApplyTimestampRules

    In this filter a logit [x] is represented by its exponential, the
    unnormalised probability [exp x]: [-inf] is [0], the order of logits
    is kept, [softmax] is a division by the row sum, a [logsumexp] of
    log-probabilities is the sum of the probabilities and their [max] is
    the maximum probability.  The comparison of the timestamp mass with
    the best text token is then exact rational arithmetic. *)

Definition neg_inf : Q := 0.

(** A slice bound as Python normalises it on a sequence of length [n]. *)
Definition slice_bound (n : nat) (i : Z) : nat :=
  Z.to_nat (if i <? 0 then Z.max (Z.of_nat n + i) 0 else Z.min i (Z.of_nat n)).

Definition slice_start (n : nat) (start : option Z) : nat :=
  match start with Some i => slice_bound n i | None => O end.

Definition slice_stop (n : nat) (stop : option Z) : nat :=
  match stop with Some i => slice_bound n i | None => n end.

(** Whether position [p] is in [start:stop]. *)
Definition in_slice (n : nat) (start stop : option Z) (p : nat) : bool :=
  (Nat.leb (slice_start n start) p && Nat.ltb p (slice_stop n stop))%bool.

(** [row[start:stop] = v] *)
Definition set_slice (start stop : option Z) (v : Q) (row : list Q) : list Q :=
  imap (fun p x => if in_slice (length row) start stop p then v else x) row.

(** [row[start:stop]] *)
Definition py_slice {A : Type} (start stop : option Z) (row : list A) : list A :=
  let a := slice_start (length row) start in
  let b := slice_stop (length row) stop in
  firstn (b - a) (skipn a row).

Definition Qsum (l : list Q) : Q := fold_right Qplus 0%Q l.

(** [max] of a tensor; an empty one has none. *)
Definition Qmaximum (l : list Q) : result Q :=
  match l with
  | [] => Raise (RuntimeError "max(): Expected reduction dim to be specified for input.numel() == 0")
  | x :: l' => Ok (fold_left (fun m y => if Qltb m y then y else m) l' x)
  end.

Definition softmax (row : list Q) : list Q :=
  map (fun w => (w / Qsum row)%Q) row.

(** [row[indices] = v] for a list of indices. *)
Definition set_indices (indices : list Z) (v : Q) (row : list Q)
  : result (list Q) :=
  foldM (fun r i => py_setitem r i v) indices row.

Module SuppressBlank.

Record t : Type := {
  tokenizer : Tokenizer.t;
  sample_begin : Z
}.

Definition apply (self : t) (logits : list (list Q)) (tokens : list (list Z))
  : result (list (list Q)) :=
  if shape_last tokens =? sample_begin self then
    mapM (set_indices
            (Tokenizer.encode (tokenizer self) " "
               ++ [Tokenizer.eot (tokenizer self)]) neg_inf) logits
  else Ok logits.

End SuppressBlank.

Module SuppressTokens.

Record t : Type := { suppress_tokens : list Z }.

Definition apply (self : t) (logits : list (list Q)) (tokens : list (list Z))
  : result (list (list Q)) :=
  mapM (set_indices (suppress_tokens self) neg_inf) logits.

End SuppressTokens.

Module ApplyTimestampRules.

Record t : Type := {
  tokenizer : Tokenizer.t;
  sample_begin : Z;
  max_initial_timestamp_index : option Z
}.

Section Row.
Variable self : t.
Let timestamp_begin : Z := Tokenizer.timestamp_begin (tokenizer self).

(** [sampled_tokens = tokens[k, self.sample_begin :]] *)
Definition sampled (tokens_k : list Z) : list Z :=
  py_slice_from (sample_begin self) tokens_k.

Definition last_was_timestamp (seq : list Z) : bool :=
  match last seq with
  | Some x => timestamp_begin <=? x
  | None => false
  end.

Definition penultimate_was_timestamp (seq : list Z) : bool :=
  match last (removelast seq) with
  | Some x => timestamp_begin <=? x
  | None => true
  end.

(** Suppress [<|notimestamps|>]. *)
Definition suppress_no_timestamps (logits_k : list Q) : result (list Q) :=
  match Tokenizer.no_timestamps (tokenizer self) with
  | Some no_timestamps => py_setitem logits_k no_timestamps neg_inf
  | None => Ok logits_k
  end.

(** Timestamps have to appear in pairs, except directly before EOT. *)
Definition pair_rule (seq : list Z) (logits_k : list Q) : list Q :=
  if last_was_timestamp seq then
    if penultimate_was_timestamp seq then
      set_slice (Some timestamp_begin) None neg_inf logits_k
    else set_slice None (Some (Tokenizer.eot (tokenizer self))) neg_inf logits_k
  else logits_k.

(** Timestamps shouldn't decrease, and a segment has a nonzero length. *)
Definition monotonic_rule (seq : list Z) (logits_k : list Q) : list Q :=
  let timestamps := List.filter (fun x => timestamp_begin <=? x) seq in
  match last timestamps with
  | Some newest =>
      let timestamp_last :=
        if (last_was_timestamp seq && negb (penultimate_was_timestamp seq))%bool
        then newest else newest + 1 in
      set_slice (Some timestamp_begin) (Some timestamp_last) neg_inf logits_k
  | None => logits_k
  end.

(** At the first sampled position: only timestamps, none beyond
    [max_initial_timestamp]. *)
Definition initial_rule (tokens_k : list Z) (logits_k : list Q) : list Q :=
  if Z.of_nat (length tokens_k) =? sample_begin self then
    let logits_k := set_slice None (Some timestamp_begin) neg_inf logits_k in
    match max_initial_timestamp_index self with
    | Some index =>
        let last_allowed := timestamp_begin + index in
        set_slice (Some (last_allowed + 1)) None neg_inf logits_k
    | None => logits_k
    end
  else logits_k.

(** If the probability mass of the timestamps is above that of any text
    token, a timestamp is sampled. *)
Definition dominance_rule (logits_k : list Q) : result (list Q) :=
  let probs := softmax logits_k in
  let timestamp_prob := Qsum (py_slice (Some timestamp_begin) None probs) in
  (let* max_text_token_prob :=
     Qmaximum (py_slice None (Some timestamp_begin) probs) in
   if Qltb max_text_token_prob timestamp_prob then
     Ok (set_slice None (Some timestamp_begin) neg_inf logits_k)
   else Ok logits_k)%result.

(** What [apply] does to row [k]: [tokens_k] is [tokens[k]] and
    [logits_k] is [logits[k]]. *)
Definition apply_row (tokens_k : list Z) (logits_k : list Q)
  : result (list Q) :=
  (let* logits_k := suppress_no_timestamps logits_k in
   let seq := sampled tokens_k in
   let logits_k := pair_rule seq logits_k in
   let logits_k := monotonic_rule seq logits_k in
   let logits_k := initial_rule tokens_k logits_k in
   dominance_rule logits_k)%result.

End Row.

(** [apply]: [logits] and [tokens] have one row per hypothesis. *)
Definition apply (self : t) (logits : list (list Q)) (tokens : list (list Z))
  : result (list (list Q)) :=
  if negb (length logits =? length tokens)%nat then Raise IndexError
  else mapM (fun tl => apply_row self (fst tl) (snd tl)) (combine tokens logits).

End ApplyTimestampRules.

(** ** DecodingResult

    A field whose default is [nan] is optional. *)

Module DecodingResult.
Record t : Type := {
  audio_features : list Q;
  language : option string;
  language_probs : option (list (string * Q));
  tokens : list Z;
  text : string;
  avg_logprob : option Q;
  no_speech_prob : option Q;
  temperature : option Q;
  compression_ratio : option Q
}.

(** The result of a language identification. *)
Definition lang_id (features : list Q) (language : option string)
    (probs : list (string * Q)) : t :=
  {| audio_features := features; language := language;
     language_probs := Some probs; tokens := []; text := "";
     avg_logprob := None; no_speech_prob := None; temperature := None;
     compression_ratio := None |}.
End DecodingResult.

(** ** DecodingTask *)

Module DecodingTask.

(** A logit filter, as its [apply]. *)
Definition LogitFilter : Type :=
  list (list Q) -> list (list Z) -> result (list (list Q)).

(** The decoder variants. *)
Inductive TokenDecoder : Type :=
| Greedy (d : GreedyDecoder.t)
| Beam (d : BeamSearchDecoder.t)
| BeamWithLM (d : BeamSearchDecoderWithLM.t).

Record t : Type := {
  model : Whisper.t;
  tokenizer : Tokenizer.t;
  options : DecodingOptions.t;
  n_group : Z;
  n_ctx : Z;
  sample_len : Z;
  sot_sequence : list Z;
  initial_tokens : list Z;
  sample_begin : Z;
  sot_index : Z;
  logit_filters : list LogitFilter
}.

(** What a task mutates: the inference object, which the decoder shares,
    and the decoder.  [trace] records the forward passes and the cache
    clean-ups in the order they are made. *)
Inductive event : Type := Forward | Cleanup.

Record world : Type := {
  inference : PyTorchInference.t;
  decoder : TokenDecoder;
  trace : list event
}.

Definition emit (e : event) : M world unit :=
  fun w => (Ok tt, {| inference := inference w; decoder := decoder w;
                      trace := trace w ++ [e] |}).

Definition on_inference {A : Type} (m : M PyTorchInference.t A) : M world A :=
  zoom inference
       (fun w i => {| inference := i; decoder := decoder w; trace := trace w |})
       m.

Definition tokens_of (tk : Tokenizer.t) (p : text_or_tokens) : list Z :=
  match p with
  | Text s => Tokenizer.encode tk (" " ++ py_strip s)%string
  | Tokens l => l
  end.

(** The prefix tokens that [_get_initial_tokens] keeps:
    [prefix_tokens[-max_prefix_len:]]. *)
Definition kept_prefix (n_ctx sample_len : Z) (prefix_tokens : list Z) : list Z :=
  let max_prefix_len := n_ctx / 2 - sample_len in
  py_slice_from (- max_prefix_len) prefix_tokens.

Definition _get_initial_tokens (tk : Tokenizer.t) (o : DecodingOptions.t)
    (n_ctx sample_len : Z) (sot_sequence : list Z) : list Z :=
  let tokens := sot_sequence in
  let tokens :=
    match truthy (DecodingOptions.prefix o) with
    | Some prefix =>
        let prefix_tokens := tokens_of tk prefix in
        let prefix_tokens := kept_prefix n_ctx sample_len prefix_tokens in
        tokens ++ prefix_tokens
    | None => tokens
    end in
  match truthy (DecodingOptions.prompt o) with
  | Some prompt =>
      let prompt_tokens := tokens_of tk prompt in
      [Tokenizer.sot_prev tk]
        ++ py_slice_from (- (n_ctx / 2 - 1)) prompt_tokens
        ++ tokens
  | None => tokens
  end.

(** The user's token list, after [int(t) for t in s.split(",")] for a
    string. *)
Definition user_tokens (spec : suppress_spec) : result (list Z) :=
  match spec with
  | SuppressStr s => mapM py_int (py_split "," s)
  | SuppressList l => Ok l
  | SuppressTuple l => Ok l
  end.

Definition is_tuple (spec : suppress_spec) : bool :=
  match spec with SuppressTuple _ => true | _ => false end.

Definition structural_tokens (tk : Tokenizer.t) : list Z :=
  [Tokenizer.transcribe tk; Tokenizer.translate tk; Tokenizer.sot tk;
   Tokenizer.sot_prev tk; Tokenizer.sot_lm tk].

Definition _get_suppress_tokens (tk : Tokenizer.t) (o : DecodingOptions.t)
  : result (list Z) :=
  match DecodingOptions.suppress_tokens o with
  | None => Raise TypeError
  | Some spec =>
      (let* suppress_tokens := user_tokens spec in
       let* suppress_tokens :=
         (if existsb (Z.eqb (-1)) suppress_tokens then
            Ok (List.filter (fun t => 0 <=? t) suppress_tokens
                  ++ Tokenizer.non_speech_tokens tk)
          else if (length suppress_tokens =? 0)%nat then Ok []
          else if is_tuple spec then
            Raise (AssertionError "suppress_tokens must be a list")
          else Ok suppress_tokens) in
       let suppress_tokens := suppress_tokens ++ structural_tokens tk in
       let suppress_tokens :=
         match Tokenizer.no_speech tk with
         | Some n => suppress_tokens ++ [n]
         | None => suppress_tokens
         end in
       Ok (sorted_set suppress_tokens))%result
  end.

Definition _verify_options (o : DecodingOptions.t) : result DecodingOptions.t :=
  if (bool_decide (is_Some (DecodingOptions.beam_size o))
      && bool_decide (is_Some (DecodingOptions.best_of o)))%bool then
    Raise (ValueError "beam_size and best_of can't be given together")
  else if (Qeq_bool (DecodingOptions.temperature o) 0
           && bool_decide (is_Some (DecodingOptions.best_of o)))%bool then
    Raise (ValueError "best_of with greedy sampling (T=0) is not compatible")
  else if (bool_decide (is_Some (DecodingOptions.patience o))
           && negb (bool_decide (is_Some (DecodingOptions.beam_size o))))%bool then
    Raise (ValueError "patience requires beam_size to be given")
  else
    match DecodingOptions.length_penalty o with
    | Some p =>
        if negb (Qle_bool 0 p && Qle_bool p 1) then
          Raise (ValueError "length_penalty (alpha) should be a value between 0 and 1")
        else Ok o
    | None => Ok o
    end.

(** [CHUNK_LENGTH] of the audio module: seconds in a chunk. *)
Definition CHUNK_LENGTH : Z := 30.

Definition truthy_suppress (o : DecodingOptions.t) : bool :=
  match DecodingOptions.suppress_tokens o with
  | None => false
  | Some (SuppressStr s) => negb (String.eqb s "")
  | Some (SuppressList l) => negb (length l =? 0)%nat
  | Some (SuppressTuple l) => negb (length l =? 0)%nat
  end.

Definition truthy_float (x : option Q) : option Q :=
  match x with
  | Some v => if Qeq_bool v 0 then None else Some v
  | None => None
  end.

(** [__init__]: [tk] is the tokenizer that [get_tokenizer] returns,
    [engchar] the outcome of reading the token-id file that the beam
    decoders open, [load_lm] the loading of the n-gram model. *)
Definition init (model : Whisper.t) (tk : Tokenizer.t) (o : DecodingOptions.t)
    (engchar : result (list Z)) (load_lm : string -> result BeamSearchDecoderWithLM.kenlm)
  : result (t * world) :=
  (let* o' := _verify_options o in
   let n_group :=
     or_int (DecodingOptions.beam_size o)
            (or_int (DecodingOptions.best_of o) 1) in
   let n_ctx := Whisper.n_text_ctx model in
   let sample_len :=
     or_int (DecodingOptions.sample_len o) (Whisper.n_text_ctx model / 2) in
   let sot_sequence :=
     if DecodingOptions.without_timestamps o'
     then Tokenizer.sot_sequence_including_notimestamps tk
     else Tokenizer.sot_sequence tk in
   let initial_tokens := _get_initial_tokens tk o' n_ctx sample_len sot_sequence in
   let sample_begin := Z.of_nat (length initial_tokens) in
   let* sot_index :=
     match list_index (Tokenizer.sot tk) initial_tokens with
     | None => Raise (ValueError "tuple.index(x): x not in tuple")
     | Some i => Ok (Z.of_nat i)
     end in
   let inference := PyTorchInference.init model sample_begin in
   let* decoder :=
     match DecodingOptions.beam_size o with
     | Some beam_size =>
         if DecodingOptions.withlm o then
           let lm :=
             match DecodingOptions.lm_path o with
             | Some path => if String.eqb path "" then None else Some (load_lm path)
             | None => None
             end in
           let* d := BeamSearchDecoderWithLM.init beam_size (Tokenizer.eot tk)
                       (DecodingOptions.patience o) lm
                       (DecodingOptions.lm_alpha o) (DecodingOptions.lm_beta o)
                       (DecodingOptions.select_candidates o) engchar in
           Ok (BeamWithLM d)
         else
           let* d := BeamSearchDecoder.init beam_size (Tokenizer.eot tk)
                       (DecodingOptions.patience o) engchar in
           Ok (Beam d)
     | None =>
         Ok (Greedy {| GreedyDecoder.temperature := DecodingOptions.temperature o;
                       GreedyDecoder.eot := Tokenizer.eot tk |})
     end in
   let blank : list LogitFilter :=
     if DecodingOptions.suppress_blank o' then
       [SuppressBlank.apply {| SuppressBlank.tokenizer := tk;
                               SuppressBlank.sample_begin := sample_begin |}]
     else [] in
   let* suppress :=
     (if truthy_suppress o' then
        let* suppress_tokens := _get_suppress_tokens tk o' in
        Ok [SuppressTokens.apply
              {| SuppressTokens.suppress_tokens := suppress_tokens |}]
      else Ok [] : result (list LogitFilter)) in
   let* timestamps :=
     (if negb (DecodingOptions.without_timestamps o) then
        if Whisper.n_audio_ctx model =? 0 then Raise ZeroDivisionError
        else
          let precision :=
            (inject_Z CHUNK_LENGTH / inject_Z (Whisper.n_audio_ctx model))%Q in
          let max_initial_timestamp_index :=
            match truthy_float (DecodingOptions.max_initial_timestamp o) with
            | Some m => Some (py_round (m / precision))
            | None => None
            end in
          Ok [ApplyTimestampRules.apply
                {| ApplyTimestampRules.tokenizer := tk;
                   ApplyTimestampRules.sample_begin := sample_begin;
                   ApplyTimestampRules.max_initial_timestamp_index :=
                     max_initial_timestamp_index |}]
      else Ok [] : result (list LogitFilter)) in
   Ok ({| model := model; tokenizer := tk; options := o'; n_group := n_group;
          n_ctx := n_ctx; sample_len := sample_len; sot_sequence := sot_sequence;
          initial_tokens := initial_tokens; sample_begin := sample_begin;
          sot_index := sot_index;
          logit_filters := blank ++ suppress ++ timestamps |},
       {| inference := inference; decoder := decoder; trace := [] |}))%result.


(** *** The decoder interface on the variants *)

Definition set_decoder (w : world) (i : PyTorchInference.t) (d : TokenDecoder)
  : world :=
  {| inference := i; decoder := d; trace := trace w |}.

Definition decoder_reset : M world unit :=
  fun w =>
    (Ok tt,
     set_decoder w (inference w)
       match decoder w with
       | Greedy d => Greedy d
       | Beam d => Beam (BeamSearchDecoder.reset d)
       | BeamWithLM d => BeamWithLM (BeamSearchDecoderWithLM.reset d)
       end).

Definition decoder_update (be : Backend.t) (tokens : list (list Z))
    (logits : list (list Q)) (sum_logprobs : list Q)
  : M world (list (list Z) * bool * list Q) :=
  fun w =>
    let logprobs := map (Backend.log_softmax be) logits in
    match decoder w with
    | Greedy d =>
        (GreedyDecoder.update d tokens logits logprobs
           (Backend.categorical_sample be (GreedyDecoder.temperature d) logits)
           sum_logprobs, w)
    | Beam d =>
        let '(r, (d', i')) :=
          BeamSearchDecoder.update tokens logprobs sum_logprobs (d, inference w) in
        (r, set_decoder w i' (Beam d'))
    | BeamWithLM d =>
        let '(r, (d', i')) :=
          BeamSearchDecoderWithLM.update tokens logprobs sum_logprobs
            (d, inference w) in
        (r, set_decoder w i' (BeamWithLM d'))
    end.

Definition decoder_finalize (tokens : list (list (list Z)))
    (sum_logprobs : list (list Q))
  : M world (list (list (list Z)) * list (list Q)) :=
  fun w =>
    match decoder w with
    | Greedy d => (Ok (GreedyDecoder.finalize d tokens sum_logprobs), w)
    | Beam d =>
        let '(r, d') := BeamSearchDecoder.finalize tokens sum_logprobs d in
        (r, set_decoder w (inference w) (Beam d'))
    | BeamWithLM d =>
        let '(r, d') := BeamSearchDecoderWithLM.finalize tokens sum_logprobs d in
        (r, set_decoder w (inference w) (BeamWithLM d'))
    end.

(** *** The sampling loop *)

Section MainLoop.
Variable be : Backend.t.
Variable self : t.

(** [logits[:, self.sot_index].float().softmax(dim=-1)[:, no_speech]] *)
Definition no_speech_probs_of (no_speech : Z) (logits : list (list (list Q)))
  : result (list (option Q)) :=
  mapM (fun rows =>
          (let* at_sot := py_index rows (sot_index self) in
           let* p := py_index (softmax at_sot) no_speech in
           Ok (Some p))%result) logits.

(** The body of [for i in range(self.sample_len)], for the indices
    [steps] still to run. *)
Fixpoint sample_loop (audio_features : list (list Q)) (steps : list Z)
    (tokens : list (list Z)) (sum_logprobs : list Q)
    (no_speech_probs : list (option Q))
  : M world (list (list Z) * list Q * list (option Q)) :=
  match steps with
  | [] => ret (tokens, sum_logprobs, no_speech_probs)
  | i :: steps' =>
      (let* _ := emit Forward in
       let* logits :=
         on_inference (PyTorchInference.logits (model self) tokens audio_features) in
       let* no_speech_probs :=
         lift (match Tokenizer.no_speech (tokenizer self) with
               | Some no_speech =>
                   if i =? 0 then no_speech_probs_of no_speech logits
                   else Ok no_speech_probs
               | None => Ok no_speech_probs
               end) in
       let* logits := lift (mapM (fun rows => py_index rows (-1)) logits) in
       let* logits :=
         lift (foldM (fun l (logit_filter : LogitFilter) => logit_filter l tokens)
                     (logit_filters self) logits) in
       let* r := decoder_update be tokens logits sum_logprobs in
       let '(tokens, completed, sum_logprobs) := r in
       if (completed || (n_ctx self <? shape_last tokens))%bool then
         ret (tokens, sum_logprobs, no_speech_probs)
       else sample_loop audio_features steps' tokens sum_logprobs no_speech_probs)%state
  end.

Definition cleanup : M world unit :=
  (let* _ := emit Cleanup in on_inference PyTorchInference.cleanup_caching)%state.

Definition _main_loop (audio_features : list (list Q)) (tokens : list (list Z))
  : M world (list (list Z) * list Q * list (option Q)) :=
  let n_batch := length tokens in
  let sum_logprobs := repeat 0%Q n_batch in
  let no_speech_probs := repeat None n_batch in
  try_finally
    (sample_loop audio_features (py_range (Z.to_nat (sample_len self)))
                 tokens sum_logprobs no_speech_probs)
    cleanup.

End MainLoop.

(** *** [run] *)

Section Run.
Variable be : Backend.t.
Variable self : t.

Definition _get_audio_features (mel : list (list Q)) : result (list (list Q)) :=
  if Whisper.is_encoded (model self) mel then Ok mel
  else Whisper.encoder (model self) mel.

(** [max(probs, key=probs.get)] *)
Definition max_key (probs : list (string * Q)) : result string :=
  match probs with
  | [] => Raise (ValueError "max() arg is an empty sequence")
  | kv :: rest =>
      Ok (fst (fold_left (fun best kv' =>
                            if Qltb (snd best) (snd kv') then kv' else best)
                         rest kv))
  end.

Definition _detect_language (audio_features : list (list Q))
    (tokens : list (list Z))
  : result (list (option string) * option (list (list (string * Q)))
            * list (list Z)) :=
  let o := options self in
  let languages :=
    repeat (DecodingOptions.language o) (length audio_features) in
  if (negb (bool_decide (is_Some (DecodingOptions.language o)))
      || String.eqb (DecodingOptions.task o) "lang_id")%bool then
    (let* detected := Whisper.detect_language (model self) audio_features in
     let* languages := mapM max_key (snd detected) in
     let* tokens :=
       (if negb (bool_decide (is_Some (DecodingOptions.language o))) then
          if negb (length tokens =? length (fst detected))%nat then
            Raise (RuntimeError "shape mismatch")
          else
            mapM (fun rt => py_setitem (fst rt) (sot_index self + 1) (snd rt))
                 (combine tokens (fst detected))
        else Ok tokens) in
     Ok (map Some languages, Some (snd detected), tokens))%result
  else Ok (languages, None, tokens).

(** [(t == eot).nonzero()[0, 0]] *)
Definition first_index (v : Z) (x : list Z) : result Z :=
  match list_index v x with
  | Some i => Ok (Z.of_nat i)
  | None => Raise IndexError
  end.

(** The language check of the candidates of the first audio: a
    candidate whose text is not detected as English, or on which the
    detection fails, loses 7.0. *)
Definition penalise (tokens : list (list (list Z)))
    (sum_logprobs : list (list Q)) : result (list (list Q)) :=
  (let* first := py_index tokens 0 in
   let texts := map (Tokenizer.decode (tokenizer self)) first in
   foldM (fun (sum_logprobs : list (list Q)) (it : Z * string) =>
            let pred_lang :=
              match Backend.detect be (snd it) with
              | Ok lang => lang
              | Raise _ => "unk"%string
              end in
            if negb (String.eqb pred_lang "en") then
              let* row := py_index sum_logprobs 0 in
              let* lp := py_index row (fst it) in
              let* row := py_setitem row (fst it) (lp - 7)%Q in
              py_setitem sum_logprobs 0 row
            else Ok sum_logprobs)
         (combine (py_range (length texts)) texts) sum_logprobs)%result.

Definition same_lengths (ns : list nat) : bool :=
  match ns with
  | [] => false
  | n :: rest => forallb (Nat.eqb n) rest
  end.

Definition run (mel : list (list Q)) : M world (list DecodingResult.t) :=
  let tk := tokenizer self in
  let o := options self in
  (let* _ := decoder_reset in
   let n_audio := length mel in
   let* audio_features := lift (_get_audio_features mel) in
   let tokens := repeat (initial_tokens self) n_audio in
   let* detected := lift (_detect_language audio_features tokens) in
   let '(languages, language_probs, tokens) := detected in
   if String.eqb (DecodingOptions.task o) "lang_id" then
     match language_probs with
     | None => raise TypeError
     | Some probs =>
         ret (map (fun flp =>
                     DecodingResult.lang_id (fst (fst flp)) (snd (fst flp))
                                            (snd flp))
                  (combine (combine audio_features languages) probs))
     end
   else
     let tokens :=
       flat_map (fun row => repeat row (Z.to_nat (n_group self))) tokens in
     let* looped := _main_loop be self audio_features tokens in
     let '(tokens, sum_logprobs, no_speech_probs) := looped in
     let* audio_features := lift (py_stride (n_group self) audio_features) in
     let* no_speech_probs := lift (py_stride (n_group self) no_speech_probs) in
     if negb ((length audio_features =? length no_speech_probs)%nat
              && (length no_speech_probs =? n_audio)%nat) then
       raise (AssertionError "")
     else
       let* tokens :=
         lift (reshape3 (Z.of_nat n_audio) (n_group self) tokens) in
       let* sum_logprobs :=
         lift (reshape2 (Z.of_nat n_audio) (n_group self) sum_logprobs) in
       let* finalized := decoder_finalize tokens sum_logprobs in
       let '(tokens, sum_logprobs) := finalized in
       let* tokens :=
         lift (mapM (mapM (fun x =>
                             (let* e := first_index (Tokenizer.eot tk) x in
                              Ok (py_slice (Some (sample_begin self)) (Some e) x))%result))
                    tokens) in
       let* _ := lift (Backend.language_identification be) in
       let* sum_logprobs := lift (penalise tokens sum_logprobs) in
       let* selected :=
         lift (MaximumLikelihoodRanker.rank (Backend.pow be)
                 (DecodingOptions.length_penalty o) tokens sum_logprobs) in
       let* tokens :=
         lift (mapM (fun it => py_index (snd it) (fst it))
                    (combine selected tokens)) in
       let texts := map (fun x => py_strip (Tokenizer.decode tk x)) tokens in
       let* sum_logprobs :=
         lift (mapM (fun il => py_index (snd il) (fst il))
                    (combine selected sum_logprobs)) in
       let avg_logprobs :=
         map (fun tl => (snd tl / inject_Z (Z.of_nat (length (fst tl)) + 1))%Q)
             (combine tokens sum_logprobs) in
       if negb (same_lengths [length texts; length languages; length tokens;
                              length audio_features; length avg_logprobs;
                              length no_speech_probs]) then
         raise (RuntimeError "inconsistent result lengths")
       else
         ret (map (fun f =>
                     let '(text, language, tokens, features, avg_logprob,
                           no_speech_prob) := f in
                     {| DecodingResult.audio_features := features;
                        DecodingResult.language := language;
                        DecodingResult.language_probs := None;
                        DecodingResult.tokens := tokens;
                        DecodingResult.text := text;
                        DecodingResult.avg_logprob := Some avg_logprob;
                        DecodingResult.no_speech_prob := no_speech_prob;
                        DecodingResult.temperature :=
                          Some (DecodingOptions.temperature o);
                        DecodingResult.compression_ratio :=
                          Some (Backend.compression_ratio be text) |})
                  (combine (combine (combine (combine (combine
                     texts languages) tokens) audio_features) avg_logprobs)
                     no_speech_probs)))%state.

End Run.

End DecodingTask.

(** ** Fixtures for the examples

    A byte-level toy tokenizer with the special-token ids of the
    multilingual vocabulary, and the default options of the dataclass. *)

Definition byte_encode (s : string) : list Z :=
  map (fun c => Z.of_nat (nat_of_ascii c)) (list_ascii_of_string s).

Definition byte_decode (l : list Z) : string :=
  string_of_list_ascii (map (fun z => ascii_of_nat (Z.to_nat z)) l).

Definition multilingual : Tokenizer.t := {|
  Tokenizer.encode := byte_encode;
  Tokenizer.decode := byte_decode;
  Tokenizer.eot := 50257;
  Tokenizer.sot := 50258;
  Tokenizer.sot_prev := 50361;
  Tokenizer.sot_lm := 50360;
  Tokenizer.transcribe := 50359;
  Tokenizer.translate := 50358;
  Tokenizer.no_speech := Some 50362;
  Tokenizer.no_timestamps := Some 50363;
  Tokenizer.timestamp_begin := 50364;
  Tokenizer.non_speech_tokens := [1; 2; 7; 8; 9; 10; 14; 25];
  Tokenizer.sot_sequence := [50258; 50259; 50358];
  Tokenizer.sot_sequence_including_notimestamps := [50258; 50259; 50358; 50363]
|}.

(** A model of context window 448 whose forward pass answers every row
    with equal logits over a vocabulary of six tokens, and whose cache
    has one key and one value projection. *)
Definition toy_model : Whisper.t := {|
  Whisper.n_text_ctx := 448;
  Whisper.n_audio_ctx := 1500;
  Whisper.is_encoded := fun _ => true;
  Whisper.encoder := fun mel => Ok mel;
  Whisper.decoder := fun tokens _ cache =>
    Ok (map (fun row => map (fun _ => repeat 1%Q 6) row) tokens,
        <[0%nat := map (fun _ => [1%Q]) tokens]>
          (<[1%nat := map (fun _ => [1%Q]) tokens]> cache));
  Whisper.install_kv_cache_hooks := (<[0%nat := []]> (<[1%nat := []]> ∅), [0%nat; 1%nat]);
  Whisper.detect_language := fun features => Ok (map (fun _ => 50259) features,
                                                 map (fun _ => [("en"%string, 1%Q)]) features);
  Whisper.decoder_blocks := [(0%nat, 1%nat)]
|}.

Definition no_lm (path : string) : result BeamSearchDecoderWithLM.kenlm :=
  Raise (ExternalError "Cannot read model").

Definition default_options : DecodingOptions.t := {|
  DecodingOptions.task := "translate";
  DecodingOptions.language := None;
  DecodingOptions.temperature := 0;
  DecodingOptions.sample_len := None;
  DecodingOptions.best_of := None;
  DecodingOptions.beam_size := None;
  DecodingOptions.patience := None;
  DecodingOptions.length_penalty := None;
  DecodingOptions.prompt := None;
  DecodingOptions.prefix := None;
  DecodingOptions.suppress_blank := true;
  DecodingOptions.suppress_tokens := Some (SuppressStr "-1");
  DecodingOptions.without_timestamps := false;
  DecodingOptions.max_initial_timestamp := Some 1%Q;
  DecodingOptions.withlm := false;
  DecodingOptions.lm_path := None;
  DecodingOptions.lm_alpha := 2;
  DecodingOptions.lm_beta := 5 # 2;
  DecodingOptions.select_candidates := None
|}.

Definition with_prefix (o : DecodingOptions.t) (p : text_or_tokens)
  : DecodingOptions.t := {|
  DecodingOptions.task := DecodingOptions.task o;
  DecodingOptions.language := DecodingOptions.language o;
  DecodingOptions.temperature := DecodingOptions.temperature o;
  DecodingOptions.sample_len := DecodingOptions.sample_len o;
  DecodingOptions.best_of := DecodingOptions.best_of o;
  DecodingOptions.beam_size := DecodingOptions.beam_size o;
  DecodingOptions.patience := DecodingOptions.patience o;
  DecodingOptions.length_penalty := DecodingOptions.length_penalty o;
  DecodingOptions.prompt := DecodingOptions.prompt o;
  DecodingOptions.prefix := Some p;
  DecodingOptions.suppress_blank := DecodingOptions.suppress_blank o;
  DecodingOptions.suppress_tokens := DecodingOptions.suppress_tokens o;
  DecodingOptions.without_timestamps := DecodingOptions.without_timestamps o;
  DecodingOptions.max_initial_timestamp := DecodingOptions.max_initial_timestamp o;
  DecodingOptions.withlm := DecodingOptions.withlm o;
  DecodingOptions.lm_path := DecodingOptions.lm_path o;
  DecodingOptions.lm_alpha := DecodingOptions.lm_alpha o;
  DecodingOptions.lm_beta := DecodingOptions.lm_beta o;
  DecodingOptions.select_candidates := DecodingOptions.select_candidates o
|}.

(** [x ** p] on rationals for an integral exponent [p] (the ends 0 and 1
    of the admissible range of [length_penalty]); other exponents have
    no rational value and are taken at their integral part. *)
Definition pow_integral (x p : Q) : Q := Qpower x (Qfloor p).

(** ** States of a beam-search decoder

    The worlds that a decoder built by [__init__] can be in: any number
    of [update] calls (whatever their outcome) and [reset] calls, and any
    use of the shared inference object by the task in between. *)

Inductive beam_reachable : BeamSearchDecoder.world -> Prop :=
| beam_reach_init beam_size eot patience engchar d inf :
    BeamSearchDecoder.init beam_size eot patience engchar = Ok d ->
    beam_reachable (d, inf)
| beam_reach_update w tokens logprobs sum_logprobs r w' :
    beam_reachable w ->
    BeamSearchDecoder.update tokens logprobs sum_logprobs w = (r, w') ->
    beam_reachable w'
| beam_reach_reset w :
    beam_reachable w ->
    beam_reachable (BeamSearchDecoder.reset (fst w), snd w)
| beam_reach_inference w inf :
    beam_reachable w ->
    beam_reachable (fst w, inf).

(** Every audio's finished-sequence set has at most [bound] entries. *)
Definition finished_within (bound : Z) (d : BeamSearchDecoder.t) : Prop :=
  forall fs, BeamSearchDecoder.finished_sequences d = Some fs ->
    Forall (fun sequences : dict Q => Z.of_nat (length sequences) <= bound) fs.

(** A single-module cache of two rows for the examples. *)
Definition toy_inference : PyTorchInference.t := {|
  PyTorchInference.initial_token_length := 1;
  PyTorchInference.kv_cache := <[0%nat := [[1%Q]; [2%Q]]]> ∅;
  PyTorchInference.hooks := [0%nat];
  PyTorchInference.kv_modules := [0%nat]
|}.

(** ** Sequences sampled under the timestamp filter

    A token can be sampled at a step when the filter leaves it a logit
    other than [-inf]; a sequence is produced under the filter when each
    of its tokens could be sampled after the ones before it, from the
    initial context [initial] of [sample_begin] tokens. *)

Definition producible (self : ApplyTimestampRules.t) (tokens_k : list Z)
    (logits_k : list Q) (token : Z) : Prop :=
  exists out x,
    ApplyTimestampRules.apply_row self tokens_k logits_k = Ok out
    /\ 0 <= token
    /\ out !! Z.to_nat token = Some x
    /\ ~ (x == neg_inf)%Q.

Inductive produced (self : ApplyTimestampRules.t) (initial : list Z)
  : list Z -> Prop :=
| produced_nil : produced self initial []
| produced_step sampled logits_k token :
    produced self initial sampled ->
    producible self (initial ++ sampled) logits_k token ->
    produced self initial (sampled ++ [token]).

(** A small vocabulary for the examples: text tokens 0 to 3, end-of-text
    4, special tokens 5 to 9, timestamps from 10 to 15. *)
Definition small_tokenizer : Tokenizer.t := {|
  Tokenizer.encode := byte_encode;
  Tokenizer.decode := byte_decode;
  Tokenizer.eot := 4;
  Tokenizer.sot := 5;
  Tokenizer.sot_prev := 8;
  Tokenizer.sot_lm := 7;
  Tokenizer.transcribe := 6;
  Tokenizer.translate := 6;
  Tokenizer.no_speech := None;
  Tokenizer.no_timestamps := Some 9;
  Tokenizer.timestamp_begin := 10;
  Tokenizer.non_speech_tokens := [3];
  Tokenizer.sot_sequence := [5; 6];
  Tokenizer.sot_sequence_including_notimestamps := [5; 6; 9]
|}.

Definition small_rules : ApplyTimestampRules.t := {|
  ApplyTimestampRules.tokenizer := small_tokenizer;
  ApplyTimestampRules.sample_begin := 2;
  ApplyTimestampRules.max_initial_timestamp_index := Some 2
|}.

(** Sixteen equal logits. *)
Definition flat_logits : list Q := repeat 1%Q 16.

(** A decoder of two beams with patience one half, after one step over
    a vocabulary of four tokens in which no hypothesis has finished. *)
Definition half_patience_decoder : BeamSearchDecoder.t := {|
  BeamSearchDecoder.beam_size := 2;
  BeamSearchDecoder.eot := 3;
  BeamSearchDecoder.patience := 1 # 2;
  BeamSearchDecoder.max_candidates := 1;
  BeamSearchDecoder.finished_sequences := None;
  BeamSearchDecoder.data_list := []
|}.

Definition toy_logprobs : list (list Q) :=
  [[(-1)%Q; (-2)%Q; (-3)%Q; (-10)%Q]; [(-1)%Q; (-2)%Q; (-3)%Q; (-10)%Q]].

Definition half_patience_world : BeamSearchDecoder.world :=
  snd (BeamSearchDecoder.update [[0]; [0]] toy_logprobs [0%Q; 0%Q]
         (half_patience_decoder, toy_inference)).

(** ** Counting the cache clean-ups of a task *)

Definition cleanup_count (tr : list DecodingTask.event) : nat :=
  length (List.filter (fun e => match e with
                                | DecodingTask.Cleanup => true
                                | DecodingTask.Forward => false
                                end) tr).

(** Whether [run] reaches the sampling loop: the features are computed,
    the language detection returns and the task is not a language
    identification. *)
Definition enters_loop (self : DecodingTask.t) (mel : list (list Q)) : bool :=
  match DecodingTask._get_audio_features self mel with
  | Raise _ => false
  | Ok audio_features =>
      match DecodingTask._detect_language self audio_features
              (repeat (DecodingTask.initial_tokens self) (length mel)) with
      | Raise _ => false
      | Ok _ =>
          negb (String.eqb (DecodingOptions.task (DecodingTask.options self))
                           "lang_id")
      end
  end.

(** A back end for the examples: the log-probabilities are the logits
    shifted by one, the draw is always token 0, every text is detected
    as English. *)
Definition toy_backend : Backend.t := {|
  Backend.log_softmax := map (fun x => (x - 1)%Q);
  Backend.categorical_sample := fun _ logits => map (fun _ => 0) logits;
  Backend.language_identification := Ok tt;
  Backend.detect := fun _ => Ok "en"%string;
  Backend.compression_ratio := fun _ => 1%Q;
  Backend.pow := pow_integral
|}.

Definition with_task (o : DecodingOptions.t) (task : string)
  : DecodingOptions.t := {|
  DecodingOptions.task := task;
  DecodingOptions.language := DecodingOptions.language o;
  DecodingOptions.temperature := DecodingOptions.temperature o;
  DecodingOptions.sample_len := DecodingOptions.sample_len o;
  DecodingOptions.best_of := DecodingOptions.best_of o;
  DecodingOptions.beam_size := DecodingOptions.beam_size o;
  DecodingOptions.patience := DecodingOptions.patience o;
  DecodingOptions.length_penalty := DecodingOptions.length_penalty o;
  DecodingOptions.prompt := DecodingOptions.prompt o;
  DecodingOptions.prefix := DecodingOptions.prefix o;
  DecodingOptions.suppress_blank := DecodingOptions.suppress_blank o;
  DecodingOptions.suppress_tokens := DecodingOptions.suppress_tokens o;
  DecodingOptions.without_timestamps := DecodingOptions.without_timestamps o;
  DecodingOptions.max_initial_timestamp := DecodingOptions.max_initial_timestamp o;
  DecodingOptions.withlm := DecodingOptions.withlm o;
  DecodingOptions.lm_path := DecodingOptions.lm_path o;
  DecodingOptions.lm_alpha := DecodingOptions.lm_alpha o;
  DecodingOptions.lm_beta := DecodingOptions.lm_beta o;
  DecodingOptions.select_candidates := DecodingOptions.select_candidates o
|}.

(** Whether the language check of [run] takes a candidate for English. *)
Definition detected_english (be : Backend.t) (tk : Tokenizer.t)
    (candidate : list Z) : bool :=
  match Backend.detect be (Tokenizer.decode tk candidate) with
  | Ok lang => String.eqb lang "en"
  | Raise _ => false
  end.

(** A language detector that fails on the empty text and takes a text
    that starts with a capital Z for Polish. *)
Definition picky_backend : Backend.t := {|
  Backend.log_softmax := map (fun x => (x - 1)%Q);
  Backend.categorical_sample := fun _ logits => map (fun _ => 0) logits;
  Backend.language_identification := Ok tt;
  Backend.detect := fun s =>
    match s with
    | EmptyString => Raise (ExternalError "No features in text.")
    | String "Z" _ => Ok "pl"%string
    | _ => Ok "en"%string
    end;
  Backend.compression_ratio := fun _ => 1%Q;
  Backend.pow := pow_integral
|}.

(** A greedy task with best-of-two sampling over the toy model, one
    sampling step and no logit filter, and its initial world. *)
Definition group_task : DecodingTask.t := {|
  DecodingTask.model := toy_model;
  DecodingTask.tokenizer := multilingual;
  DecodingTask.options := default_options;
  DecodingTask.n_group := 2;
  DecodingTask.n_ctx := 448;
  DecodingTask.sample_len := 1;
  DecodingTask.sot_sequence := [50258; 50259; 50358];
  DecodingTask.initial_tokens := [50258; 50259; 50358];
  DecodingTask.sample_begin := 3;
  DecodingTask.sot_index := 0;
  DecodingTask.logit_filters := []
|}.

(** The same task for a language identification. *)
Definition lang_id_task : DecodingTask.t := {|
  DecodingTask.model := toy_model;
  DecodingTask.tokenizer := multilingual;
  DecodingTask.options := with_task default_options "lang_id";
  DecodingTask.n_group := 1;
  DecodingTask.n_ctx := 448;
  DecodingTask.sample_len := 1;
  DecodingTask.sot_sequence := [50258; 50259; 50358];
  DecodingTask.initial_tokens := [50258; 50259; 50358];
  DecodingTask.sample_begin := 3;
  DecodingTask.sot_index := 0;
  DecodingTask.logit_filters := []
|}.

Definition group_world : DecodingTask.world := {|
  DecodingTask.inference := PyTorchInference.init toy_model 3;
  DecodingTask.decoder :=
    DecodingTask.Greedy {| GreedyDecoder.temperature := 1;
                           GreedyDecoder.eot := 50257 |};
  DecodingTask.trace := []
|}.

(** An inference object whose cache holds the tensors of its two
    self-attention modules 0 and 1 and, under module 5, one that is not
    in [kv_modules] (as the cross-attention projections are); two rows
    each. *)
Definition cross_cached_inference : PyTorchInference.t := {|
  PyTorchInference.initial_token_length := 3;
  PyTorchInference.kv_cache :=
    <[0%nat := [[1%Q]; [2%Q]]]>
      (<[1%nat := [[3%Q]; [4%Q]]]> (<[5%nat := [[5%Q]; [6%Q]]]> ∅));
  PyTorchInference.hooks := [0%nat; 1%nat; 5%nat];
  PyTorchInference.kv_modules := [0%nat; 1%nat]
|}.

(** ** The language check inside [run]

    [reaches_language_check] says that [run] gets as far as the language
    check: every step before it returns, with [tokens] the trimmed
    candidates and [sum_logprobs] their scores as [finalize] gave them.
    [collect_results] is what [run] does with the ranker's selection:
    the chosen candidate of every audio, its text and average
    log-probability, and the results built from them. *)

Definition reaches_language_check (be : Backend.t) (self : DecodingTask.t)
    (mel : list (list Q)) (w : DecodingTask.world)
    (languages : list (option string)) (audio_features : list (list Q))
    (no_speech_probs : list (option Q)) (tokens : list (list (list Z)))
    (sum_logprobs : list (list Q)) (w' : DecodingTask.world) : Prop :=
  let tk := DecodingTask.tokenizer self in
  let n_audio := length mel in
  let n_group := DecodingTask.n_group self in
  exists features probs rows looped_tokens looped_sums looped_probs w1
         grouped_tokens grouped_sums finalized,
    String.eqb (DecodingOptions.task (DecodingTask.options self)) "lang_id"
    = false
    /\ DecodingTask._get_audio_features self mel = Ok features
    /\ DecodingTask._detect_language self features
         (repeat (DecodingTask.initial_tokens self) n_audio)
       = Ok (languages, probs, rows)
    /\ DecodingTask._main_loop be self features
         (flat_map (fun row => repeat row (Z.to_nat n_group)) rows)
         (snd (DecodingTask.decoder_reset w))
       = (Ok (looped_tokens, looped_sums, looped_probs), w1)
    /\ py_stride n_group features = Ok audio_features
    /\ py_stride n_group looped_probs = Ok no_speech_probs
    /\ length audio_features = length no_speech_probs
    /\ length no_speech_probs = n_audio
    /\ reshape3 (Z.of_nat n_audio) n_group looped_tokens = Ok grouped_tokens
    /\ reshape2 (Z.of_nat n_audio) n_group looped_sums = Ok grouped_sums
    /\ DecodingTask.decoder_finalize grouped_tokens grouped_sums w1
       = (Ok (finalized, sum_logprobs), w')
    /\ mapM (mapM (fun x =>
                     (let* e := DecodingTask.first_index (Tokenizer.eot tk) x in
                      Ok (py_slice (Some (DecodingTask.sample_begin self))
                                   (Some e) x))%result))
            finalized
       = Ok tokens
    /\ Backend.language_identification be = Ok tt.

Definition collect_results (be : Backend.t) (self : DecodingTask.t)
    (languages : list (option string)) (audio_features : list (list Q))
    (no_speech_probs : list (option Q)) (tokens : list (list (list Z)))
    (selected : list Z) (sum_logprobs : list (list Q))
  : result (list DecodingResult.t) :=
  let tk := DecodingTask.tokenizer self in
  let o := DecodingTask.options self in
  (let* tokens :=
     mapM (fun it => py_index (snd it) (fst it)) (combine selected tokens) in
   let texts := map (fun x => py_strip (Tokenizer.decode tk x)) tokens in
   let* sum_logprobs :=
     mapM (fun il => py_index (snd il) (fst il))
          (combine selected sum_logprobs) in
   let avg_logprobs :=
     map (fun tl => (snd tl / inject_Z (Z.of_nat (length (fst tl)) + 1))%Q)
         (combine tokens sum_logprobs) in
   if negb (DecodingTask.same_lengths
              [length texts; length languages; length tokens;
               length audio_features; length avg_logprobs;
               length no_speech_probs]) then
     Raise (RuntimeError "inconsistent result lengths")
   else
     Ok (map (fun f =>
                let '(text, language, tokens, features, avg_logprob,
                      no_speech_prob) := f in
                {| DecodingResult.audio_features := features;
                   DecodingResult.language := language;
                   DecodingResult.language_probs := None;
                   DecodingResult.tokens := tokens;
                   DecodingResult.text := text;
                   DecodingResult.avg_logprob := Some avg_logprob;
                   DecodingResult.no_speech_prob := no_speech_prob;
                   DecodingResult.temperature :=
                     Some (DecodingOptions.temperature o);
                   DecodingResult.compression_ratio :=
                     Some (Backend.compression_ratio be text) |})
             (combine (combine (combine (combine (combine
                texts languages) tokens) audio_features) avg_logprobs)
                no_speech_probs)))%result.

(** A task of two beams over a vocabulary of four tokens (end-of-text is
    0) in which a candidate that starts with token 1 reads "Zo" and any
    other reads "Hi"; its model answers every position with the logits
    0, 3, 2, 1, so token 1 is the likeliest continuation. *)
Definition two_word_tokenizer : Tokenizer.t := {|
  Tokenizer.encode := byte_encode;
  Tokenizer.decode := fun l =>
    match l with 1 :: _ => "Zo"%string | _ => "Hi"%string end;
  Tokenizer.eot := 0;
  Tokenizer.sot := 5;
  Tokenizer.sot_prev := 8;
  Tokenizer.sot_lm := 7;
  Tokenizer.transcribe := 6;
  Tokenizer.translate := 6;
  Tokenizer.no_speech := None;
  Tokenizer.no_timestamps := Some 9;
  Tokenizer.timestamp_begin := 10;
  Tokenizer.non_speech_tokens := [];
  Tokenizer.sot_sequence := [5; 6];
  Tokenizer.sot_sequence_including_notimestamps := [5; 6; 9]
|}.

Definition two_word_model : Whisper.t := {|
  Whisper.n_text_ctx := 448;
  Whisper.n_audio_ctx := 1500;
  Whisper.is_encoded := fun _ => true;
  Whisper.encoder := fun mel => Ok mel;
  Whisper.decoder := fun tokens _ cache =>
    Ok (map (fun row => map (fun _ => [0%Q; 3%Q; 2%Q; 1%Q]) row) tokens,
        <[0%nat := map (fun _ => [1%Q]) tokens]>
          (<[1%nat := map (fun _ => [1%Q]) tokens]> cache));
  Whisper.install_kv_cache_hooks :=
    (<[0%nat := []]> (<[1%nat := []]> ∅), [0%nat; 1%nat]);
  Whisper.detect_language := fun features =>
    Ok (map (fun _ => 6) features,
        map (fun _ => [("en"%string, 1%Q)]) features);
  Whisper.decoder_blocks := [(0%nat, 1%nat)]
|}.

Definition two_word_task : DecodingTask.t := {|
  DecodingTask.model := two_word_model;
  DecodingTask.tokenizer := two_word_tokenizer;
  DecodingTask.options := default_options;
  DecodingTask.n_group := 2;
  DecodingTask.n_ctx := 448;
  DecodingTask.sample_len := 1;
  DecodingTask.sot_sequence := [5; 6];
  DecodingTask.initial_tokens := [5; 6];
  DecodingTask.sample_begin := 2;
  DecodingTask.sot_index := 0;
  DecodingTask.logit_filters := []
|}.

Definition two_word_world : DecodingTask.world := {|
  DecodingTask.inference := PyTorchInference.init two_word_model 2;
  DecodingTask.decoder :=
    DecodingTask.Beam {| BeamSearchDecoder.beam_size := 2;
                         BeamSearchDecoder.eot := 0;
                         BeamSearchDecoder.patience := 1;
                         BeamSearchDecoder.max_candidates := 2;
                         BeamSearchDecoder.finished_sequences := None;
                         BeamSearchDecoder.data_list := [] |};
  DecodingTask.trace := []
|}.

(** A stand-in for the n-gram scorer: every symbol scores -1 and the
    state counts the symbols read. *)
Definition counting_kenlm : BeamSearchDecoderWithLM.kenlm := {|
  BeamSearchDecoderWithLM.BeginSentenceWrite := 0%nat;
  BeamSearchDecoderWithLM.BaseScore := fun state _ => ((-1)%Q, S state)
|}.

(** A decoder of one beam after one step from the row [7] in which the
    likeliest continuation is end-of-text (token 3): the sequence
    [7, 3] is finished. *)
Definition one_finished_world : BeamSearchDecoder.world :=
  snd (BeamSearchDecoder.update [[7]]
         [[(-1)%Q; (-2)%Q; (-3)%Q; (-1 # 2)%Q]] [0%Q]
         ({| BeamSearchDecoder.beam_size := 1;
             BeamSearchDecoder.eot := 3;
             BeamSearchDecoder.patience := 1;
             BeamSearchDecoder.max_candidates := 1;
             BeamSearchDecoder.finished_sequences := None;
             BeamSearchDecoder.data_list := [] |}, toy_inference)).

(** ** Predicates of the further properties *)

(** The option combinations that [_verify_options] lets through. *)
Definition valid_options (o : DecodingOptions.t) : Prop :=
  ~ (is_Some (DecodingOptions.beam_size o)
     /\ is_Some (DecodingOptions.best_of o))
  /\ ~ ((DecodingOptions.temperature o == 0)%Q
        /\ is_Some (DecodingOptions.best_of o))
  /\ (is_Some (DecodingOptions.patience o)
      -> is_Some (DecodingOptions.beam_size o))
  /\ (forall p, DecodingOptions.length_penalty o = Some p ->
                (0 <= p)%Q /\ (p <= 1)%Q).

(** [m] appends between [lo] and [hi] forward passes, and nothing else,
    to the trace. *)
Definition forwards {A : Type} (lo hi : nat) (m : M DecodingTask.world A)
  : Prop :=
  forall w, exists k,
    (lo <= k <= hi)%nat
    /\ DecodingTask.trace (snd (m w))
       = DecodingTask.trace w ++ repeat DecodingTask.Forward k.

(** [sequence] is a row of [tokens] followed by one more token. *)
Definition extends_row (tokens : list (list Z)) (sequence : list Z) : Prop :=
  exists idx prefix tok,
    py_index tokens idx = Ok prefix /\ sequence = prefix ++ [tok].

(** What [update] hands back when it returns: no more rows than it was
    given, each an input row extended by one token other than
    end-of-text, and a tensor of cumulative log-probabilities of the
    size it had. *)
Definition live_output (eot : Z) (tokens : list (list Z))
    (sum_logprobs : list Q) (r : result (list (list Z) * bool * list Q))
  : Prop :=
  match r with
  | Ok (next_tokens, _, sum_logprobs') =>
      (length next_tokens <= length tokens)%nat
      /\ length sum_logprobs' = length sum_logprobs
      /\ forall row, row ∈ next_tokens ->
           last row <> Some eot /\ extends_row tokens row
  | Raise _ => True
  end.

(** Every key of the finished set [d] ends with the token [e]. *)
Definition keys_end_with (e : Z) (d : dict Q) : Prop :=
  forall k v, In (k, v) d -> last k = Some e.

(** Every finished sequence of the decoder ends with its end-of-text
    token. *)
Definition finished_end_with_eot (d : BeamSearchDecoder.t) : Prop :=
  forall fs, BeamSearchDecoder.finished_sequences d = Some fs ->
    Forall (keys_end_with (BeamSearchDecoder.eot d)) fs.

(** The beam-search decoder [d] of a task: its beam size is the group
    size by which [run] repeats the token rows. *)
Definition beam_agrees (task : DecodingTask.t) (d : BeamSearchDecoder.t)
  : Prop :=
  DecodingTask.n_group task = BeamSearchDecoder.beam_size d
  /\ BeamSearchDecoder.beam_size d <> 0
  /\ 0 < BeamSearchDecoder.max_candidates d
  /\ BeamSearchDecoder.eot d
     = Tokenizer.eot (DecodingTask.tokenizer task)
  /\ BeamSearchDecoder.finished_sequences d = None.

(** The position that the index [i] names in a row of [len] entries (a
    negative index counts from the end). *)
Definition norm_index (len : nat) (i : Z) : Z :=
  if i <? 0 then Z.of_nat len + i else i.

(** The index [i] names a position of a row of [len] entries. *)
Definition index_in_range (len : nat) (i : Z) : Prop :=
  0 <= norm_index len i < Z.of_nat len.

(** Whether one of [indices] names position [p]. *)
Definition suppressed (len : nat) (indices : list Z) (p : nat) : bool :=
  existsb (fun i => norm_index len i =? Z.of_nat p) indices.

(** [row'] is [row] with [-inf] at the positions named by [indices] and
    nothing else changed. *)
Definition suppresses (indices : list Z) (row row' : list Q) : Prop :=
  length row' = length row
  /\ forall p x, row !! p = Some x ->
       row' !! p = Some (if suppressed (length row) indices p then neg_inf
                         else x).

(** From [d] to [d'] no finished sequence is lost: the audios are the
    same in number and every sequence finished for an audio in [d] is
    still finished for it in [d']. *)
Definition keeps_finished (d d' : BeamSearchDecoder.t) : Prop :=
  forall fs, BeamSearchDecoder.finished_sequences d = Some fs ->
    exists fs', BeamSearchDecoder.finished_sequences d' = Some fs'
      /\ Forall2 (fun s s' : dict Q =>
                    forall k, In k (map fst s) -> In k (map fst s'))
                 fs fs'.

(** The flag that [update] returns says that every audio has its
    [max_candidates] finished sequences. *)
Definition completed_means_full (d' : BeamSearchDecoder.t)
    (r : result (list (list Z) * bool * list Q)) : Prop :=
  forall next_tokens completed sum_logprobs,
    r = Ok (next_tokens, completed, sum_logprobs) ->
    exists fs', BeamSearchDecoder.finished_sequences d' = Some fs'
      /\ (completed = true <->
          Forall (fun s : dict Q =>
                    BeamSearchDecoder.max_candidates d'
                    <= Z.of_nat (length s)) fs').

(* ================================================================= *)
(** * Part II: the properties *)
(* ================================================================= *)

(** ** The prefix bound of the initial token context *)

Lemma py_slice_from_length {A : Type} (i : Z) (xs : list A) :
  Z.of_nat (length (py_slice_from i xs)) =
  if i <? 0 then Z.min (- i) (Z.of_nat (length xs))
  else Z.max 0 (Z.of_nat (length xs) - i).
Proof.
  unfold py_slice_from. rewrite length_skipn.
  destruct (i <? 0) eqn:E; [apply Z.ltb_lt in E | apply Z.ltb_ge in E]; lia.
Qed.

(** With a positive budget the slice keeps at most [max_prefix_len]
    tokens, and they are a suffix of the prefix. *)
Lemma kept_prefix_bound (n_ctx sample_len : Z) (p : list Z) :
  0 < n_ctx / 2 - sample_len ->
  Z.of_nat (length (DecodingTask.kept_prefix n_ctx sample_len p))
    <= n_ctx / 2 - sample_len
  /\ exists dropped, p = dropped ++ DecodingTask.kept_prefix n_ctx sample_len p.
Proof.
  intros Hpos. unfold DecodingTask.kept_prefix. split.
  - rewrite py_slice_from_length.
    destruct (_ <? 0) eqn:E; [apply Z.ltb_lt in E | apply Z.ltb_ge in E]; lia.
  - unfold py_slice_from. eexists. symmetry. apply firstn_skipn.
Qed.

(** With the default sampling budget the bound is zero, and the slice
    [prefix_tokens[-0:]] is the whole prefix. *)
Lemma kept_prefix_default_budget (n_ctx : Z) (p : list Z) :
  DecodingTask.kept_prefix n_ctx (n_ctx / 2) p = p.
Proof.
  unfold DecodingTask.kept_prefix, py_slice_from.
  rewrite Z.sub_diag. change (- 0 <? 0) with false. cbv beta iota zeta.
  rewrite Z.min_l by lia. reflexivity.
Qed.

(** C4 (code defect): with the default options (context window 448,
    [sample_len] unset, so 224) and the three-token prefix [7, 8, 9], the
    bound [n_ctx // 2 - sample_len] is 0, yet the initial context keeps
    all three prefix tokens after the start sequence. *)
Theorem initial_tokens_keep_whole_prefix_at_default_budget :
  match DecodingTask.init toy_model multilingual
          (with_prefix default_options (Tokens [7; 8; 9])) (Ok []) no_lm with
  | Ok (task, _) =>
      DecodingTask.n_ctx task / 2 - DecodingTask.sample_len task = 0
      /\ DecodingTask.initial_tokens task = [50258; 50259; 50358; 7; 8; 9]
      /\ DecodingTask.kept_prefix (DecodingTask.n_ctx task)
           (DecodingTask.sample_len task) [7; 8; 9] = [7; 8; 9]
  | Raise _ => False
  end.
Proof. vm_compute. repeat split; reflexivity. Qed.

(** ** Cache rearrangement *)

Section Rearrange.
Import PyTorchInference.

Lemma py_index_in_range {A : Type} (xs : list A) (k : Z) :
  0 <= k < Z.of_nat (length xs) ->
  exists x, py_index xs k = Ok x /\ xs !! Z.to_nat k = Some x.
Proof.
  intros Hk. unfold py_index.
  destruct (k <? 0) eqn:E; [apply Z.ltb_lt in E; lia |]. rewrite E.
  destruct (xs !! Z.to_nat k) as [x|] eqn:Hn.
  - exists x. split; reflexivity.
  - apply lookup_ge_None in Hn. lia.
Qed.

Lemma index_select_rows (x : tensor) (src : list Z) :
  (forall k, k ∈ src -> 0 <= k < Z.of_nat (length x)) ->
  exists x', index_select x src = Ok x'
    /\ length x' = length src
    /\ forall (i : nat) (k : Z), src !! i = Some k -> x' !! i = x !! Z.to_nat k.
Proof.
  unfold index_select. induction src as [|k src IH]; intros Hin.
  - exists []. cbn. repeat split; auto. intros i k Hi. discriminate.
  - destruct (py_index_in_range x k) as (r & Hr & Hl).
    { apply Hin. left. }
    destruct IH as (x' & Hx' & Hlen & Hrows).
    { intros k' Hk'. apply Hin. now right. }
    exists (r :: x'). cbn. rewrite Hr. cbn. rewrite Hx'. cbn.
    repeat split; [now rewrite Hlen |].
    intros [|i] k' Hi; cbn in *.
    + injection Hi as Hi. subst k'. symmetry. exact Hl.
    + now apply Hrows.
Qed.

Lemma rearrange_modules_spec (mods : list nat) (src : list Z)
    (cache : gmap nat tensor) :
  NoDup mods ->
  (forall m, m ∈ mods -> is_Some (cache !! m)) ->
  (forall m x k, m ∈ mods -> cache !! m = Some x -> k ∈ src ->
                 0 <= k < Z.of_nat (length x)) ->
  exists cache', rearrange_modules mods src cache = (Ok tt, cache')
    /\ (forall m, m ∉ mods -> cache' !! m = cache !! m)
    /\ (forall m, m ∈ mods ->
          exists x x', cache !! m = Some x /\ cache' !! m = Some x'
            /\ index_select x src = Ok x').
Proof.
  revert cache. induction mods as [|m mods IH]; intros cache Hnd Hdom Hrange.
  - exists cache. cbn. repeat split; auto. intros m Hm. inversion Hm.
  - apply NoDup_cons in Hnd as [Hm Hnd].
    destruct (Hdom m) as [x Hx]; [left |].
    destruct (index_select_rows x src) as (x' & Hsel & Hlen & Hrows).
    { intros k Hk. eapply Hrange; eauto. left. }
    destruct (IH (<[m := x']> cache)) as (cache' & Hrun & Hframe & Hmods); auto.
    + intros m' Hm'. destruct (decide (m = m')) as [->|Hne].
      * rewrite lookup_insert_eq. eauto.
      * rewrite lookup_insert_ne by done. apply Hdom. now right.
    + intros m' y k Hm' Hy Hk. destruct (decide (m = m')) as [->|Hne].
      * contradiction.
      * rewrite lookup_insert_ne in Hy by done. eapply Hrange; eauto. now right.
    + exists cache'. simpl. unfold bind, get, put, lift. rewrite Hx, Hsel.
      split; [exact Hrun |]. split.
      * intros m' Hm'. rewrite Hframe.
        -- apply lookup_insert_ne. intros ->. apply Hm'. left.
        -- intros H. apply Hm'. now right.
      * intros m' [->|Hm']%elem_of_cons.
        -- exists x, x'. rewrite Hframe by done. rewrite lookup_insert_eq. auto.
        -- destruct (Hmods m' Hm') as (y & y' & Hy & Hy' & Hs).
           assert (m <> m') as Hne by (intros ->; contradiction).
           rewrite lookup_insert_ne in Hy by done. eauto.
Qed.

Lemma py_range_lookup (n i : nat) (k : Z) :
  py_range n !! i = Some k -> Z.to_nat k = i.
Proof.
  unfold py_range. rewrite list_lookup_fmap.
  destruct (seq 0 n !! i) as [j|] eqn:Hj; [|discriminate].
  apply lookup_seq in Hj as [-> _]. simpl. intros [= <-]. lia.
Qed.

(** C8 (amended): a call of [rearrange_kv_cache] on a cache that holds a
    tensor for each of the distinct modules of [kv_modules], with source
    indices inside these tensors, returns.  When [source_indices] is the
    identity [0, 1, ..., n-1] the state is unchanged.  In every case the
    tensor of each module of [kv_modules] is still cached afterwards and
    its row [i] is row [source_indices[i]] of that tensor beforehand
    (with one row per source index when the indices are not the
    identity); a cached tensor of any other module is left as it was,
    and so are the hooks and the module list. *)
Theorem rearrange_kv_cache_rows (self : t) (src : list Z) :
  NoDup (kv_modules self) ->
  (forall m, m ∈ kv_modules self -> is_Some (kv_cache self !! m)) ->
  (forall m x k, m ∈ kv_modules self -> kv_cache self !! m = Some x ->
                 k ∈ src -> 0 <= k < Z.of_nat (length x)) ->
  exists self',
    rearrange_kv_cache src self = (Ok tt, self')
    /\ (src = py_range (length src) -> self' = self)
    /\ initial_token_length self' = initial_token_length self
    /\ hooks self' = hooks self
    /\ kv_modules self' = kv_modules self
    /\ (forall m, m ∉ kv_modules self ->
          kv_cache self' !! m = kv_cache self !! m)
    /\ (forall m, m ∈ kv_modules self ->
          exists x x',
            kv_cache self !! m = Some x /\ kv_cache self' !! m = Some x'
            /\ (src <> py_range (length src) -> length x' = length src)
            /\ forall (i : nat) (k : Z),
                 src !! i = Some k -> x' !! i = x !! Z.to_nat k).
Proof.
  intros Hnd Hdom Hrange. unfold rearrange_kv_cache.
  destruct (decide (src = py_range (length src))) as [Hid|Hnid].
  - rewrite bool_decide_eq_false_2 by (intros H; now apply H).
    exists self. repeat split; auto.
    intros m Hm. destruct (Hdom m Hm) as [x Hx]. exists x, x.
    repeat split; auto; [congruence |].
    intros i k Hi. rewrite Hid in Hi. apply py_range_lookup in Hi.
    now rewrite Hi.
  - rewrite bool_decide_eq_true_2 by assumption.
    destruct (rearrange_modules_spec (kv_modules self) src (kv_cache self))
      as (cache' & Hrun & Hframe & Hmods); auto.
    unfold zoom. rewrite Hrun. eexists. split; [reflexivity |].
    split; [intros; contradiction |]. simpl.
    split; [reflexivity |]. split; [reflexivity |]. split; [reflexivity |].
    split; [exact Hframe |].
    intros m Hin. destruct (Hmods m Hin) as (x & y & Hx & Hy & Hsel).
    destruct (index_select_rows x src) as (y' & Hsel' & Hlen & Hrows).
    { intros k Hk. eapply Hrange; eauto. }
    rewrite Hsel in Hsel'. injection Hsel' as <-.
    exists x, y. auto.
Qed.

Lemma rearrange_kv_cache_rows_witness :
  let self := cross_cached_inference in
  exists self',
    rearrange_kv_cache [1; 0] self = (Ok tt, self')
    /\ ([1; 0] = py_range 2 -> self' = self)
    /\ initial_token_length self' = initial_token_length self
    /\ hooks self' = hooks self
    /\ kv_modules self' = kv_modules self
    /\ (forall m, m ∉ kv_modules self ->
          kv_cache self' !! m = kv_cache self !! m)
    /\ (forall m, m ∈ kv_modules self ->
          exists x x',
            kv_cache self !! m = Some x /\ kv_cache self' !! m = Some x'
            /\ ([1; 0] <> py_range 2 -> length x' = 2%nat)
            /\ forall (i : nat) (k : Z),
                 [1; 0] !! i = Some k -> x' !! i = x !! Z.to_nat k).
Proof.
  intros self. apply (rearrange_kv_cache_rows self [1; 0]).
  - subst self. simpl.
    apply NoDup_cons_2; [|apply NoDup_singleton].
    intros H. apply list_elem_of_In in H. simpl in H. lia.
  - subst self. simpl. intros m Hm.
    apply list_elem_of_In in Hm. simpl in Hm.
    destruct Hm as [<-|[<-|[]]].
    + rewrite lookup_insert_eq. eauto.
    + rewrite lookup_insert_ne, lookup_insert_eq by lia. eauto.
  - subst self. simpl. intros m x k Hm Hx Hk.
    assert (length x = 2%nat) as ->.
    { apply list_elem_of_In in Hm. simpl in Hm.
      destruct Hm as [<-|[<-|[]]].
      - rewrite lookup_insert_eq in Hx. now injection Hx as <-.
      - rewrite lookup_insert_ne, lookup_insert_eq in Hx by lia.
        now injection Hx as <-. }
    apply list_elem_of_In in Hk. simpl in Hk. lia.
Defined.

(** The claim as stated fails: the tensor cached for module 5, which is
    not in [kv_modules], keeps its rows when the two rows of the batch
    are swapped, so its row 0 afterwards is not its row 1 beforehand. *)
Lemma rearrange_skips_other_tensors :
  ~ (forall self src self',
       rearrange_kv_cache src self = (Ok tt, self') ->
       src <> py_range (length src) ->
       forall m x x',
         kv_cache self !! m = Some x -> kv_cache self' !! m = Some x' ->
         forall (i : nat) (k : Z),
           src !! i = Some k -> x' !! i = x !! Z.to_nat k).
Proof.
  intros Hclaim.
  specialize (Hclaim cross_cached_inference [1; 0]
                (snd (rearrange_kv_cache [1; 0] cross_cached_inference))
                eq_refl ltac:(discriminate)
                5%nat [[5%Q]; [6%Q]] [[5%Q]; [6%Q]] eq_refl eq_refl
                0%nat 1 eq_refl).
  discriminate.
Qed.

End Rearrange.

(** ** The ranker *)

Section ArgMax.

Lemma argmax_from_spec (l pre : list Q) (best_i : nat) (best : Q) :
  pre !! best_i = Some best ->
  (forall j y, pre !! j = Some y -> (y <= best)%Q) ->
  (forall j y, pre !! j = Some y -> (j < best_i)%nat -> (y < best)%Q) ->
  is_first_argmax (pre ++ l) (argmax_from best_i best (length pre) l).
Proof.
  revert pre best_i best.
  induction l as [|x l IH]; intros pre best_i best Hbest Hmax Hfirst.
  - simpl. rewrite app_nil_r. exists best. auto.
  - simpl. destruct (Qle_bool x best) eqn:Hle; simpl.
    + apply Qle_bool_iff in Hle.
      replace (pre ++ x :: l) with ((pre ++ [x]) ++ l)
        by (now rewrite <- app_assoc).
      replace (S (length pre)) with (length (pre ++ [x]))
        by (rewrite length_app; simpl; lia).
      apply IH.
      * rewrite lookup_app_l; [assumption |].
        now apply lookup_lt_Some in Hbest.
      * intros j y Hj. apply lookup_app_Some in Hj as [Hj|[_ Hj]].
        -- eauto.
        -- apply list_lookup_singleton_Some in Hj as [_ <-]. assumption.
      * intros j y Hj Hlt. apply lookup_app_Some in Hj as [Hj|[Hge _]].
        -- eauto.
        -- apply lookup_lt_Some in Hbest. lia.
    + assert (best < x)%Q as Hlt.
      { apply Qnot_le_lt. intros H. apply Qle_bool_iff in H. congruence. }
      replace (pre ++ x :: l) with ((pre ++ [x]) ++ l)
        by (now rewrite <- app_assoc).
      replace (S (length pre)) with (length (pre ++ [x]))
        by (rewrite length_app; simpl; lia).
      replace (length pre) with (length (pre ++ [x]) - 1)%nat at 1
        by (rewrite length_app; simpl; lia).
      apply IH.
      * rewrite length_app. simpl.
        replace (length pre + 1 - 1)%nat with (length pre + 0)%nat by lia.
        now rewrite lookup_app_r, Nat.add_0_r, Nat.sub_diag by lia.
      * intros j y Hj. apply lookup_app_Some in Hj as [Hj|[_ Hj]].
        -- apply Qle_trans with best; [eauto | now apply Qlt_le_weak].
        -- apply list_lookup_singleton_Some in Hj as [_ <-]. apply Qle_refl.
      * intros j y Hj Hj'. rewrite length_app in Hj'. simpl in Hj'.
        apply lookup_app_Some in Hj as [Hj|[Hge _]]; [|lia].
        apply Qle_lt_trans with best; eauto.
Qed.

Lemma np_argmax_first (l : list Q) :
  l <> [] ->
  exists i, np_argmax l = Ok (Z.of_nat i) /\ is_first_argmax l i.
Proof.
  destruct l as [|x l]; [congruence | intros _].
  exists (argmax_from 0 x 1 l). split; [reflexivity |].
  apply (argmax_from_spec l [x] 0%nat x).
  - reflexivity.
  - intros j y Hj. apply list_lookup_singleton_Some in Hj as [_ <-].
    apply Qle_refl.
  - intros j y _ Hj. lia.
Qed.

End ArgMax.

Section Ranker.
Import MaximumLikelihoodRanker.
Variable pow : Q -> Q -> Q.
Variable length_penalty : option Q.

Lemma scores_spec (lps : list Q) (toks : list (list Z)) :
  (forall c, c ∈ combine lps toks ->
     ~ (spec_penalty pow length_penalty (length (snd c)) == 0)%Q) ->
  scores pow length_penalty lps (map (fun t => Z.of_nat (length t)) toks)
  = Ok (spec_scores pow length_penalty lps toks).
Proof.
  revert toks. induction lps as [|x lps IH]; intros [|t toks] Hne;
    try reflexivity.
  simpl map. simpl scores.
  assert (penalty pow length_penalty (Z.of_nat (length t))
          = spec_penalty pow length_penalty (length t)) as Hp.
  { unfold penalty, spec_penalty. now destruct length_penalty. }
  rewrite Hp. destruct (Qeq_bool _ 0) eqn:Hz.
  - apply Qeq_bool_iff in Hz. exfalso.
    apply (Hne (x, t)); [left | exact Hz].
  - rewrite IH; [reflexivity |].
    intros c Hc. apply Hne. now right.
Qed.

Lemma spec_scores_nil (lps : list Q) (toks : list (list Z)) :
  combine lps toks <> [] -> spec_scores pow length_penalty lps toks <> [].
Proof.
  unfold spec_scores. destruct (combine lps toks); [congruence | discriminate].
Qed.

(** C2: on per-audio candidate lists where every score is defined (each
    audio has a candidate and no length penalty is zero), the ranker
    returns one index per audio, and that index is the arg-max, with ties
    broken by first occurrence, of [logprob / length] when no length
    penalty is set and of [logprob / ((5 + length) / 6) ^ p] when it is
    [p]. *)
Theorem rank_selects_first_argmax
    (tokens : list (list (list Z))) (sum_logprobs : list (list Q)) :
  (forall a lps toks,
     sum_logprobs !! a = Some lps -> tokens !! a = Some toks ->
     combine lps toks <> []
     /\ forall c, c ∈ combine lps toks ->
          ~ (spec_penalty pow length_penalty (length (snd c)) == 0)%Q) ->
  exists selected,
    rank pow length_penalty tokens sum_logprobs = Ok selected
    /\ length selected = Nat.min (length sum_logprobs) (length tokens)
    /\ forall a lps toks,
         sum_logprobs !! a = Some lps -> tokens !! a = Some toks ->
         exists i, selected !! a = Some (Z.of_nat i)
           /\ is_first_argmax (spec_scores pow length_penalty lps toks) i.
Proof.
  unfold rank. revert tokens.
  induction sum_logprobs as [|lps rest IH]; intros [|toks T] Hdef.
  - exists []. repeat split; auto. intros a ? ? Ha. discriminate.
  - exists []. repeat split; auto. intros a ? ? Ha. discriminate.
  - exists []. repeat split; auto. intros a ? ? _ Ha. discriminate.
  - destruct (Hdef 0%nat lps toks eq_refl eq_refl) as [Hne Hpen].
    destruct (np_argmax_first (spec_scores pow length_penalty lps toks))
      as (i & Harg & Hfirst).
    { now apply spec_scores_nil. }
    destruct (IH T) as (sel & Hsel & Hlen & Hrows).
    { intros a l t Hl Ht. apply (Hdef (S a)); assumption. }
    exists (Z.of_nat i :: sel). simpl map. simpl combine. simpl mapM.
    rewrite scores_spec by assumption. simpl rbind. rewrite Harg. simpl rbind.
    rewrite Hsel. simpl. split; [reflexivity |]. split; [now rewrite Hlen |].
    intros [|a] l t Hl Ht.
    + injection Hl as <-. injection Ht as <-. exists i. auto.
    + apply (Hrows a); assumption.
Qed.

End Ranker.

Lemma rank_selects_first_argmax_witness :
  let tokens := [[[1; 2]; [3]]] in
  let sum_logprobs := [[(-4)%Q; (-1)%Q]] in
  exists selected,
    MaximumLikelihoodRanker.rank pow_integral None tokens sum_logprobs
      = Ok selected
    /\ length selected = Nat.min (length sum_logprobs) (length tokens)
    /\ forall a lps toks,
         sum_logprobs !! a = Some lps -> tokens !! a = Some toks ->
         exists i, selected !! a = Some (Z.of_nat i)
           /\ is_first_argmax (spec_scores pow_integral None lps toks) i.
Proof.
  intros tokens sum_logprobs.
  apply (rank_selects_first_argmax pow_integral None tokens sum_logprobs).
  intros [|a] lps toks Hl Ht; [|discriminate].
  injection Hl as <-. injection Ht as <-. split; [discriminate |].
  intros c Hc. apply list_elem_of_In in Hc.
  destruct Hc as [<-|[<-|[]]]; intros H; vm_compute in H; discriminate.
Defined.

(** ** Lists of results *)

Section MapM.
Context {A B : Type} (f : A -> result B).

Lemma mapM_lookup (l : list A) (ys : list B) :
  mapM f l = Ok ys ->
  length ys = length l
  /\ forall i x, l !! i = Some x -> exists y, ys !! i = Some y /\ f x = Ok y.
Proof.
  revert ys. induction l as [|a l IH]; intros ys H; simpl in H.
  - injection H as <-. split; [reflexivity |]. intros i x Hi. discriminate.
  - destruct (f a) as [b|e] eqn:Hb; [|discriminate]. simpl in H.
    destruct (mapM f l) as [bs|e] eqn:Hbs; [|discriminate]. simpl in H.
    injection H as <-. destruct (IH bs eq_refl) as [Hlen Hrows].
    split; [simpl; now rewrite Hlen |].
    intros [|i] x Hi; simpl in Hi.
    + injection Hi as <-. exists b. auto.
    + apply Hrows, Hi.
Qed.

Lemma mapM_ok (l : list A) :
  (forall x, x ∈ l -> exists y, f x = Ok y) ->
  exists ys, mapM f l = Ok ys.
Proof.
  induction l as [|a l IH]; intros H.
  - exists []. reflexivity.
  - destruct (H a) as [b Hb]; [left |].
    destruct IH as [bs Hbs]; [intros x Hx; apply H; now right |].
    exists (b :: bs). simpl. rewrite Hb. simpl. rewrite Hbs. reflexivity.
Qed.

End MapM.

(** ** The greedy decoder *)

Section Greedy.
Import GreedyDecoder.

Lemma is_first_argmax_lt (l : list Q) (i : nat) :
  is_first_argmax l i -> (i < length l)%nat.
Proof. intros (x & Hx & _). now apply lookup_lt_Some in Hx. Qed.

Lemma last_column_lookup (tokens : list (list Z)) :
  (forall row, row ∈ tokens -> row <> []) ->
  exists last_tokens,
    last_column tokens = Ok last_tokens
    /\ length last_tokens = length tokens
    /\ forall k row, tokens !! k = Some row ->
         exists x, last_tokens !! k = Some x /\ last row = Some x.
Proof.
  intros Hne. unfold last_column.
  destruct (mapM_ok (fun row => match last row with
                                | Some x => Ok x
                                | None => Raise IndexError
                                end) tokens) as [ls Hls].
  { intros row Hrow. destruct (last row) as [x|] eqn:Hl; [eauto |].
    apply last_None in Hl. now apply Hne in Hrow. }
  exists ls. split; [assumption |].
  apply mapM_lookup in Hls as [Hlen Hrows]. split; [assumption |].
  intros k row Hk. destruct (Hrows k row Hk) as (x & Hx & Hf).
  exists x. split; [assumption |].
  destruct (last row); [now injection Hf as -> | discriminate].
Qed.

Lemma select_rows_ok (logprobs : list (list Q)) (next_tokens : list Z) :
  Forall2 (fun tok prow => 0 <= tok < Z.of_nat (length prow))
          next_tokens logprobs ->
  exists current, select_rows logprobs next_tokens = Ok current
    /\ length current = length logprobs.
Proof.
  intros Hin. unfold select_rows.
  pose proof (Forall2_length _ _ _ Hin) as Hlen.
  rewrite (proj2 (Nat.eqb_eq _ _)) by lia. simpl.
  destruct (mapM_ok (fun rt : list Q * Z => py_index (fst rt) (snd rt))
                    (combine logprobs next_tokens)) as [cs Hcs].
  { intros [prow tok] Hx. apply list_elem_of_lookup in Hx as [i Hi].
    apply lookup_zip_with_Some in Hi as (p' & t' & [= <- <-] & Hp & Ht).
    destruct (Forall2_lookup_l _ _ _ _ _ Hin Ht) as (p'' & Hp'' & Hr).
    assert (p'' = prow) as -> by congruence.
    destruct (py_index_in_range prow tok Hr) as (x & Hx & _). eauto. }
  exists cs. split; [assumption |].
  apply mapM_lookup in Hcs as [-> _].
  rewrite length_combine. lia.
Qed.

Lemma next_tokens_ok (self : t) (logits logprobs : list (list Q))
    (sampled : list Z) :
  (if Qeq_bool (temperature self) 0
   then Forall2 (fun lrow prow => lrow <> [] /\ length prow = length lrow)
                logits logprobs
   else Forall2 (fun tok prow => 0 <= tok < Z.of_nat (length prow))
                sampled logprobs) ->
  exists next_tokens,
    (if Qeq_bool (temperature self) 0 then mapM np_argmax logits
     else Ok sampled) = Ok next_tokens
    /\ Forall2 (fun tok prow => 0 <= tok < Z.of_nat (length prow))
               next_tokens logprobs.
Proof.
  destruct (Qeq_bool (temperature self) 0); [|eauto].
  intros Hshape. induction Hshape as [|lrow prow logits logprobs [Hne Hlen] _ IH].
  - exists []. split; [reflexivity | constructor].
  - destruct IH as (next & Hnext & Hin).
    destruct (np_argmax_first lrow Hne) as (i & Hi & Harg).
    exists (Z.of_nat i :: next). simpl. rewrite Hi. simpl. rewrite Hnext.
    split; [reflexivity |]. constructor; [|assumption].
    apply is_first_argmax_lt in Harg. lia.
Qed.

(** C6: on a well-shaped batch (one logits row, one log-probability row
    and one cumulative log-probability per token row; no empty token row;
    the selected token inside its log-probability row) [update] returns;
    every row whose last token is already end-of-text gets end-of-text
    appended and keeps its cumulative log-probability; and the completion
    flag is true exactly when every row of the returned batch ends with
    end-of-text. *)
Theorem greedy_update_freezes_finished_rows (self : t)
    (tokens : list (list Z)) (logits logprobs : list (list Q))
    (sampled : list Z) (sum_logprobs : list Q) :
  length logprobs = length tokens ->
  length sum_logprobs = length tokens ->
  (forall row, row ∈ tokens -> row <> []) ->
  (if Qeq_bool (temperature self) 0
   then Forall2 (fun lrow prow => lrow <> [] /\ length prow = length lrow)
                logits logprobs
   else Forall2 (fun tok prow => 0 <= tok < Z.of_nat (length prow))
                sampled logprobs) ->
  exists tokens' completed sum_logprobs',
    update self tokens logits logprobs sampled sum_logprobs
      = Ok (tokens', completed, sum_logprobs')
    /\ (forall k row,
          tokens !! k = Some row -> last row = Some (eot self) ->
          tokens' !! k = Some (row ++ [eot self])
          /\ exists s s', sum_logprobs !! k = Some s
               /\ sum_logprobs' !! k = Some s' /\ (s' == s)%Q)
    /\ (completed = true <->
        forall row', row' ∈ tokens' -> last row' = Some (eot self)).
Proof.
  intros Hlp Hsum Hne Hshape. unfold update.
  destruct (next_tokens_ok self logits logprobs sampled Hshape)
    as (next & -> & Hin). cbn [rbind].
  destruct (select_rows_ok logprobs next Hin) as (current & -> & Hcur).
  cbn [rbind].
  destruct (last_column_lookup tokens Hne) as (lasts & -> & Hlast & Hrows).
  cbn [rbind].
  rewrite (proj2 (Nat.eqb_eq (length current) (length lasts))) by lia.
  rewrite (proj2 (Nat.eqb_eq (length sum_logprobs) (length lasts))) by lia.
  simpl negb. cbv iota. do 3 eexists. split; [reflexivity |].
  pose proof (Forall2_length _ _ _ Hin) as Hnext.
  split.
  - intros k row Hk Heot.
    destruct (Hrows k row Hk) as (l & Hl & Hl').
    assert (l = eot self) as -> by congruence.
    assert (k < length tokens)%nat as Hlt by (now apply lookup_lt_Some in Hk).
    destruct (lookup_lt_is_Some_2 next k) as [n Hn]; [lia |].
    destruct (lookup_lt_is_Some_2 current k) as [c Hc]; [lia |].
    destruct (lookup_lt_is_Some_2 sum_logprobs k) as [s0 Hs]; [lia |].
    split.
    + rewrite lookup_zip_with, Hk. simpl.
      rewrite lookup_zip_with, Hn. simpl. rewrite Hl. simpl.
      now rewrite Z.eqb_refl.
    + exists s0. eexists. split; [assumption |]. split.
      * rewrite lookup_zip_with, Hs. simpl.
        change (combine current lasts) with (zip_with pair current lasts).
        rewrite lookup_zip_with, Hc. simpl. rewrite Hl.
        simpl. reflexivity.
      * rewrite Z.eqb_refl. simpl. ring.
  - rewrite forallb_forall. split.
    + intros Hall row' Hrow'. apply list_elem_of_In in Hrow'.
      specialize (Hall row' Hrow'). destruct (last row'); [|discriminate].
      apply Z.eqb_eq in Hall. now subst.
    + intros Hall row' Hrow'. apply list_elem_of_In in Hrow'.
      rewrite (Hall row' Hrow'). apply Z.eqb_refl.
Qed.

Lemma greedy_update_freezes_finished_rows_witness :
  let self := {| temperature := 0; eot := 3 |} in
  let tokens := [[0; 3]; [0; 1]] in
  let logits := [[(1#2)%Q; 2%Q; 0%Q; 1%Q]; [0%Q; 0%Q; 0%Q; 5%Q]] in
  let logprobs := [[(-2)%Q; (-1#2)%Q; (-3)%Q; (-1)%Q];
                   [(-5)%Q; (-5)%Q; (-5)%Q; (-1#10)%Q]] in
  let sum_logprobs := [(-7)%Q; (-4)%Q] in
  exists tokens' completed sum_logprobs',
    update self tokens logits logprobs [] sum_logprobs
      = Ok (tokens', completed, sum_logprobs')
    /\ (forall k row,
          tokens !! k = Some row -> last row = Some (eot self) ->
          tokens' !! k = Some (row ++ [eot self])
          /\ exists s s', sum_logprobs !! k = Some s
               /\ sum_logprobs' !! k = Some s' /\ (s' == s)%Q)
    /\ (completed = true <->
        forall row', row' ∈ tokens' -> last row' = Some (eot self)).
Proof.
  intros self tokens logits logprobs sum_logprobs.
  apply (greedy_update_freezes_finished_rows self tokens logits logprobs []
           sum_logprobs).
  - reflexivity.
  - reflexivity.
  - intros row Hrow. apply list_elem_of_In in Hrow.
    destruct Hrow as [<-|[<-|[]]]; discriminate.
  - simpl. repeat constructor; discriminate.
Defined.

End Greedy.

(** ** Beam search: the row-count check *)

Section RowsCheck.
Import BeamSearchDecoder.

(** Every exception a computation can raise satisfies [P]. *)
Definition raises_only {A : Type} (P : exn -> Prop) (r : result A) : Prop :=
  forall e, r = Raise e -> P e.

Lemma raises_only_bind {A B : Type} (P : exn -> Prop) (m : result A)
    (k : A -> result B) :
  raises_only P m -> (forall a, m = Ok a -> raises_only P (k a)) ->
  raises_only P (rbind m k).
Proof.
  intros Hm Hk e. destruct m as [a|e']; simpl.
  - now apply Hk.
  - intros [= <-]. now apply Hm.
Qed.

Lemma raises_only_ok {A : Type} (P : exn -> Prop) (a : A) :
  raises_only P (Ok a).
Proof. intros e. discriminate. Qed.

Lemma raises_only_raise {A : Type} (P : exn -> Prop) (e : exn) :
  P e -> raises_only P (@Raise A e).
Proof. intros He e' [= <-]. exact He. Qed.

Lemma raises_only_foldM {A B : Type} (P : exn -> Prop)
    (f : B -> A -> result B) (l : list A) (b : B) :
  (forall b a, raises_only P (f b a)) -> raises_only P (foldM f l b).
Proof.
  intros Hf. revert b. induction l as [|a l IH]; intros b; simpl.
  - apply raises_only_ok.
  - apply raises_only_bind; [apply Hf | intros b' _; apply IH].
Qed.

Lemma raises_only_mapM {A B : Type} (P : exn -> Prop)
    (f : A -> result B) (l : list A) :
  (forall a, raises_only P (f a)) -> raises_only P (mapM f l).
Proof.
  intros Hf. induction l as [|a l IH]; simpl.
  - apply raises_only_ok.
  - apply raises_only_bind; [apply Hf | intros b _].
    apply raises_only_bind; [apply IH | intros; apply raises_only_ok].
Qed.

Definition other_error (e : exn) : Prop := e <> rows_error.

Ltac raises_cases :=
  cbv zeta; repeat case_match;
  first [apply raises_only_ok | apply raises_only_raise; discriminate].

Lemma py_index_other {A : Type} (xs : list A) (i : Z) :
  raises_only other_error (py_index xs i).
Proof. unfold py_index. raises_cases. Qed.

Lemma py_setitem_other (xs : list Q) (i : Z) (v : Q) :
  raises_only other_error (py_setitem xs i v).
Proof. unfold py_setitem. raises_cases. Qed.

Lemma topk_other (k : Z) (row : list Q) :
  raises_only other_error (topk k row).
Proof. unfold topk. raises_cases. Qed.

Variable row_hook : list Z -> result unit.
Hypothesis row_hook_other : forall p, raises_only other_error (row_hook p).

Lemma expand_row_other (self : t) tokens logprobs sum_logprobs acc idx :
  raises_only other_error
    (expand_row row_hook self tokens logprobs sum_logprobs acc idx).
Proof using row_hook_other.
  unfold expand_row.
  apply raises_only_bind; [apply py_index_other | intros prefix _].
  apply raises_only_bind; [apply row_hook_other | intros _ _].
  apply raises_only_bind; [apply py_index_other | intros row _].
  apply raises_only_bind; [apply topk_other | intros top _].
  apply raises_only_foldM. intros b a.
  apply raises_only_bind; [apply py_index_other | intros; apply raises_only_ok].
Qed.

Lemma select_other (self : t) sources candidates saved st :
  raises_only other_error (select self sources candidates saved st).
Proof.
  revert saved st. induction candidates as [|[sequence score] rest IH];
    intros saved st; simpl.
  - apply raises_only_ok.
  - destruct (last sequence) as [x|]; [|apply raises_only_raise; discriminate].
    destruct (x =? eot self); [apply IH |].
    apply raises_only_bind; [apply py_setitem_other | intros sums _].
    apply raises_only_bind.
    + destruct (dict_get sequence sources);
        [apply raises_only_ok | apply raises_only_raise; discriminate].
    + intros source _. case_match; [apply raises_only_ok | apply IH].
Qed.

Lemma step_group_other (self : t) tokens logprobs st i :
  raises_only other_error (step_group row_hook self tokens logprobs st i).
Proof using row_hook_other.
  unfold step_group.
  apply raises_only_bind.
  - apply raises_only_foldM. intros b a. apply expand_row_other.
  - intros ss _. apply raises_only_bind; [apply select_other |].
    intros; apply raises_only_ok.
Qed.

Lemma rearrange_modules_other (mods : list nat) (src : list Z)
    (cache : gmap nat (list (list Q))) :
  raises_only other_error
    (fst (PyTorchInference.rearrange_modules mods src cache)).
Proof.
  revert cache. induction mods as [|m mods IH]; intros cache; simpl.
  - apply raises_only_ok.
  - unfold bind, get, put, lift, raise.
    destruct (cache !! m) as [x|]; [|apply raises_only_raise; discriminate].
    destruct (PyTorchInference.index_select x src) as [x'|e] eqn:Hsel.
    + apply IH.
    + simpl. intros e' [= <-].
      apply (raises_only_mapM other_error (py_index x) src
               (fun a => py_index_other x a) e Hsel).
Qed.

Lemma rearrange_kv_cache_other (src : list Z) (inf : PyTorchInference.t) :
  raises_only other_error (fst (PyTorchInference.rearrange_kv_cache src inf)).
Proof.
  unfold PyTorchInference.rearrange_kv_cache.
  case_match; [|apply raises_only_ok].
  unfold zoom.
  pose proof (rearrange_modules_other (PyTorchInference.kv_modules inf) src
                (PyTorchInference.kv_cache inf)) as Hmods.
  destruct (PyTorchInference.rearrange_modules _ _ _) as [r c]. exact Hmods.
Qed.

(** The first statement of [update] decides on the row count alone. *)
Lemma update_with_rows_check (tokens : list (list Z))
    (logprobs : list (list Q)) (sum_logprobs : list Q) (w : world) :
  let b := beam_size (fst w) in
  let rows := Z.of_nat (length tokens) in
  (~ (b | rows) ->
   update_with row_hook tokens logprobs sum_logprobs w
   = (Raise (if b =? 0 then ZeroDivisionError else rows_error), w))
  /\ ((b | rows) ->
      fst (update_with row_hook tokens logprobs sum_logprobs w)
      <> Raise rows_error).
Proof using row_hook_other.
  intros b rows. unfold update_with, bind, get. simpl. fold b rows. split.
  - intros Hnd. destruct (b =? 0) eqn:Hb; [reflexivity |].
    apply Z.eqb_neq in Hb.
    destruct (rows mod b =? 0) eqn:Hm; [|reflexivity].
    apply Z.eqb_eq in Hm. exfalso. apply Hnd.
    now apply Z.mod_divide.
  - intros Hd. destruct (b =? 0) eqn:Hb; [simpl; discriminate |].
    apply Z.eqb_neq in Hb.
    rewrite (proj2 (Z.eqb_eq _ _)) by (now apply Z.mod_divide). simpl.
    unfold put, lift.
    match goal with
    | |- context [foldM ?f ?l ?s] =>
        pose proof (raises_only_foldM other_error f l s
                      (fun st i => step_group_other (fst w) tokens logprobs st i))
          as Hloop;
        destruct (foldM f l s) as [st|e]
    end.
    + unfold zoom. simpl.
      match goal with
      | |- context [PyTorchInference.rearrange_kv_cache ?src ?i] =>
          pose proof (rearrange_kv_cache_other src i) as Hre;
          destruct (PyTorchInference.rearrange_kv_cache src i) as [[[]|e] i']
      end.
      * case_match; simpl; discriminate.
      * simpl. intros [= He]. now apply (Hre e).
    + simpl. intros [= He]. now apply (Hloop e).
Qed.

End RowsCheck.

Lemma lm_row_hook_other (self : BeamSearchDecoderWithLM.t) (p : list Z) :
  raises_only other_error (BeamSearchDecoderWithLM.row_hook self p).
Proof.
  unfold BeamSearchDecoderWithLM.row_hook.
  destruct (list_index 50258 p); [|apply raises_only_raise; discriminate].
  cbv zeta. destruct (4 <? _); [|apply raises_only_ok].
  destruct (BeamSearchDecoderWithLM.lm self) as [m|];
    [|apply raises_only_raise; discriminate].
  apply raises_only_bind; [|intros; apply raises_only_ok].
  unfold BeamSearchDecoderWithLM.lm_prefix_score.
  apply raises_only_bind; [|intros; apply raises_only_ok].
  apply raises_only_foldM. intros ps token.
  apply raises_only_bind.
  - unfold BeamSearchDecoderWithLM.chr_shifted.
    destruct (_ && _)%bool;
      [apply raises_only_ok | apply raises_only_raise; discriminate].
  - intros c _. destruct (BeamSearchDecoderWithLM.BaseScore m (snd ps) c).
    apply raises_only_ok.
Qed.

(** C7: both beam-search decoders test the row count first.  When the
    number of rows is not an exact multiple of [beam_size] the call
    raises and leaves the decoder and the cache as they were (the error
    is the row-count [ValueError], or [ZeroDivisionError] for a zero
    [beam_size]); when it is an exact multiple the row-count error is
    not raised. *)
Theorem beam_update_checks_row_count :
  (forall (tokens : list (list Z)) (logprobs : list (list Q))
          (sum_logprobs : list Q) (w : BeamSearchDecoder.world),
     let b := BeamSearchDecoder.beam_size (fst w) in
     let rows := Z.of_nat (length tokens) in
     (~ (b | rows) ->
      BeamSearchDecoder.update tokens logprobs sum_logprobs w
      = (Raise (if b =? 0 then ZeroDivisionError
                else BeamSearchDecoder.rows_error), w))
     /\ ((b | rows) ->
         fst (BeamSearchDecoder.update tokens logprobs sum_logprobs w)
         <> Raise BeamSearchDecoder.rows_error))
  /\ (forall (tokens : list (list Z)) (logprobs : list (list Q))
             (sum_logprobs : list Q) (w : BeamSearchDecoderWithLM.world),
        let b := BeamSearchDecoder.beam_size
                   (BeamSearchDecoderWithLM.base (fst w)) in
        let rows := Z.of_nat (length tokens) in
        (~ (b | rows) ->
         BeamSearchDecoderWithLM.update tokens logprobs sum_logprobs w
         = (Raise (if b =? 0 then ZeroDivisionError
                   else BeamSearchDecoder.rows_error), w))
        /\ ((b | rows) ->
            fst (BeamSearchDecoderWithLM.update tokens logprobs sum_logprobs w)
            <> Raise BeamSearchDecoder.rows_error)).
Proof.
  split.
  - intros tokens logprobs sum_logprobs w.
    apply update_with_rows_check. intros p. apply raises_only_ok.
  - intros tokens logprobs sum_logprobs [self inf] b rows.
    unfold BeamSearchDecoderWithLM.update, zoom. simpl fst. simpl snd.
    pose proof (update_with_rows_check
                  (BeamSearchDecoderWithLM.row_hook self)
                  (lm_row_hook_other self) tokens logprobs sum_logprobs
                  (BeamSearchDecoderWithLM.base self, inf)) as [Hbad Hgood].
    simpl fst in Hbad, Hgood. fold b rows in Hbad, Hgood. split.
    + intros Hnd. rewrite (Hbad Hnd). simpl. destruct self. reflexivity.
    + intros Hd. specialize (Hgood Hd).
      destruct (BeamSearchDecoder.update_with _ _ _ _ _) as [r bw].
      exact Hgood.
Qed.

Example beam_update_three_rows_beam_two :
  forall d inf,
    BeamSearchDecoder.init 2 3 None (Ok []) = Ok d ->
    BeamSearchDecoder.update [[0]; [0]; [0]] [] [] (d, inf)
    = (Raise BeamSearchDecoder.rows_error, (d, inf)).
Proof. intros d inf [= <-]. reflexivity. Qed.

(** ** Beam search: the size of the finished-sequence sets *)

Section FinishedSets.
Import BeamSearchDecoder.

Lemma dict_set_length {V : Type} (k : list Z) (v : V) (d : dict V) :
  (length d <= length (dict_set k v d) <= S (length d))%nat.
Proof.
  induction d as [|[k' v'] d IH]; simpl; [lia |].
  destruct (bool_decide (k' = k)); simpl; lia.
Qed.

Lemma merge_finished_bound (self : t) (prev : dict Q)
    (new : list (list Z * Q)) :
  Z.of_nat (length prev) <= max_candidates self ->
  Z.of_nat (length (merge_finished self prev new)) <= max_candidates self.
Proof.
  revert prev. induction new as [|[seq score] new IH]; intros prev Hle; simpl.
  - assumption.
  - destruct (max_candidates self <=? Z.of_nat (length prev)) eqn:Hfull.
    + assumption.
    + apply Z.leb_gt in Hfull. apply IH.
      pose proof (dict_set_length seq score prev). lia.
Qed.

Definition invariant (d : t) : Prop :=
  0 < max_candidates d /\ finished_within (max_candidates d) d.

Lemma init_invariant beam_size eot patience engchar d :
  init beam_size eot patience engchar = Ok d ->
  max_candidates d = py_round (inject_Z beam_size * or_float patience 1)
  /\ invariant d.
Proof.
  unfold init. destruct engchar as [data|e]; simpl; [|discriminate].
  destruct (0 <? py_round _) eqn:Hpos; simpl; [|discriminate].
  intros [= <-]. simpl. split; [reflexivity |]. split.
  - simpl. now apply Z.ltb_lt.
  - intros fs. simpl. discriminate.
Qed.

Lemma invariant_set (d : t) (fs : list (dict Q)) :
  0 < max_candidates d ->
  Forall (fun s : dict Q => Z.of_nat (length s) <= max_candidates d) fs ->
  invariant (set_finished_sequences d (Some fs)).
Proof.
  intros Hpos Hfs. split; [exact Hpos |].
  intros fs'. simpl. intros [= <-]. exact Hfs.
Qed.

Lemma update_with_invariant (row_hook : list Z -> result unit)
    tokens logprobs sum_logprobs (w w' : world) r :
  invariant (fst w) ->
  update_with row_hook tokens logprobs sum_logprobs w = (r, w') ->
  max_candidates (fst w') = max_candidates (fst w)
  /\ beam_size (fst w') = beam_size (fst w)
  /\ invariant (fst w').
Proof.
  intros [Hpos Hinv] Hrun. destruct w as [self inf].
  unfold update_with, bind, get in Hrun. simpl in Hrun. simpl in Hpos, Hinv.
  destruct (beam_size self =? 0).
  { injection Hrun as <- <-. repeat split; auto. }
  destruct (negb _).
  { injection Hrun as <- <-. repeat split; auto. }
  unfold put, lift in Hrun.
  set (previous := match finished_sequences self with
                   | Some fs => fs
                   | None => repeat [] _
                   end) in Hrun.
  assert (Forall (fun s : dict Q => Z.of_nat (length s) <= max_candidates self)
                 previous) as Hprev.
  { subst previous. destruct (finished_sequences self) as [fs|] eqn:Hfs.
    - now apply Hinv.
    - apply Forall_forall. intros s Hs. apply list_elem_of_In in Hs.
      apply repeat_spec in Hs. subst s.
      simpl. lia. }
  destruct (foldM _ _ _) as [st|e].
  2:{ injection Hrun as <- <-. simpl. repeat split; auto.
      now apply invariant_set. }
  unfold zoom in Hrun. simpl in Hrun.
  destruct (PyTorchInference.rearrange_kv_cache _ _) as [[[]|e] inf'].
  2:{ injection Hrun as <- <-. simpl. repeat split; auto.
      now apply invariant_set. }
  destruct (negb _).
  { injection Hrun as <- <-. simpl. repeat split; auto.
    now apply invariant_set. }
  injection Hrun as <- <-. simpl. repeat split; auto.
  apply invariant_set; [assumption |].
  apply Forall_forall. intros s Hs.
  apply list_elem_of_lookup in Hs as [i Hi].
  apply lookup_zip_with_Some in Hi as (p & n & -> & Hp & _).
  apply merge_finished_bound.
  eapply Forall_lookup_1 in Hprev; eauto.
Qed.

Lemma pad_sequences_bound (self : t) tokens_i sum_i js
    (sequences sequences' : dict Q) r :
  Z.of_nat (length sequences) < beam_size self ->
  pad_sequences self tokens_i sum_i js sequences = (r, sequences') ->
  Z.of_nat (length sequences') <= beam_size self.
Proof.
  revert sequences. induction js as [|j js IH]; intros sequences Hlt Hrun;
    simpl in Hrun.
  - injection Hrun as <- <-. lia.
  - unfold bind, lift, get, put, ret in Hrun.
    destruct tokens_i as [rows|e]; [|injection Hrun as <- <-; lia].
    destruct (py_index rows j) as [row|e]; [|injection Hrun as <- <-; lia].
    destruct (py_index sum_i j) as [score|e]; [|injection Hrun as <- <-; lia].
    pose proof (dict_set_length (row ++ [eot self]) score sequences) as Hlen.
    destruct (beam_size self <=? _) eqn:Hfull.
    + injection Hrun as <- <-. lia.
    + apply Z.leb_gt in Hfull. eapply IH; eauto.
Qed.

Lemma finalize_loop_bound (self : t) preceding_tokens sum_logprobs
    (bound : Z) (fs fs' : list (dict Q)) (i : Z) r :
  Forall (fun s : dict Q => Z.of_nat (length s) <= bound) fs ->
  finalize_loop self preceding_tokens sum_logprobs i fs = (r, fs') ->
  Forall (fun s : dict Q => Z.of_nat (length s) <= Z.max bound (beam_size self))
         fs'.
Proof.
  intros Hfs. revert i r fs'.
  induction Hfs as [|sequences rest Hs Hrest IH]; intros i r fs' Hrun;
    simpl in Hrun.
  - injection Hrun as <- <-. constructor.
  - assert (Forall (fun s : dict Q =>
                      Z.of_nat (length s) <= Z.max bound (beam_size self)) rest)
      as Hrest'.
    { eapply Forall_impl; [exact Hrest |]. simpl. intros. lia. }
    destruct (Z.of_nat (length sequences) <? beam_size self) eqn:Hshort.
    + apply Z.ltb_lt in Hshort.
      destruct (py_index sum_logprobs i) as [sum_i|e].
      * destruct (pad_sequences _ _ _ _ _) as [r1 sequences'] eqn:Hpad.
        apply pad_sequences_bound in Hpad; [|assumption].
        destruct r1 as [[]|e].
        -- destruct (finalize_loop _ _ _ _ rest) as [r' rest'] eqn:Hloop.
           injection Hrun as <- <-. constructor; [lia |]. eapply IH; eauto.
        -- injection Hrun as <- <-. constructor; [lia | assumption].
      * injection Hrun as <- <-. constructor; [lia | assumption].
    + destruct (finalize_loop _ _ _ _ rest) as [r' rest'] eqn:Hloop.
      injection Hrun as <- <-. constructor; [lia |]. eapply IH; eauto.
Qed.

Lemma finalize_bound (d d' : t) preceding_tokens sum_logprobs r :
  invariant d ->
  finalize preceding_tokens sum_logprobs d = (r, d') ->
  max_candidates d' = max_candidates d
  /\ beam_size d' = beam_size d
  /\ finished_within (Z.max (max_candidates d) (beam_size d)) d'.
Proof.
  intros [Hpos Hinv] Hrun. unfold finalize in Hrun.
  destruct (finished_sequences d) as [fs|] eqn:Hfs.
  - destruct (finalize_loop _ _ _ _ _) as [r1 fs'] eqn:Hloop.
    eapply finalize_loop_bound in Hloop; [|now apply Hinv].
    assert (d' = set_finished_sequences d (Some fs')) as ->.
    { destruct r1; now injection Hrun as <- <-. }
    repeat split; auto. intros fs''. simpl. now intros [= <-].
  - injection Hrun as <- <-. repeat split; auto.
    intros fs. rewrite Hfs. discriminate.
Qed.

Lemma beam_reachable_invariant (w : world) :
  beam_reachable w -> invariant (fst w).
Proof.
  induction 1 as [bs e p f d inf Hinit | w tokens lp sums r w' _ IH Hrun
                  | w _ IH | w inf _ IH]; simpl.
  - now apply init_invariant in Hinit.
  - now apply update_with_invariant in Hrun.
  - destruct IH as [Hpos _]. split; [exact Hpos |].
    intros fs. simpl. discriminate.
  - exact IH.
Qed.

(** C1 (amended): in every state a constructed decoder reaches,
    [max_candidates] is positive and, after every [update], each audio's
    finished-sequence set has at most [max_candidates] entries; after
    [finalize] each set has at most [max(max_candidates, beam_size)]
    entries, hence at most [max_candidates] when
    [beam_size <= max_candidates]. *)
Theorem beam_finished_sets_bounded (w : world) :
  beam_reachable w ->
  0 < max_candidates (fst w)
  /\ finished_within (max_candidates (fst w)) (fst w)
  /\ forall preceding_tokens sum_logprobs r d',
       finalize preceding_tokens sum_logprobs (fst w) = (r, d') ->
       finished_within (Z.max (max_candidates (fst w)) (beam_size (fst w))) d'
       /\ (beam_size (fst w) <= max_candidates (fst w) ->
           finished_within (max_candidates d') d').
Proof.
  intros Hreach. apply beam_reachable_invariant in Hreach as Hinv.
  destruct Hinv as [Hpos Hinv]. split; [exact Hpos |]. split; [exact Hinv |].
  intros preceding_tokens sum_logprobs r d' Hrun.
  eapply finalize_bound in Hrun as (Hmax & _ & Hfin); [|now split].
  split; [exact Hfin |].
  intros Hle. rewrite Hmax. now rewrite Z.max_l in Hfin by lia.
Qed.

Lemma half_patience_world_reachable : beam_reachable half_patience_world.
Proof.
  eapply beam_reach_update
    with (w := (half_patience_decoder, toy_inference)).
  - apply beam_reach_init with (beam_size := 2) (eot := 3)
      (patience := Some (1 # 2)%Q) (engchar := Ok []).
    reflexivity.
  - apply surjective_pairing.
Defined.

Lemma beam_finished_sets_bounded_witness :
  0 < max_candidates (fst half_patience_world)
  /\ finished_within (max_candidates (fst half_patience_world))
                     (fst half_patience_world)
  /\ forall preceding_tokens sum_logprobs r d',
       finalize preceding_tokens sum_logprobs (fst half_patience_world)
       = (r, d') ->
       finished_within
         (Z.max (max_candidates (fst half_patience_world))
                (beam_size (fst half_patience_world))) d'
       /\ (beam_size (fst half_patience_world)
           <= max_candidates (fst half_patience_world) ->
           finished_within (max_candidates d') d').
Proof.
  apply (beam_finished_sets_bounded half_patience_world).
  exact half_patience_world_reachable.
Defined.

(** The claim as stated fails after finalization: with two beams and
    patience one half, [max_candidates] is 1, and padding the empty
    finished set of the only audio with its two unfinished rows leaves
    two entries. *)
Lemma finalize_exceeds_max_candidates :
  ~ (forall w preceding_tokens sum_logprobs r d',
       beam_reachable w ->
       finalize preceding_tokens sum_logprobs (fst w) = (r, d') ->
       finished_within (max_candidates d') d').
Proof.
  intros Hclaim.
  destruct (finalize [[[0; 0]; [0; 1]]] [[(-1)%Q; (-2)%Q]]
              (fst half_patience_world)) as [r d'] eqn:Hrun.
  specialize (Hclaim half_patience_world _ _ r d'
                half_patience_world_reachable Hrun).
  vm_compute in Hrun. injection Hrun as <- <-.
  specialize (Hclaim _ eq_refl). apply Forall_inv in Hclaim.
  vm_compute in Hclaim. now apply Hclaim.
Qed.

(** [max_candidates] is [round(beam_size * patience)], and the
    constructor refuses a value that is not positive. *)
Lemma init_max_candidates beam_size eot patience engchar :
  match init beam_size eot patience engchar with
  | Ok d =>
      max_candidates d = py_round (inject_Z beam_size * or_float patience 1)
      /\ 0 < max_candidates d
  | Raise e =>
      (exists e', engchar = Raise e')
      \/ py_round (inject_Z beam_size * or_float patience 1) <= 0
  end.
Proof.
  destruct (init beam_size eot patience engchar) as [d|e] eqn:Hinit.
  - apply init_invariant in Hinit as [Hmax [Hpos _]]. auto.
  - unfold init in Hinit. destruct engchar as [data|e']; [|eauto].
    simpl in Hinit. right.
    destruct (0 <? py_round _) eqn:Hpos; [discriminate |].
    now apply Z.ltb_ge in Hpos.
Qed.

End FinishedSets.

(** ** Token suppression *)

Section Suppress.
Import DecodingTask.

Lemma insert_unique_In (x z : Z) (l : list Z) :
  In z (insert_unique x l) <-> z = x \/ In z l.
Proof.
  induction l as [|y l IH]; simpl; [intuition congruence |].
  destruct (x <? y); simpl; [intuition congruence |].
  destruct (x =? y) eqn:E; simpl.
  - apply Z.eqb_eq in E. subst. intuition congruence.
  - rewrite IH. intuition congruence.
Qed.

Lemma insert_unique_sorted (x : Z) (l : list Z) :
  StronglySorted Z.lt l -> StronglySorted Z.lt (insert_unique x l).
Proof.
  induction 1 as [|y l Hs IH Hall]; simpl.
  - repeat constructor.
  - destruct (x <? y) eqn:Hlt.
    + apply Z.ltb_lt in Hlt. constructor; [now constructor |].
      constructor; [assumption |].
      eapply Forall_impl; [exact Hall |]. simpl. intros. lia.
    + destruct (x =? y) eqn:Heq; [now constructor |].
      apply Z.ltb_ge in Hlt. apply Z.eqb_neq in Heq.
      constructor; [assumption |].
      apply Forall_forall. intros z Hz. apply list_elem_of_In in Hz.
      apply insert_unique_In in Hz as [->|Hz]; [lia |].
      rewrite Forall_forall in Hall. apply Hall. now apply list_elem_of_In.
Qed.

Lemma sorted_set_sorted (l : list Z) : StronglySorted Z.lt (sorted_set l).
Proof.
  induction l as [|x l IH]; simpl; [constructor |].
  now apply insert_unique_sorted.
Qed.

Lemma sorted_set_In (z : Z) (l : list Z) : In z (sorted_set l) <-> In z l.
Proof.
  induction l as [|x l IH]; simpl; [tauto |].
  rewrite insert_unique_In, IH. intuition congruence.
Qed.

Lemma existsb_minus_one (l : list Z) :
  existsb (Z.eqb (-1)) l = true <-> In (-1) l.
Proof.
  rewrite existsb_exists. split.
  - intros (x & Hx & E). apply Z.eqb_eq in E. now subst.
  - intros H. exists (-1). split; [assumption | reflexivity].
Qed.

(** C10: for a string whose comma-separated pieces are ints, or a list,
    with user tokens [toks], the resolved suppression tuple is strictly
    increasing (sorted, no duplicate), contains transcribe, translate,
    start-of-transcript, sot_prev and sot_lm, and no_speech when the
    tokenizer has it; when -1 is among [toks] its members are exactly the
    non-negative user tokens, the non-speech tokens and those structural
    tokens, and otherwise exactly the user tokens and the structural
    tokens. *)
Theorem suppress_tokens_resolved (tk : Tokenizer.t) (o : DecodingOptions.t)
    (spec : suppress_spec) (toks : list Z) :
  DecodingOptions.suppress_tokens o = Some spec ->
  is_tuple spec = false ->
  user_tokens spec = Ok toks ->
  exists out,
    _get_suppress_tokens tk o = Ok out
    /\ StronglySorted Z.lt out
    /\ (forall x, In x (structural_tokens tk) -> In x out)
    /\ (forall n, Tokenizer.no_speech tk = Some n -> In n out)
    /\ (forall x, In x out <->
          (if existsb (Z.eqb (-1)) toks
           then (In x toks /\ 0 <= x) \/ In x (Tokenizer.non_speech_tokens tk)
           else In x toks)
          \/ In x (structural_tokens tk)
          \/ Tokenizer.no_speech tk = Some x).
Proof.
  intros Hspec Hlist Htoks. unfold _get_suppress_tokens.
  rewrite Hspec, Htoks, Hlist. cbn [rbind].
  set (chosen := if existsb (Z.eqb (-1)) toks
                 then List.filter (fun t => 0 <=? t) toks
                        ++ Tokenizer.non_speech_tokens tk
                 else toks).
  assert ((if existsb (Z.eqb (-1)) toks
           then Ok (List.filter (fun t => 0 <=? t) toks
                      ++ Tokenizer.non_speech_tokens tk)
           else if (length toks =? 0)%nat then Ok [] else Ok toks)
          = Ok chosen) as ->.
  { subst chosen. destruct (existsb _ toks); [reflexivity |].
    destruct toks; reflexivity. }
  cbn [rbind]. eexists. split; [reflexivity |].
  assert (forall x, In x chosen <->
            if existsb (Z.eqb (-1)) toks
            then (In x toks /\ 0 <= x) \/ In x (Tokenizer.non_speech_tokens tk)
            else In x toks) as Hchosen.
  { intros x. subst chosen. destruct (existsb _ toks); [|tauto].
    rewrite in_app_iff, filter_In, Z.leb_le. tauto. }
  assert (forall x, In x (match Tokenizer.no_speech tk with
                          | Some n => (chosen ++ structural_tokens tk) ++ [n]
                          | None => chosen ++ structural_tokens tk
                          end)
                    <-> In x chosen \/ In x (structural_tokens tk)
                        \/ Tokenizer.no_speech tk = Some x) as Hall.
  { intros x. destruct (Tokenizer.no_speech tk) as [n|].
    - rewrite !in_app_iff. simpl. intuition congruence.
    - rewrite in_app_iff. intuition congruence. }
  split; [apply sorted_set_sorted |].
  split; [intros x Hx; apply sorted_set_In, Hall; tauto |].
  split; [intros n Hn; apply sorted_set_In, Hall; tauto |].
  intros x. rewrite sorted_set_In, Hall, Hchosen. tauto.
Qed.

Lemma suppress_tokens_resolved_witness :
  exists out,
    _get_suppress_tokens multilingual default_options = Ok out
    /\ StronglySorted Z.lt out
    /\ (forall x, In x (structural_tokens multilingual) -> In x out)
    /\ (forall n, Tokenizer.no_speech multilingual = Some n -> In n out)
    /\ (forall x, In x out <->
          (if existsb (Z.eqb (-1)) [-1]
           then (In x [-1] /\ 0 <= x)
                \/ In x (Tokenizer.non_speech_tokens multilingual)
           else In x [-1])
          \/ In x (structural_tokens multilingual)
          \/ Tokenizer.no_speech multilingual = Some x).
Proof.
  apply (suppress_tokens_resolved multilingual default_options
           (SuppressStr "-1") [-1]); reflexivity.
Defined.

Example suppress_tokens_default :
  _get_suppress_tokens multilingual default_options
  = Ok [1; 2; 7; 8; 9; 10; 14; 25; 50258; 50358; 50359; 50360; 50361; 50362].
Proof. reflexivity. Qed.

Example suppress_tokens_mixed_string :
  _get_suppress_tokens multilingual
    {| DecodingOptions.task := "transcribe";
       DecodingOptions.language := None;
       DecodingOptions.temperature := 0;
       DecodingOptions.sample_len := None;
       DecodingOptions.best_of := None;
       DecodingOptions.beam_size := None;
       DecodingOptions.patience := None;
       DecodingOptions.length_penalty := None;
       DecodingOptions.prompt := None;
       DecodingOptions.prefix := None;
       DecodingOptions.suppress_blank := true;
       DecodingOptions.suppress_tokens := Some (SuppressStr "30, -5,3,-1, 3");
       DecodingOptions.without_timestamps := false;
       DecodingOptions.max_initial_timestamp := None;
       DecodingOptions.withlm := false;
       DecodingOptions.lm_path := None;
       DecodingOptions.lm_alpha := 2;
       DecodingOptions.lm_beta := 5 # 2;
       DecodingOptions.select_candidates := None |}
  = Ok [1; 2; 3; 7; 8; 9; 10; 14; 25; 30;
        50258; 50358; 50359; 50360; 50361; 50362].
Proof. reflexivity. Qed.

End Suppress.

(** ** The timestamp rules *)

Section Slices.

Lemma set_slice_kept (start stop : option Z) (row : list Q) (p : nat) (x : Q) :
  set_slice start stop neg_inf row !! p = Some x ->
  ~ (x == neg_inf)%Q ->
  row !! p = Some x /\ in_slice (length row) start stop p = false.
Proof.
  unfold set_slice. intros Hl Hx.
  apply list_lookup_imap_Some in Hl as (y & Hy & ->).
  destruct (in_slice (length row) start stop p).
  - exfalso. apply Hx. reflexivity.
  - auto.
Qed.

Lemma py_setitem_kept (row row' : list Q) (i : Z) (p : nat) (x : Q) :
  py_setitem row i neg_inf = Ok row' ->
  row' !! p = Some x -> ~ (x == neg_inf)%Q -> row !! p = Some x.
Proof.
  unfold py_setitem. cbv zeta. case_match; [discriminate |].
  intros [= <-] Hl Hx.
  apply list_lookup_insert_Some in Hl as [(_ & <- & _)|[_ Hl]].
  - exfalso. apply Hx. reflexivity.
  - exact Hl.
Qed.

Lemma in_slice_from (n p : nat) (a : Z) :
  0 <= a -> (p < n)%nat ->
  in_slice n (Some a) None p = false -> Z.of_nat p < a.
Proof.
  unfold in_slice, slice_start, slice_stop, slice_bound. intros Ha Hp H.
  destruct (a <? 0) eqn:E; [apply Z.ltb_lt in E; lia |].
  apply andb_false_iff in H as [H|H].
  - apply Nat.leb_gt in H. lia.
  - apply Nat.ltb_ge in H. lia.
Qed.

Lemma in_slice_to (n p : nat) (b : Z) :
  0 <= b -> (p < n)%nat ->
  in_slice n None (Some b) p = false -> b <= Z.of_nat p.
Proof.
  unfold in_slice, slice_start, slice_stop, slice_bound. intros Hb Hp H.
  destruct (b <? 0) eqn:E; [apply Z.ltb_lt in E; lia |].
  apply andb_false_iff in H as [H|H].
  - apply Nat.leb_gt in H. lia.
  - apply Nat.ltb_ge in H. lia.
Qed.

Lemma in_slice_between (n p : nat) (a b : Z) :
  0 <= a -> 0 <= b -> (p < n)%nat ->
  in_slice n (Some a) (Some b) p = false ->
  Z.of_nat p < a \/ b <= Z.of_nat p.
Proof.
  unfold in_slice, slice_start, slice_stop, slice_bound. intros Ha Hb Hp H.
  destruct (a <? 0) eqn:E; [apply Z.ltb_lt in E; lia |].
  destruct (b <? 0) eqn:E'; [apply Z.ltb_lt in E'; lia |].
  apply andb_false_iff in H as [H|H].
  - apply Nat.leb_gt in H. lia.
  - apply Nat.ltb_ge in H. lia.
Qed.

End Slices.

Section TimestampRules.
Import ApplyTimestampRules.
Variable self : t.
Let tb : Z := Tokenizer.timestamp_begin (tokenizer self).
Let eot : Z := Tokenizer.eot (tokenizer self).
Hypothesis tb_nonneg : 0 <= tb.
Hypothesis eot_nonneg : 0 <= eot.

Lemma pair_rule_kept (seq : list Z) (row : list Q) (p : nat) (x : Q) :
  pair_rule self seq row !! p = Some x -> ~ (x == neg_inf)%Q ->
  row !! p = Some x
  /\ (last_was_timestamp self seq = true ->
      if penultimate_was_timestamp self seq then Z.of_nat p < tb
      else eot <= Z.of_nat p).
Proof using tb_nonneg eot_nonneg.
  unfold pair_rule. intros Hl Hx.
  destruct (last_was_timestamp self seq); [|split; [assumption | discriminate]].
  destruct (penultimate_was_timestamp self seq);
    apply set_slice_kept in Hl as [Hrow Hout]; try assumption;
    (split; [assumption | intros _]);
    apply lookup_lt_Some in Hrow.
  - eapply in_slice_from; eauto.
  - eapply in_slice_to; eauto.
Qed.

Lemma monotonic_rule_kept (seq : list Z) (row : list Q) (p : nat) (x : Q) :
  monotonic_rule self seq row !! p = Some x -> ~ (x == neg_inf)%Q ->
  row !! p = Some x
  /\ (forall newest,
        last (List.filter (fun y => tb <=? y) seq) = Some newest ->
        tb <= Z.of_nat p ->
        (if (last_was_timestamp self seq
             && negb (penultimate_was_timestamp self seq))%bool
         then newest else newest + 1) <= Z.of_nat p).
Proof using tb_nonneg.
  unfold monotonic_rule. fold tb. cbv zeta. intros Hl Hx.
  destruct (last (List.filter _ seq)) as [newest|] eqn:Hnewest.
  - apply set_slice_kept in Hl as [Hrow Hout]; [|assumption].
    split; [assumption |]. intros n [= <-] Hp.
    assert (tb <= newest) as Hts.
    { apply last_Some in Hnewest as [l' Hl'].
      assert (In newest (List.filter (fun y => tb <=? y) seq)) as Hin
        by (rewrite Hl'; apply in_or_app; right; now left).
      apply filter_In in Hin as [_ Hin]. now apply Z.leb_le in Hin. }
    apply lookup_lt_Some in Hrow.
    apply in_slice_between in Hout; try assumption; [lia |].
    destruct (_ && _)%bool; lia.
  - split; [assumption | discriminate].
Qed.

Lemma initial_rule_kept (tokens_k : list Z) (row : list Q) (p : nat) (x : Q) :
  initial_rule self tokens_k row !! p = Some x -> ~ (x == neg_inf)%Q ->
  row !! p = Some x.
Proof.
  unfold initial_rule. cbv zeta. intros Hl Hx.
  destruct (_ =? _); [|assumption].
  destruct (max_initial_timestamp_index self).
  - apply set_slice_kept in Hl as [Hl _]; [|assumption].
    now apply set_slice_kept in Hl as [Hl _].
  - now apply set_slice_kept in Hl as [Hl _].
Qed.

Lemma dominance_rule_kept (row out : list Q) (p : nat) (x : Q) :
  dominance_rule self row = Ok out ->
  out !! p = Some x -> ~ (x == neg_inf)%Q -> row !! p = Some x.
Proof.
  unfold dominance_rule. cbv zeta.
  destruct (Qmaximum _) as [m|e]; [|discriminate]. cbn [rbind].
  destruct (Qltb _ _); intros [= <-] Hl Hx; [|assumption].
  now apply set_slice_kept in Hl as [Hl _].
Qed.

(** A token that the filter leaves possible obeys the pairing and the
    ordering rule for the tokens sampled so far. *)
Lemma producible_rules (initial seq : list Z) (logits_k : list Q) (token : Z) :
  Z.of_nat (length initial) = sample_begin self ->
  producible self (initial ++ seq) logits_k token ->
  (last_was_timestamp self seq = true ->
   if penultimate_was_timestamp self seq then token < tb else eot <= token)
  /\ (forall newest,
        last (List.filter (fun y => tb <=? y) seq) = Some newest ->
        tb <= token -> newest <= token).
Proof using tb_nonneg eot_nonneg.
  intros Hinit (out & x & Hrun & Hpos & Hl & Hx).
  unfold apply_row in Hrun.
  destruct (suppress_no_timestamps self logits_k) as [row1|e]; [|discriminate].
  cbn [rbind] in Hrun. cbv zeta in Hrun.
  assert (sampled self (initial ++ seq) = seq) as Hseq.
  { unfold sampled, py_slice_from. rewrite <- Hinit.
    destruct (_ <? 0) eqn:E; [apply Z.ltb_lt in E; lia |].
    rewrite length_app, Z.min_l by lia. rewrite Nat2Z.id.
    now rewrite drop_app_length. }
  rewrite Hseq in Hrun.
  eapply dominance_rule_kept in Hrun; eauto.
  apply initial_rule_kept in Hrun; [|assumption].
  apply monotonic_rule_kept in Hrun as [Hrun Hmono]; [|assumption].
  apply pair_rule_kept in Hrun as [_ Hpair]; [|assumption].
  rewrite Z2Nat.id in Hpair, Hmono by assumption.
  split; [exact Hpair |].
  intros newest Hnewest Hts. specialize (Hmono newest Hnewest Hts).
  destruct (_ && _)%bool; lia.
Qed.

Lemma produced_snoc (initial s : list Z) (token : Z) :
  produced self initial (s ++ [token]) ->
  produced self initial s
  /\ exists logits_k, producible self (initial ++ s) logits_k token.
Proof.
  intros H. inversion H as [Hnil | s' logits_k token' Hs' Hp Heq].
  - now apply app_cons_not_nil in Hnil.
  - apply app_inj_tail in Heq as [-> ->]. eauto.
Qed.

Lemma produced_prefix (initial s1 s2 : list Z) :
  produced self initial (s1 ++ s2) -> produced self initial s1.
Proof.
  induction s2 as [|y s2 IH] using rev_ind; intros H.
  - now rewrite app_nil_r in H.
  - rewrite app_assoc in H. apply produced_snoc in H as [H _]. auto.
Qed.

Lemma last_was_timestamp_snoc (pre : list Z) (b : Z) :
  last_was_timestamp self (pre ++ [b]) = (tb <=? b).
Proof. unfold last_was_timestamp. now rewrite last_snoc. Qed.

Lemma last_was_timestamp_two (pre : list Z) (a b : Z) :
  last_was_timestamp self (pre ++ [a; b]) = (tb <=? b).
Proof.
  replace (pre ++ [a; b]) with ((pre ++ [a]) ++ [b])
    by (now rewrite <- app_assoc).
  apply last_was_timestamp_snoc.
Qed.

Lemma penultimate_was_timestamp_snoc (pre : list Z) (a b : Z) :
  penultimate_was_timestamp self (pre ++ [a; b]) = (tb <=? a).
Proof.
  unfold penultimate_was_timestamp.
  replace (pre ++ [a; b]) with ((pre ++ [a]) ++ [b])
    by (now rewrite <- app_assoc).
  now rewrite removelast_last, last_snoc.
Qed.

Lemma newest_timestamp (pre mid : list Z) (a : Z) :
  tb <= a ->
  exists c,
    last (List.filter (fun y => tb <=? y) (pre ++ a :: mid)) = Some c
    /\ (c = a \/ exists m1 m2, mid = m1 ++ c :: m2 /\ tb <= c).
Proof.
  intros Ha. induction mid as [|y mid IH] using rev_ind.
  - exists a. rewrite List.filter_app. simpl.
    rewrite (proj2 (Z.leb_le tb a) Ha). rewrite last_snoc. auto.
  - destruct IH as (c & Hc & Hwhere).
    replace (pre ++ a :: mid ++ [y]) with ((pre ++ a :: mid) ++ [y])
      by (now rewrite <- app_assoc).
    rewrite List.filter_app. simpl. destruct (tb <=? y) eqn:Hy.
    + exists y. rewrite last_snoc. split; [reflexivity |]. right.
      exists mid, []. split; [reflexivity | now apply Z.leb_le].
    + exists c. rewrite app_nil_r. split; [assumption |].
      destruct Hwhere as [->|(m1 & m2 & -> & Hts)]; [now left | right].
      exists m1, (m2 ++ [y]). split; [now rewrite <- app_assoc | assumption].
Qed.

Lemma timestamps_ordered (initial : list Z) (n : nat) :
  Z.of_nat (length initial) = sample_begin self ->
  forall pre a mid b,
    length mid = n ->
    produced self initial (pre ++ a :: mid ++ [b]) ->
    tb <= a -> tb <= b -> a <= b.
Proof using tb_nonneg eot_nonneg.
  intros Hinit. induction n as [n IH] using lt_wf_ind.
  intros pre a mid b Hlen Hprod Ha Hb.
  replace (pre ++ a :: mid ++ [b]) with ((pre ++ a :: mid) ++ [b]) in Hprod
    by (now rewrite <- app_assoc).
  apply produced_snoc in Hprod as [Hprod [logits_k Hstep]].
  apply (producible_rules initial _ _ _ Hinit) in Hstep as [_ Hmono].
  destruct (newest_timestamp pre mid a Ha) as (c & Hc & Hwhere).
  specialize (Hmono c Hc Hb).
  destruct Hwhere as [->|(m1 & m2 & -> & Hts)]; [assumption |].
  apply Z.le_trans with c; [|assumption].
  apply (IH (length m1)) with (pre := pre) (mid := m1); auto.
  - rewrite length_app in Hlen. simpl in Hlen. lia.
  - apply produced_prefix with (s2 := m2).
    now rewrite <- !app_assoc, <- !app_comm_cons, <- app_assoc.
Qed.

End TimestampRules.

(** C3 (amended): in a row sampled under the timestamp filter, a token
    that follows two consecutive timestamps, or a timestamp that is the
    first sampled token, is not a timestamp (its id is below
    [timestamp_begin]: text, end-of-text or another special token); a
    token that follows a single timestamp (one preceded by a
    non-timestamp) is not a text token (its id is at least [eot]); and
    the timestamp values of the row are non-decreasing. *)
Theorem timestamp_rules_on_produced_rows (self : ApplyTimestampRules.t)
    (initial s : list Z) :
  let tb := Tokenizer.timestamp_begin (ApplyTimestampRules.tokenizer self) in
  let eot := Tokenizer.eot (ApplyTimestampRules.tokenizer self) in
  0 <= tb ->
  0 <= eot ->
  Z.of_nat (length initial) = ApplyTimestampRules.sample_begin self ->
  produced self initial s ->
  (forall pre a b t post,
     s = pre ++ [a; b; t] ++ post -> tb <= a -> tb <= b -> t < tb)
  /\ (forall a t post, s = [a; t] ++ post -> tb <= a -> t < tb)
  /\ (forall pre a b t post,
        s = pre ++ [a; b; t] ++ post -> a < tb -> tb <= b -> eot <= t)
  /\ (forall pre a mid b post,
        s = pre ++ a :: mid ++ b :: post -> tb <= a -> tb <= b -> a <= b).
Proof.
  intros tb eot Htb Heot Hinit Hprod. subst tb eot.
  set (tb := Tokenizer.timestamp_begin (ApplyTimestampRules.tokenizer self))
    in *.
  set (eot := Tokenizer.eot (ApplyTimestampRules.tokenizer self)) in *.
  assert (forall seq t post, s = (seq ++ [t]) ++ post ->
            (ApplyTimestampRules.last_was_timestamp self seq = true ->
             if ApplyTimestampRules.penultimate_was_timestamp self seq
             then t < tb else eot <= t)) as Hstep.
  { intros seq t post -> Hlast.
    apply produced_prefix, produced_snoc in Hprod as [_ [logits_k Hp]].
    apply (producible_rules self Htb Heot initial _ _ _ Hinit) in Hp
      as [Hpair _].
    now apply Hpair. }
  repeat split.
  - intros pre a b t post -> Ha Hb.
    specialize (Hstep (pre ++ [a; b]) t post).
    rewrite last_was_timestamp_two, penultimate_was_timestamp_snoc in Hstep.
    fold tb in Hstep.
    rewrite !(proj2 (Z.leb_le _ _)) in Hstep by assumption.
    apply Hstep; [|reflexivity]. now rewrite <- !app_assoc.
  - intros a t post -> Ha.
    specialize (Hstep [a] t post).
    change [a] with ([] ++ [a]) in Hstep at 2.
    rewrite last_was_timestamp_snoc in Hstep. fold tb in Hstep.
    rewrite (proj2 (Z.leb_le _ _)) in Hstep by assumption.
    now apply Hstep.
  - intros pre a b t post -> Ha Hb.
    specialize (Hstep (pre ++ [a; b]) t post).
    rewrite last_was_timestamp_two, penultimate_was_timestamp_snoc in Hstep.
    fold tb in Hstep.
    rewrite (proj2 (Z.leb_le _ _) Hb) in Hstep.
    rewrite (proj2 (Z.leb_gt _ _) Ha) in Hstep.
    apply Hstep; [|reflexivity]. now rewrite <- !app_assoc.
  - intros pre a mid b post -> Ha Hb.
    apply (timestamps_ordered self Htb Heot initial (length mid) Hinit
             pre a mid b eq_refl); try assumption.
    apply produced_prefix with (s2 := post).
    now rewrite <- !app_assoc, <- !app_comm_cons, <- app_assoc.
Qed.

Ltac produce_token :=
  eapply produced_step with (logits_k := flat_logits);
  [| eexists; eexists;
     split; [vm_compute; reflexivity |];
     split; [lia |];
     split; [reflexivity |];
     intros H; vm_compute in H; discriminate H].

(** A row of the small vocabulary: timestamp 10, text 2, timestamps 11
    and 12, text 3. *)
Lemma paired_row_produced : produced small_rules [5; 6] [10; 2; 11; 12; 3].
Proof.
  change [10; 2; 11; 12; 3] with (((((([] ++ [10]) ++ [2]) ++ [11]) ++ [12]) ++ [3])).
  repeat produce_token. apply produced_nil.
Defined.

Lemma timestamp_rules_on_produced_rows_witness :
  let s := [10; 2; 11; 12; 3] in
  (forall pre a b t post,
     s = pre ++ [a; b; t] ++ post -> 10 <= a -> 10 <= b -> t < 10)
  /\ (forall a t post, s = [a; t] ++ post -> 10 <= a -> t < 10)
  /\ (forall pre a b t post,
        s = pre ++ [a; b; t] ++ post -> a < 10 -> 10 <= b -> 4 <= t)
  /\ (forall pre a mid b post,
        s = pre ++ a :: mid ++ b :: post -> 10 <= a -> 10 <= b -> a <= b).
Proof.
  apply (timestamp_rules_on_produced_rows small_rules [5; 6]
           [10; 2; 11; 12; 3]).
  - simpl. lia.
  - simpl. lia.
  - reflexivity.
  - exact paired_row_produced.
Defined.

(** The claim as stated fails: the row above is sampled under the
    filter, its timestamps 11 and 12 are consecutive, and 12 is followed
    by the text token 3, not by end-of-text; and after the two trailing
    timestamps 11 and 12 the filter also allows end-of-text (4), which
    is not a text token. *)
Lemma timestamp_pair_before_text :
  ~ (forall s pre a b t post,
       produced small_rules [5; 6] s ->
       s = pre ++ [a; b; t] ++ post ->
       10 <= a -> 10 <= b -> t = 4)
  /\ producible small_rules ([5; 6] ++ [10; 2; 11; 12]) flat_logits 4.
Proof.
  split.
  - intros Hclaim.
    specialize (Hclaim [10; 2; 11; 12; 3] [10; 2] 11 12 3 []
                  paired_row_produced eq_refl).
    lia.
  - eexists; eexists.
    split; [vm_compute; reflexivity |].
    split; [lia |].
    split; [reflexivity |].
    intros H; vm_compute in H; discriminate H.
Qed.

(** ** The cache clean-up of a run *)

Section Cleanup.
Import DecodingTask.

(** [m] makes exactly [n] clean-ups, whatever its outcome. *)
Definition cleans {A : Type} (n : nat) (m : M world A) : Prop :=
  forall w, cleanup_count (trace (snd (m w))) = (cleanup_count (trace w) + n)%nat.

Lemma cleans_ret {A : Type} (a : A) : cleans 0 (ret a).
Proof. intros w. simpl. lia. Qed.

Lemma cleans_raise {A : Type} (e : exn) : cleans 0 (@raise world A e).
Proof. intros w. simpl. lia. Qed.

Lemma cleans_lift {A : Type} (r : result A) : cleans 0 (@lift world A r).
Proof. intros w. simpl. lia. Qed.

Lemma cleans_bind_n {A B : Type} (n : nat) (m : M world A)
    (k : A -> M world B) :
  cleans n m -> (forall a, cleans 0 (k a)) -> cleans n (bind m k).
Proof.
  intros Hm Hk w. unfold bind. specialize (Hm w).
  destruct (m w) as [[a|e] w1]; simpl in *.
  - rewrite (Hk a w1). lia.
  - assumption.
Qed.

Lemma cleans_bind {A B : Type} (m : M world A) (k : A -> M world B) :
  cleans 0 m -> (forall a, cleans 0 (k a)) -> cleans 0 (bind m k).
Proof. apply cleans_bind_n. Qed.

Lemma cleans_bind_lift {A B : Type} (r : result A) (k : A -> M world B)
    (n : A -> nat) (total : nat) :
  (forall a, cleans (n a) (k a)) ->
  total = match r with Ok a => n a | Raise _ => 0%nat end ->
  cleans total (bind (lift r) k).
Proof.
  intros Hk -> w. unfold bind, lift. destruct r as [a|e].
  - apply Hk.
  - simpl. lia.
Qed.

Lemma cleans_on_inference {A : Type} (m : M PyTorchInference.t A) :
  cleans 0 (on_inference m).
Proof.
  intros w. unfold on_inference, zoom.
  destruct (m (inference w)) as [r i]. simpl. lia.
Qed.

Lemma cleans_emit_forward : cleans 0 (emit Forward).
Proof.
  intros w. unfold emit, cleanup_count. simpl.
  rewrite List.filter_app, length_app. reflexivity.
Qed.

Lemma cleans_emit_cleanup : cleans 1 (emit Cleanup).
Proof.
  intros w. unfold emit, cleanup_count. simpl.
  rewrite List.filter_app, length_app. reflexivity.
Qed.

Lemma cleans_decoder_reset : cleans 0 decoder_reset.
Proof. intros w. simpl. lia. Qed.

Lemma cleans_bind_reset {B : Type} (n : nat) (k : unit -> M world B) :
  cleans n (k tt) -> cleans n (bind decoder_reset k).
Proof.
  intros Hk w. unfold bind, decoder_reset. rewrite Hk. reflexivity.
Qed.

Lemma cleans_decoder_update be tokens logits sum_logprobs :
  cleans 0 (decoder_update be tokens logits sum_logprobs).
Proof.
  intros w. unfold decoder_update. destruct (decoder w) as [d|d|d].
  - simpl. lia.
  - destruct (BeamSearchDecoder.update _ _ _ _) as [r [d' i']]. simpl. lia.
  - destruct (BeamSearchDecoderWithLM.update _ _ _ _) as [r [d' i']]. simpl. lia.
Qed.

Lemma cleans_decoder_finalize tokens sum_logprobs :
  cleans 0 (decoder_finalize tokens sum_logprobs).
Proof.
  intros w. unfold decoder_finalize. destruct (decoder w) as [d|d|d].
  - simpl. lia.
  - destruct (BeamSearchDecoder.finalize _ _ _) as [r d']. simpl. lia.
  - destruct (BeamSearchDecoderWithLM.finalize _ _ _) as [r d']. simpl. lia.
Qed.

Lemma cleans_if {A : Type} (b : bool) (m1 m2 : M world A) (n : nat) :
  cleans n m1 -> cleans n m2 -> cleans n (if b then m1 else m2).
Proof. now destruct b. Qed.

Lemma cleans_sample_loop be self audio_features steps tokens sum_logprobs
    no_speech_probs :
  cleans 0 (sample_loop be self audio_features steps tokens sum_logprobs
              no_speech_probs).
Proof.
  revert tokens sum_logprobs no_speech_probs.
  induction steps as [|i steps IH]; intros tokens sum_logprobs no_speech_probs;
    simpl.
  - apply cleans_ret.
  - apply cleans_bind; [apply cleans_emit_forward | intros _].
    apply cleans_bind; [apply cleans_on_inference | intros logits].
    apply cleans_bind; [apply cleans_lift | intros nsp].
    apply cleans_bind; [apply cleans_lift | intros logits'].
    apply cleans_bind; [apply cleans_lift | intros logits''].
    apply cleans_bind; [apply cleans_decoder_update | intros [[t c] s]].
    apply cleans_if; [apply cleans_ret | apply IH].
Qed.

Lemma cleanup_returns (w : world) : fst (cleanup w) = Ok tt.
Proof. reflexivity. Qed.

Lemma cleans_cleanup : cleans 1 cleanup.
Proof.
  intros w. unfold cleanup, bind, emit, on_inference, zoom. simpl.
  unfold cleanup_count. rewrite List.filter_app, length_app. reflexivity.
Qed.

Lemma cleans_try_finally {A : Type} (body : M world A) (final : M world unit) :
  cleans 0 body -> cleans 1 final -> cleans 1 (try_finally body final).
Proof.
  intros Hb Hf w. unfold try_finally. specialize (Hb w).
  destruct (body w) as [r w1]. simpl in Hb. specialize (Hf w1).
  destruct (final w1) as [[[]|e] w2]; simpl in *; lia.
Qed.

Lemma cleans_main_loop be self audio_features tokens :
  cleans 1 (_main_loop be self audio_features tokens).
Proof.
  unfold _main_loop.
  apply cleans_try_finally; [apply cleans_sample_loop | apply cleans_cleanup].
Qed.

(** What [run] does once the loop has returned makes no clean-up. *)
Ltac cleans_step :=
  first
    [ apply cleans_ret
    | apply cleans_raise
    | apply cleans_lift
    | apply cleans_decoder_finalize
    | apply cleans_if
    | apply cleans_bind; [| intros ?] ].

(** C5 (amended): [_main_loop] makes exactly one cache clean-up on every
    exit path of the sampling loop (normal end, early break, exception of
    the model, of a filter or of the decoder); [run] therefore makes
    exactly one clean-up when it reaches the loop, and none when it
    returns or raises before it (language identification, failure of the
    encoder or of the language detection). *)
Theorem run_cleans_up_once_per_loop (be : Backend.t) (self : t)
    (mel : list (list Q)) (w : world) :
  cleanup_count (trace (snd (run be self mel w)))
  = (cleanup_count (trace w) + if enters_loop self mel then 1 else 0)%nat
  /\ forall audio_features tokens w0,
       cleanup_count (trace (snd (_main_loop be self audio_features tokens w0)))
       = S (cleanup_count (trace w0)).
Proof.
  split.
  2:{ intros audio_features tokens w0.
      rewrite (cleans_main_loop be self audio_features tokens w0). lia. }
  revert w. change (cleans (if enters_loop self mel then 1%nat else 0%nat)
                           (run be self mel)).
  unfold run, enters_loop.
  apply cleans_bind_reset.
  apply cleans_bind_lift with
    (r := _get_audio_features self mel)
    (n := fun af =>
            if match _detect_language self af
                       (repeat (initial_tokens self) (length mel)) with
               | Ok _ => negb (String.eqb (DecodingOptions.task (options self))
                                          "lang_id")
               | Raise _ => false
               end then 1%nat else 0%nat).
  2:{ now destruct (_get_audio_features self mel). }
  intros af.
  apply cleans_bind_lift with
    (r := _detect_language self af (repeat (initial_tokens self) (length mel)))
    (n := fun _ =>
            if negb (String.eqb (DecodingOptions.task (options self)) "lang_id")
            then 1%nat else 0%nat).
  2:{ now destruct (_detect_language self af _). }
  intros [[languages language_probs] tokens].
  destruct (String.eqb (DecodingOptions.task (options self)) "lang_id").
  - simpl negb. cbv iota.
    destruct language_probs; [apply cleans_ret | apply cleans_raise].
  - simpl negb. cbv iota.
    apply cleans_bind_n; [apply cleans_main_loop |].
    intros [[tokens' sum_logprobs] no_speech_probs].
    repeat cleans_step.
    match goal with a : (_ * _)%type |- _ => destruct a end.
    repeat cleans_step.
Qed.

End Cleanup.

(** The claim as stated fails for a language identification: [run]
    returns before the sampling loop and never calls the clean-up. *)
Lemma run_lang_id_makes_no_cleanup :
  ~ (forall be self mel w,
       cleanup_count (DecodingTask.trace (snd (DecodingTask.run be self mel w)))
       = S (cleanup_count (DecodingTask.trace w))).
Proof.
  intros Hclaim.
  assert (match DecodingTask.init toy_model multilingual
                  (with_task default_options "lang_id") (Ok []) no_lm with
          | Ok (task, w) =>
              cleanup_count
                (DecodingTask.trace
                   (snd (DecodingTask.run toy_backend task [[1%Q]] w)))
              = cleanup_count (DecodingTask.trace w)
          | Raise _ => False
          end) as Hrun by (vm_compute; reflexivity).
  destruct (DecodingTask.init _ _ _ _ _) as [[task w]|e]; [|contradiction].
  specialize (Hclaim toy_backend task [[1%Q]] w). lia.
Qed.

(** A forward pass that fails (here a filter indexes past the six
    logits of the toy model) still ends with the clean-up. *)
Example run_cleans_up_after_exception :
  match DecodingTask.init toy_model multilingual default_options (Ok []) no_lm with
  | Ok (task, w) =>
      let '(r, w') := DecodingTask.run toy_backend task [[1%Q]] w in
      (r, DecodingTask.trace w')
      = (Raise IndexError, [DecodingTask.Forward; DecodingTask.Cleanup])
  | Raise _ => False
  end.
Proof. vm_compute. reflexivity. Qed.

(** ** The language check before ranking *)

Section Penalise.
Import DecodingTask.
Variable be : Backend.t.
Variable self : t.

Lemma py_index_nat {A : Type} (xs : list A) (k : nat) (x : A) :
  xs !! k = Some x -> py_index xs (Z.of_nat k) = Ok x.
Proof.
  intros Hx. destruct (py_index_in_range xs (Z.of_nat k)) as (y & Hy & Hl).
  - apply lookup_lt_Some in Hx. lia.
  - rewrite Nat2Z.id in Hl. congruence.
Qed.

Lemma py_setitem_nat {A : Type} (xs : list A) (k : nat) (v : A) :
  (k < length xs)%nat -> py_setitem xs (Z.of_nat k) v = Ok (<[k := v]> xs).
Proof.
  intros Hk. unfold py_setitem.
  destruct (Z.of_nat k <? 0) eqn:E; [apply Z.ltb_lt in E; lia |].
  rewrite E. simpl.
  destruct (Z.of_nat (length xs) <=? Z.of_nat k) eqn:E';
    [apply Z.leb_le in E'; lia |].
  now rewrite Nat2Z.id.
Qed.

Lemma foldM_app {A B : Type} (f : B -> A -> result B) (l1 l2 : list A) (b : B) :
  foldM f (l1 ++ l2) b = rbind (foldM f l1 b) (foldM f l2).
Proof.
  revert b. induction l1 as [|a l1 IH]; intros b; simpl; [reflexivity |].
  destruct (f b a); simpl; [apply IH | reflexivity].
Qed.

(** The loop body of the language check. *)
Definition penalise_step (sum_logprobs : list (list Q)) (it : Z * string)
  : result (list (list Q)) :=
  let pred_lang :=
    match Backend.detect be (snd it) with
    | Ok lang => lang
    | Raise _ => "unk"%string
    end in
  if negb (String.eqb pred_lang "en") then
    (let* row := py_index sum_logprobs 0 in
     let* lp := py_index row (fst it) in
     let* row := py_setitem row (fst it) (lp - 7)%Q in
     py_setitem sum_logprobs 0 row)%result
  else Ok sum_logprobs.

Definition adjusted (first : list (list Z)) (idx : nat) (lp : Q) : Q :=
  match first !! idx with
  | Some candidate =>
      if detected_english be (tokenizer self) candidate then lp else (lp - 7)%Q
  | None => lp
  end.

Lemma penalise_prefix (first : list (list Z)) (sum_logprobs : list (list Q))
    (lps : list Q) (k : nat) :
  sum_logprobs !! 0%nat = Some lps ->
  (length first <= length lps)%nat ->
  (k <= length first)%nat ->
  exists out row,
    foldM penalise_step
      (firstn k (combine (py_range (length (map (Tokenizer.decode (tokenizer self)) first)))
                         (map (Tokenizer.decode (tokenizer self)) first)))
      sum_logprobs = Ok out
    /\ length out = length sum_logprobs
    /\ (forall a, a <> 0%nat -> out !! a = sum_logprobs !! a)
    /\ out !! 0%nat = Some row
    /\ length row = length lps
    /\ forall idx lp, lps !! idx = Some lp ->
         row !! idx = Some (if (idx <? k)%nat then adjusted first idx lp else lp).
Proof.
  intros Hlps Hlen. induction k as [|k IH]; intros Hk.
  - exists sum_logprobs, lps. simpl. repeat split; auto.
  - destruct IH as (out & row & Hrun & Hout & Hframe & Hrow & Hrowlen & Hvals);
      [lia |].
    destruct (lookup_lt_is_Some_2 first k) as [cand Hcand]; [lia |].
    set (texts := map (Tokenizer.decode (tokenizer self)) first) in *.
    assert (combine (py_range (length texts)) texts !! k
            = Some (Z.of_nat k, Tokenizer.decode (tokenizer self) cand)) as Hitem.
    { change (combine (py_range (length texts)) texts)
        with (zip_with pair (py_range (length texts)) texts).
      rewrite lookup_zip_with. unfold py_range, texts.
      rewrite !list_lookup_fmap, Hcand. rewrite length_map.
      rewrite lookup_seq_lt by lia. reflexivity. }
    rewrite (take_S_r _ _ _ Hitem), foldM_app, Hrun. simpl rbind.
    destruct (lookup_lt_is_Some_2 lps k) as [lp Hlp]; [lia |].
    pose proof (Hvals k lp Hlp) as Hk_val.
    rewrite Nat.ltb_irrefl in Hk_val.
    unfold penalise_step. simpl fst. simpl snd. cbv zeta.
    assert ((match Backend.detect be (Tokenizer.decode (tokenizer self) cand) with
             | Ok lang => String.eqb lang "en"
             | Raise _ => false
             end) = detected_english be (tokenizer self) cand) as Hdet
      by reflexivity.
    assert (negb (String.eqb
                    match Backend.detect be
                            (Tokenizer.decode (tokenizer self) cand) with
                    | Ok lang => lang
                    | Raise _ => "unk"%string
                    end "en")
            = negb (detected_english be (tokenizer self) cand)) as ->.
    { unfold detected_english. now destruct (Backend.detect be _). }
    destruct (detected_english be (tokenizer self) cand) eqn:Hen; simpl negb;
      cbv iota.
    + exists out, row. repeat split; auto.
      intros idx lp' Hidx. rewrite (Hvals idx lp' Hidx).
      destruct (decide (idx = k)) as [->|Hne].
      * rewrite Nat.ltb_irrefl, (proj2 (Nat.ltb_lt k (S k))) by lia.
        unfold adjusted. now rewrite Hcand, Hen.
      * destruct (idx <? k)%nat eqn:E1; destruct (idx <? S k)%nat eqn:E2;
          try reflexivity;
          [apply Nat.ltb_lt in E1; apply Nat.ltb_ge in E2
          |apply Nat.ltb_ge in E1; apply Nat.ltb_lt in E2]; lia.
    + change 0 with (Z.of_nat 0).
      rewrite (py_index_nat out 0 row Hrow). cbn [rbind].
      rewrite (py_index_nat row k lp Hk_val). cbn [rbind].
      rewrite py_setitem_nat by lia. cbn [rbind].
      rewrite py_setitem_nat by (apply lookup_lt_Some in Hrow; lia).
      eexists. exists (<[k := (lp - 7)%Q]> row).
      split; [reflexivity |].
      split; [now rewrite length_insert |].
      split; [intros a Ha; rewrite list_lookup_insert_ne by lia; now apply Hframe |].
      split; [apply list_lookup_insert_eq; apply lookup_lt_Some in Hrow; lia |].
      split; [now rewrite length_insert |].
      intros idx lp' Hidx.
      destruct (decide (idx = k)) as [->|Hne].
      * rewrite list_lookup_insert_eq by lia.
        rewrite (proj2 (Nat.ltb_lt k (S k))) by lia.
        unfold adjusted. rewrite Hcand, Hen. congruence.
      * rewrite list_lookup_insert_ne by lia. rewrite (Hvals idx lp' Hidx).
        destruct (idx <? k)%nat eqn:E1; destruct (idx <? S k)%nat eqn:E2;
          try reflexivity;
          [apply Nat.ltb_lt in E1; apply Nat.ltb_ge in E2
          |apply Nat.ltb_ge in E1; apply Nat.ltb_lt in E2]; lia.
Qed.

Lemma penalise_spec (tokens : list (list (list Z)))
    (sum_logprobs : list (list Q)) (first : list (list Z)) (lps : list Q) :
  tokens !! 0%nat = Some first ->
  sum_logprobs !! 0%nat = Some lps ->
  (length first <= length lps)%nat ->
  exists out row,
    penalise be self tokens sum_logprobs = Ok out
    /\ length out = length sum_logprobs
    /\ (forall a, a <> 0%nat -> out !! a = sum_logprobs !! a)
    /\ out !! 0%nat = Some row
    /\ length row = length lps
    /\ forall idx lp, lps !! idx = Some lp ->
         row !! idx = Some (adjusted first idx lp).
Proof.
  intros Hfirst Hlps Hlen.
  destruct (penalise_prefix first sum_logprobs lps (length first) Hlps Hlen)
    as (out & row & Hrun & Hout & Hframe & Hrow & Hrowlen & Hvals); [lia |].
  exists out, row. unfold penalise.
  change 0 with (Z.of_nat 0). rewrite (py_index_nat tokens 0 first Hfirst).
  cbn [rbind]. cbv zeta.
  rewrite firstn_all2 in Hrun.
  2:{ rewrite length_combine. unfold py_range.
      rewrite !length_map, length_seq. lia. }
  split; [exact Hrun |]. repeat split; auto.
  intros idx lp Hidx. rewrite (Hvals idx lp Hidx).
  destruct (idx <? length first)%nat eqn:E; [reflexivity |].
  apply Nat.ltb_ge in E. unfold adjusted.
  now rewrite (proj2 (lookup_ge_None first idx)) by lia.
Qed.

End Penalise.

(** C9: when [run] gets as far as the language check (every earlier
    step returns, and the first audio has a score for each of its
    candidates), the check returns; it subtracts 7 from the cumulative
    log-probability of each candidate of the first audio whose text is
    not detected as English or on which the detection raises, and leaves
    the other scores of the first audio and all scores of the other
    audios as they were; and the outcome of [run] is that of the ranker
    called on these adjusted scores, followed by the collection of the
    selected candidates.  So the winner need not be the arg-max of the
    unmodified scores: on the two-word task the candidate that reads
    "Zo", the winner on the scores of [finalize] and the result of [run]
    when every text is taken for English, loses to the candidate that
    reads "Hi" when "Zo" is not taken for English. *)
Theorem language_check_penalises_first_audio :
  (forall (be : Backend.t) (self : DecodingTask.t) (mel : list (list Q))
          (w w' : DecodingTask.world) (languages : list (option string))
          (audio_features : list (list Q))
          (no_speech_probs : list (option Q))
          (tokens : list (list (list Z))) (sum_logprobs : list (list Q))
          (first : list (list Z)) (lps : list Q),
     reaches_language_check be self mel w languages audio_features
       no_speech_probs tokens sum_logprobs w' ->
     tokens !! 0%nat = Some first ->
     sum_logprobs !! 0%nat = Some lps ->
     (length first <= length lps)%nat ->
     exists out row,
       DecodingTask.penalise be self tokens sum_logprobs = Ok out
       /\ length out = length sum_logprobs
       /\ (forall a, a <> 0%nat -> out !! a = sum_logprobs !! a)
       /\ out !! 0%nat = Some row
       /\ length row = length lps
       /\ (forall idx lp candidate,
             lps !! idx = Some lp -> first !! idx = Some candidate ->
             row !! idx
             = Some (if detected_english be (DecodingTask.tokenizer self)
                          candidate
                     then lp else (lp - 7)%Q))
       /\ DecodingTask.run be self mel w
          = ((let* selected :=
                MaximumLikelihoodRanker.rank (Backend.pow be)
                  (DecodingOptions.length_penalty
                     (DecodingTask.options self))
                  tokens out in
              collect_results be self languages audio_features
                no_speech_probs tokens selected out)%result, w'))
  /\ (exists w',
        reaches_language_check picky_backend two_word_task [[1%Q]]
          two_word_world [Some "en"%string] [[1%Q]] [None] [[[1]; [2]]]
          [[2%Q; 1%Q]] w'
        /\ MaximumLikelihoodRanker.rank pow_integral None [[[1]; [2]]]
             [[2%Q; 1%Q]] = Ok [0]
        /\ (let* results :=
              fst (DecodingTask.run picky_backend two_word_task [[1%Q]]
                     two_word_world) in
            Ok (map DecodingResult.tokens results))%result = Ok [[2]]
        /\ (let* results :=
              fst (DecodingTask.run toy_backend two_word_task [[1%Q]]
                     two_word_world) in
            Ok (map DecodingResult.tokens results))%result = Ok [[1]]).
Proof.
  split.
  - intros be self mel w w' languages audio_features no_speech_probs tokens
      sum_logprobs first lps Hreach Hfirst Hlps Hlen.
    destruct (penalise_spec be self tokens sum_logprobs first lps
                Hfirst Hlps Hlen)
      as (out & row & Hrun & Hout & Hframe & Hrow & Hrowlen & Hvals).
    exists out, row. repeat split; auto.
    + intros idx lp candidate Hidx Hcand. rewrite (Hvals idx lp Hidx).
      unfold adjusted. now rewrite Hcand.
    + destruct Hreach as (features & probs & rows & looped_tokens
                          & looped_sums & looped_probs & w1 & grouped_tokens
                          & grouped_sums & finalized & Htask & Hfeat & Hdet
                          & Hloop & Haf & Hnsp & Hlen1 & Hlen2 & Hr3 & Hr2
                          & Hfin & Htrim & Hlid).
      unfold DecodingTask.run, bind, lift.
      destruct (DecodingTask.decoder_reset w) as [r0 w0] eqn:Hreset.
      unfold DecodingTask.decoder_reset in Hreset.
      injection Hreset as <- <-. simpl in Hloop.
      rewrite Hfeat, Hdet, Htask, Hloop, Haf, Hnsp.
      rewrite (proj2 (Nat.eqb_eq _ _) Hlen1), (proj2 (Nat.eqb_eq _ _) Hlen2).
      cbn [negb andb]. cbv beta iota.
      rewrite Hr3. cbv beta iota. rewrite Hr2. cbv beta iota.
      rewrite Hfin. cbv beta iota. rewrite Htrim. cbv beta iota.
      rewrite Hlid. cbv beta iota. rewrite Hrun. cbv beta iota.
      destruct (MaximumLikelihoodRanker.rank _ _ _ _) as [selected|e];
        [|reflexivity].
      cbn [rbind]. unfold collect_results.
      destruct (mapM _ (combine selected tokens)) as [chosen|e];
        [|reflexivity].
      cbn [rbind].
      destruct (mapM _ (combine selected out)) as [sums|e];
        [|reflexivity].
      cbn [rbind]. cbv zeta.
      destruct (negb _); reflexivity.
  - eexists. split; [|split; [|split]].
    + exists [[1%Q]], (Some [[("en"%string, 1%Q)]]), [[5; 6]],
        [[5; 6; 1]; [5; 6; 2]], [2%Q; 1%Q], [None; None],
        (snd (DecodingTask._main_loop picky_backend two_word_task [[1%Q]]
                [[5; 6]; [5; 6]]
                (snd (DecodingTask.decoder_reset two_word_world)))),
        [[[5; 6; 1]; [5; 6; 2]]], [[2%Q; 1%Q]],
        [[[5; 6; 1; 0]; [5; 6; 2; 0]]].
      repeat split; vm_compute; reflexivity.
    + vm_compute. reflexivity.
    + vm_compute. reflexivity.
    + vm_compute. reflexivity.
Qed.

Lemma language_check_penalises_first_audio_witness :
  exists w' out row,
    DecodingTask.penalise picky_backend two_word_task [[[1]; [2]]]
      [[2%Q; 1%Q]] = Ok out
    /\ out !! 0%nat = Some row
    /\ row = [(2 - 7)%Q; 1%Q]
    /\ DecodingTask.run picky_backend two_word_task [[1%Q]] two_word_world
       = ((let* selected :=
             MaximumLikelihoodRanker.rank pow_integral None [[[1]; [2]]]
               out in
           collect_results picky_backend two_word_task [Some "en"%string]
             [[1%Q]] [None] [[[1]; [2]]] selected out)%result, w').
Proof.
  destruct (proj2 language_check_penalises_first_audio)
    as (w' & Hreach & _).
  destruct (proj1 language_check_penalises_first_audio picky_backend
              two_word_task [[1%Q]] two_word_world w' [Some "en"%string]
              [[1%Q]] [None] [[[1]; [2]]] [[2%Q; 1%Q]] [[1]; [2]]
              [2%Q; 1%Q] Hreach eq_refl eq_refl (le_n 2))
    as (out & row & Hpen & _ & _ & Hrow & Hlen & Hvals & Hrun).
  exists w', out, row. split; [exact Hpen |]. split; [exact Hrow |].
  split; [|exact Hrun].
  pose proof (Hvals 0%nat 2%Q [1] eq_refl eq_refl) as H0.
  pose proof (Hvals 1%nat 1%Q [2] eq_refl eq_refl) as H1.
  destruct row as [|x [|y [|z row]]]; try discriminate Hlen.
  simpl in H0, H1. injection H0 as ->. injection H1 as ->. reflexivity.
Defined.

(* ================================================================= *)
(** * Part III: further properties of the code *)
(* ================================================================= *)

(** ** Options and the initial context *)

(** X1: the number of prefix tokens that [_get_initial_tokens] keeps, in
    the three regimes of the budget [b = n_ctx // 2 - sample_len]: at
    most [b] for a positive budget, all of them for a zero budget, all
    but the first [-b] for a negative budget; and what is kept is always
    the end of the prefix. *)
Theorem kept_prefix_length (n_ctx sample_len : Z) (p : list Z) :
  let b := n_ctx / 2 - sample_len in
  Z.of_nat (length (DecodingTask.kept_prefix n_ctx sample_len p))
  = (if 0 <? b then Z.min b (Z.of_nat (length p))
     else Z.max 0 (Z.of_nat (length p) + b))
  /\ exists dropped, p = dropped ++ DecodingTask.kept_prefix n_ctx sample_len p.
Proof.
  intros b. unfold DecodingTask.kept_prefix. fold b. split.
  - rewrite py_slice_from_length.
    destruct (- b <? 0) eqn:E1; destruct (0 <? b) eqn:E2;
      try apply Z.ltb_lt in E1; try apply Z.ltb_ge in E1;
      try apply Z.ltb_lt in E2; try apply Z.ltb_ge in E2; lia.
  - unfold py_slice_from. eexists. symmetry. apply firstn_skipn.
Qed.

Lemma verify_options_cases (o : DecodingOptions.t) :
  (DecodingTask._verify_options o = Ok o /\ valid_options o)
  \/ ((exists msg, DecodingTask._verify_options o = Raise (ValueError msg))
      /\ ~ valid_options o).
Proof.
  unfold DecodingTask._verify_options, valid_options.
  destruct (bool_decide (is_Some (DecodingOptions.beam_size o))
            && bool_decide (is_Some (DecodingOptions.best_of o)))%bool eqn:E1.
  { right. split; [eauto |]. intros (H & _). apply H.
    apply andb_true_iff in E1 as [Ha Hb].
    apply bool_decide_eq_true in Ha, Hb. now split. }
  destruct (Qeq_bool (DecodingOptions.temperature o) 0
            && bool_decide (is_Some (DecodingOptions.best_of o)))%bool eqn:E2.
  { right. split; [eauto |]. intros (_ & H & _). apply H.
    apply andb_true_iff in E2 as [Ha Hb].
    apply bool_decide_eq_true in Hb.
    split; [now apply Qeq_bool_iff | assumption]. }
  destruct (bool_decide (is_Some (DecodingOptions.patience o))
            && negb (bool_decide (is_Some (DecodingOptions.beam_size o))))%bool
    eqn:E3.
  { right. split; [eauto |]. intros (_ & _ & H & _).
    apply andb_true_iff in E3 as [Ha Hb].
    apply bool_decide_eq_true in Ha. apply negb_true_iff in Hb.
    apply bool_decide_eq_false in Hb. auto. }
  assert (~ (is_Some (DecodingOptions.beam_size o)
             /\ is_Some (DecodingOptions.best_of o))) as V1.
  { intros [Ha Hb]. apply andb_false_iff in E1 as [E|E];
      apply bool_decide_eq_false in E; contradiction. }
  assert (~ ((DecodingOptions.temperature o == 0)%Q
             /\ is_Some (DecodingOptions.best_of o))) as V2.
  { intros [Ha Hb]. apply andb_false_iff in E2 as [E|E].
    - apply Qeq_bool_iff in Ha. congruence.
    - apply bool_decide_eq_false in E. contradiction. }
  assert (is_Some (DecodingOptions.patience o)
          -> is_Some (DecodingOptions.beam_size o)) as V3.
  { intros Ha. apply andb_false_iff in E3 as [E|E].
    - apply bool_decide_eq_false in E. contradiction.
    - apply negb_false_iff in E. now apply bool_decide_eq_true in E. }
  destruct (DecodingOptions.length_penalty o) as [p|].
  - destruct (Qle_bool 0 p && Qle_bool p 1)%bool eqn:E4; simpl.
    + left. split; [reflexivity |].
      split; [exact V1 |]. split; [exact V2 |]. split; [exact V3 |].
      intros q [= <-]. apply andb_true_iff in E4 as [Ha Hb].
      split; now apply Qle_bool_iff.
    + right. split; [eauto |]. intros (_ & _ & _ & H).
      destruct (H p eq_refl) as [Ha Hb].
      apply Qle_bool_iff in Ha, Hb. rewrite Ha, Hb in E4. discriminate.
  - left. split; [reflexivity |].
    split; [exact V1 |]. split; [exact V2 |]. split; [exact V3 |].
    intros q [=].
Qed.

(** X2: [_verify_options] returns the options unchanged exactly when
    [beam_size] and [best_of] are not both given, [best_of] is not given
    at temperature zero, [patience] comes with [beam_size] and
    [length_penalty], when given, is between 0 and 1; every other
    record of options is refused with a [ValueError]. *)
Theorem verify_options_accepts (o : DecodingOptions.t) :
  (DecodingTask._verify_options o = Ok o <-> valid_options o)
  /\ (DecodingTask._verify_options o = Ok o
      \/ exists msg, DecodingTask._verify_options o = Raise (ValueError msg)).
Proof.
  destruct (verify_options_cases o) as [[Hok Hv]|[[msg Hbad] Hnv]].
  - split; [tauto | now left].
  - split; [|right; eauto]. split.
    + rewrite Hbad. discriminate.
    + intros Hv. contradiction.
Qed.

(** ** The sampling loop: forward passes and release of the cache *)

Section Forwards.
Import DecodingTask.

Lemma forwards_silent {A : Type} (m : M world A) :
  (forall w, trace (snd (m w)) = trace w) -> forwards 0 0 m.
Proof.
  intros H w. exists 0%nat. split; [lia |]. rewrite H. simpl.
  now rewrite app_nil_r.
Qed.

Lemma forwards_weaken {A : Type} (lo hi lo' hi' : nat) (m : M world A) :
  (lo' <= lo)%nat -> (hi <= hi')%nat -> forwards lo hi m -> forwards lo' hi' m.
Proof.
  intros Hlo Hhi H w. destruct (H w) as (k & Hk & Ht). exists k. split; [lia | auto].
Qed.

Lemma forwards_bind {A B : Type} (lo hi hi' : nat) (m : M world A)
    (k : A -> M world B) :
  forwards lo hi m -> (forall a, forwards 0 hi' (k a)) ->
  forwards lo (hi + hi') (bind m k).
Proof.
  intros Hm Hk w. unfold bind. destruct (Hm w) as (n & Hn & Ht).
  destruct (m w) as [[a|e] w1]; simpl in *.
  - destruct (Hk a w1) as (n' & Hn' & Ht'). exists (n + n')%nat.
    split; [lia |]. rewrite Ht', Ht, <- app_assoc. now rewrite repeat_app.
  - exists n. split; [lia | assumption].
Qed.

Lemma forwards_emit : forwards 1 1 (emit Forward).
Proof. intros w. exists 1%nat. split; [lia | reflexivity]. Qed.

Lemma forwards_on_inference {A : Type} (m : M PyTorchInference.t A) :
  forwards 0 0 (on_inference m).
Proof.
  apply forwards_silent. intros w. unfold on_inference, zoom.
  now destruct (m (inference w)).
Qed.

Lemma forwards_decoder_update be tokens logits sum_logprobs :
  forwards 0 0 (decoder_update be tokens logits sum_logprobs).
Proof.
  apply forwards_silent. intros w. unfold decoder_update.
  destruct (decoder w) as [d|d|d].
  - reflexivity.
  - now destruct (BeamSearchDecoder.update _ _ _ _) as [r [d' i']].
  - now destruct (BeamSearchDecoderWithLM.update _ _ _ _) as [r [d' i']].
Qed.

Lemma forwards_sample_loop be self audio_features (steps : list Z) tokens
    sum_logprobs no_speech_probs :
  forwards (match steps with [] => 0 | _ :: _ => 1 end) (length steps)
    (sample_loop be self audio_features steps tokens sum_logprobs
       no_speech_probs).
Proof.
  revert tokens sum_logprobs no_speech_probs.
  induction steps as [|i steps IH]; intros tokens sum_logprobs no_speech_probs;
    simpl.
  - now apply forwards_silent.
  - change (S (length steps)) with (1 + length steps)%nat.
    apply forwards_bind; [apply forwards_emit | intros _].
    change (length steps) with (0 + length steps)%nat.
    apply forwards_bind; [apply forwards_on_inference | intros logits].
    change (length steps) with (0 + length steps)%nat.
    apply forwards_bind; [now apply forwards_silent | intros nsp].
    change (length steps) with (0 + length steps)%nat.
    apply forwards_bind; [now apply forwards_silent | intros logits'].
    change (length steps) with (0 + length steps)%nat.
    apply forwards_bind; [now apply forwards_silent | intros logits''].
    change (length steps) with (0 + length steps)%nat.
    apply forwards_bind; [apply forwards_decoder_update | intros [[t c] s]].
    destruct (c || _)%bool.
    + apply forwards_weaken with (lo := 0%nat) (hi := 0%nat); try lia.
      now apply forwards_silent.
    + eapply forwards_weaken; [| |apply IH]; lia.
Qed.

(** X3: whatever happens in the sampling loop, [_main_loop] makes at
    most [sample_len] forward passes (at least one when [sample_len] is
    positive), then the clean-up as its last action, and leaves the
    key/value cache empty and no hook installed. *)
Theorem main_loop_releases_cache (be : Backend.t) (self : t)
    (audio_features : list (list Q)) (tokens : list (list Z)) (w : world) :
  let w' := snd (_main_loop be self audio_features tokens w) in
  (exists k,
     (Z.of_nat k <= Z.max 0 (sample_len self))
     /\ (0 < sample_len self -> (1 <= k)%nat)
     /\ trace w' = trace w ++ repeat Forward k ++ [Cleanup])
  /\ PyTorchInference.kv_cache (inference w') = ∅
  /\ PyTorchInference.hooks (inference w') = [].
Proof.
  intros w'. subst w'. unfold _main_loop, try_finally.
  pose proof (forwards_sample_loop be self audio_features
                (py_range (Z.to_nat (sample_len self))) tokens
                (repeat 0%Q (length tokens)) (repeat None (length tokens)) w)
    as (k & Hk & Ht).
  destruct (sample_loop _ _ _ _ _ _ _ w) as [r w1]. simpl in Ht.
  unfold cleanup, bind, emit, on_inference, zoom. simpl.
  split; [|split; reflexivity].
  exists k. unfold py_range in Hk. rewrite length_map, length_seq in Hk.
  split; [lia |]. split.
  - intros Hpos. destruct (map Z.of_nat (seq 0 (Z.to_nat (sample_len self))))
      eqn:E; [|lia].
    apply (f_equal (@length Z)) in E. rewrite length_map, length_seq in E.
    simpl in E. lia.
  - rewrite Ht. now rewrite <- app_assoc.
Qed.

End Forwards.

(** ** GreedyDecoder: rows that are still being decoded *)

Section GreedyLive.
Import GreedyDecoder.

Lemma np_argmax_ok (l : list Q) (n : Z) :
  np_argmax l = Ok n -> exists i, n = Z.of_nat i /\ is_first_argmax l i.
Proof.
  intros H. destruct (np_argmax_first l) as (i & Hi & Hfirst).
  { intros ->. discriminate. }
  exists i. split; [congruence | assumption].
Qed.

(** X4: whenever [update] returns, the batch keeps its number of rows,
    and every row that does not yet end with end-of-text is extended by
    exactly one token: at temperature 0 the index of the first maximum of
    its logits row, otherwise the sampled token of that row; its
    cumulative log-probability grows by the log-probability of that
    token. *)
Theorem greedy_update_extends_live_rows (self : t)
    (tokens : list (list Z)) (logits logprobs : list (list Q))
    (sampled : list Z) (sum_logprobs : list Q)
    (tokens' : list (list Z)) (completed : bool) (sum_logprobs' : list Q) :
  update self tokens logits logprobs sampled sum_logprobs
    = Ok (tokens', completed, sum_logprobs') ->
  length tokens' = length tokens
  /\ length sum_logprobs' = length tokens
  /\ forall k row,
       tokens !! k = Some row -> last row <> Some (eot self) ->
       exists n prow p s s',
         (if Qeq_bool (temperature self) 0
          then exists lrow i, logits !! k = Some lrow /\ n = Z.of_nat i
                 /\ is_first_argmax lrow i
          else sampled !! k = Some n)
         /\ tokens' !! k = Some (row ++ [n])
         /\ logprobs !! k = Some prow /\ py_index prow n = Ok p
         /\ sum_logprobs !! k = Some s /\ sum_logprobs' !! k = Some s'
         /\ (s' == s + p)%Q.
Proof.
  unfold update. intros H.
  destruct (if Qeq_bool (temperature self) 0 then mapM np_argmax logits
            else Ok sampled) as [next|e] eqn:Hnext; [|discriminate].
  cbn [rbind] in H.
  destruct (select_rows logprobs next) as [current|e] eqn:Hcur;
    [|discriminate].
  cbn [rbind] in H.
  destruct (last_column tokens) as [lasts|e] eqn:Hlast; [|discriminate].
  cbn [rbind] in H.
  destruct (length current =? length lasts)%nat eqn:E1; [|discriminate].
  destruct (length sum_logprobs =? length lasts)%nat eqn:E2; [|discriminate].
  simpl in H. injection H as <- _ <-.
  apply Nat.eqb_eq in E1, E2.
  unfold select_rows in Hcur.
  destruct (length logprobs =? length next)%nat eqn:E3; [|discriminate].
  apply Nat.eqb_eq in E3. simpl in Hcur.
  apply mapM_lookup in Hcur as [Hcl Hcrows].
  rewrite length_combine in Hcl.
  apply mapM_lookup in Hlast as [Hll Hlrows].
  assert (length next = length tokens) as Hn by lia.
  split; [|split].
  - rewrite !length_zip_with. lia.
  - rewrite length_zip_with, length_combine. lia.
  - intros k row Hk Hlive.
    assert (k < length tokens)%nat as Hlt by (now apply lookup_lt_Some in Hk).
    destruct (Hlrows k row Hk) as (l & Hl & Hrow).
    destruct (last row) as [x|] eqn:Elast; [|discriminate].
    injection Hrow as ->.
    assert ((l =? eot self) = false) as Hneq
      by (apply Z.eqb_neq; congruence).
    destruct (lookup_lt_is_Some_2 next k) as [n Hnk]; [lia |].
    destruct (lookup_lt_is_Some_2 logprobs k) as [prow Hp]; [lia |].
    destruct (lookup_lt_is_Some_2 sum_logprobs k) as [s Hs]; [lia |].
    destruct (Hcrows k (prow, n)) as (p & Hpk & Hidx).
    { change (combine logprobs next) with (zip_with pair logprobs next).
      rewrite lookup_zip_with, Hp. simpl. now rewrite Hnk. }
    simpl in Hidx.
    exists n, prow, p, s. eexists. split; [|split; [|split; [|split;
      [|split; [|split]]]]]; try eassumption.
    + destruct (Qeq_bool (temperature self) 0).
      * apply mapM_lookup in Hnext as [Hnl Hnrows].
        destruct (lookup_lt_is_Some_2 logits k) as [lrow Hlr]; [lia |].
        destruct (Hnrows k lrow Hlr) as (y & Hy & Harg).
        assert (y = n) as -> by congruence.
        apply np_argmax_ok in Harg as (i & -> & Hfirst).
        exists lrow, i. auto.
      * injection Hnext as ->. assumption.
    + rewrite lookup_zip_with, Hk. simpl.
      rewrite lookup_zip_with, Hnk. simpl. rewrite Hl. simpl.
      now rewrite Hneq.
    + rewrite lookup_zip_with, Hs. simpl.
      change (combine current lasts) with (zip_with pair current lasts).
      rewrite lookup_zip_with, Hpk. simpl. rewrite Hl. simpl. reflexivity.
    + simpl. rewrite Hneq. simpl. ring.
Qed.

Lemma greedy_update_extends_live_rows_witness :
  let self := {| temperature := 0; eot := 3 |} in
  let tokens := [[0; 3]; [0; 1]] in
  let logits := [[(1#2)%Q; 2%Q; 0%Q; 1%Q]; [0%Q; 5%Q; 0%Q; 5%Q]] in
  let logprobs := [[(-2)%Q; (-1#2)%Q; (-3)%Q; (-1)%Q];
                   [(-5)%Q; (-1#10)%Q; (-5)%Q; (-1#10)%Q]] in
  let sum_logprobs := [(-7)%Q; (-4)%Q] in
  let tokens' := [[0; 3; 3]; [0; 1; 1]] in
  let sum_logprobs' := [(-7 + (-1 # 2) * 0)%Q; (-4 + (-1 # 10) * 1)%Q] in
  update self tokens logits logprobs [] sum_logprobs
    = Ok (tokens', false, sum_logprobs')
  /\ length tokens' = length tokens.
Proof.
  intros self tokens logits logprobs sum_logprobs tokens' sum_logprobs'.
  split; [reflexivity |].
  exact (proj1 (greedy_update_extends_live_rows self tokens logits logprobs []
                  sum_logprobs tokens' false sum_logprobs' eq_refl)).
Defined.

End GreedyLive.

(** ** Beam search: the rows handed back by [update] *)

Section BeamRows.
Import BeamSearchDecoder.

Lemma foldM_invariant {A B : Type} (I : nat -> B -> Prop)
    (f : B -> A -> result B) (l : list A) (b b' : B) (n : nat) :
  (forall n b a b', I n b -> f b a = Ok b' -> I (S n) b') ->
  I n b -> foldM f l b = Ok b' -> I (n + length l)%nat b'.
Proof.
  intros Hstep. revert b n.
  induction l as [|a l IH]; intros b n Hb H; simpl in H.
  - injection H as <-. simpl. now rewrite Nat.add_0_r.
  - destruct (f b a) as [b1|e] eqn:Hf; [|discriminate]. simpl in H.
    simpl length. rewrite Nat.add_succ_r.
    apply (IH b1 (S n)); eauto.
Qed.

Lemma py_setitem_length {A : Type} (xs xs' : list A) (i : Z) (v : A) :
  py_setitem xs i v = Ok xs' -> length xs' = length xs.
Proof.
  unfold py_setitem. cbv zeta. case_match; [discriminate |].
  intros [= <-]. apply length_insert.
Qed.

Lemma dict_set_In {V : Type} (k : list Z) (v : V) (d : dict V)
    (k' : list Z) (v' : V) :
  In (k', v') (dict_set k v d) -> k' = k \/ In (k', v') d.
Proof.
  induction d as [|[k0 v0] d IH]; simpl.
  - intros [[= <- <-]|[]]. now left.
  - destruct (bool_decide (k0 = k)) eqn:E.
    + apply bool_decide_eq_true in E. subst k0.
      intros [[= <- <-]|H]; [now left | right; now right].
    + intros [H|H]; [right; now left |].
      destruct (IH H); [now left | right; now right].
Qed.

Lemma insert_sorted_In {K : Type} (follows : Q -> Q -> bool) (x : K * Q)
    (l : list (K * Q)) (y : K * Q) :
  In y (insert_sorted follows x l) -> y = x \/ In y l.
Proof.
  induction l as [|z l IH]; simpl.
  - intros [<-|[]]. now left.
  - destruct (follows _ _); simpl.
    + intros [<-|H]; [right; now left |].
      destruct (IH H); [now left | right; now right].
    + intros [<-|H]; [now left | now right].
Qed.

Lemma sorted_desc_In {K : Type} (l : list (K * Q)) (y : K * Q) :
  In y (sorted_desc l) -> In y l.
Proof.
  unfold sorted_desc. induction l as [|x l IH]; simpl; [tauto |].
  intros H. apply insert_sorted_In in H as [->|H]; [now left | right; auto].
Qed.

Variable row_hook : list Z -> result unit.
Variable self : t.
Variable tokens : list (list Z).

Let keys_extend (d : dict Q) : Prop :=
  forall k v, In (k, v) d -> extends_row tokens k.

Let live_rows (rows : list (list Z)) : Prop :=
  Forall (fun row => last row <> Some (eot self) /\ extends_row tokens row)
         rows.

Lemma expand_row_keys logprobs sum_logprobs acc idx acc' :
  expand_row row_hook self tokens logprobs sum_logprobs acc idx = Ok acc' ->
  keys_extend (fst acc) -> keys_extend (fst acc').
Proof using Type.
  unfold expand_row. intros H Hacc.
  destruct (py_index tokens idx) as [prefix|e] eqn:Hp; [|discriminate].
  simpl in H.
  destruct (row_hook prefix); [|discriminate]. simpl in H.
  destruct (py_index logprobs idx) as [row|e]; [|discriminate]. simpl in H.
  destruct (topk _ row) as [top|e]; [|discriminate]. simpl in H.
  apply (foldM_invariant (fun _ a => keys_extend (fst a)) _ _ _ _ 0%nat) in H;
    auto.
  intros _ b tl b' Hb Hf.
  destruct (py_index sum_logprobs idx); [|discriminate]. simpl in Hf.
  injection Hf as <-. simpl.
  intros k v Hin. apply dict_set_In in Hin as [->|Hin]; [|eauto].
  exists idx, prefix, (fst tl). auto.
Qed.

Lemma select_live sources candidates saved st st' :
  select self sources candidates saved st = Ok st' ->
  0 <= saved < beam_size self ->
  (forall seq score, In (seq, score) candidates -> extends_row tokens seq) ->
  live_rows (sel_next_tokens st) ->
  live_rows (sel_next_tokens st')
  /\ length (sel_sum_logprobs st') = length (sel_sum_logprobs st)
  /\ Z.of_nat (length (sel_next_tokens st'))
     <= Z.of_nat (length (sel_next_tokens st)) + (beam_size self - saved).
Proof using Type.
  revert saved st.
  induction candidates as [|[seq score] rest IH]; intros saved st H Hsaved
    Hcand Hlive; simpl in H.
  - injection H as <-. repeat split; auto. lia.
  - assert (forall seq score, In (seq, score) rest -> extends_row tokens seq)
      as Hrest by (intros s c Hin; apply (Hcand s c); now right).
    destruct (last seq) as [x|] eqn:Elast; [|discriminate].
    destruct (x =? eot self) eqn:Eeot.
    + apply IH in H; auto.
    + destruct (py_setitem _ _ _) as [sums|e] eqn:Hset; [|discriminate].
      simpl in H. apply py_setitem_length in Hset.
      destruct (dict_get seq sources) as [source|]; [|discriminate].
      simpl in H.
      assert (live_rows (sel_next_tokens st ++ [seq])) as Hlive'.
      { apply Forall_app. split; [exact Hlive |]. constructor; [|constructor].
        split.
        - rewrite Elast. intros [= ->]. rewrite Z.eqb_refl in Eeot.
          discriminate.
        - apply (Hcand seq score). now left. }
      destruct (saved + 1 =? beam_size self) eqn:Efull.
      * injection H as <-. simpl. split; [exact Hlive' |].
        split; [exact Hset |]. rewrite length_app. simpl. lia.
      * apply Z.eqb_neq in Efull. apply IH in H; auto; [|lia].
        simpl in H. destruct H as (H1 & H2 & H3).
        split; [exact H1 |]. split; [congruence |].
        rewrite length_app in H3. simpl in H3. lia.
Qed.

Lemma step_group_live logprobs st i st' :
  step_group row_hook self tokens logprobs st i = Ok st' ->
  live_rows (sel_next_tokens (fst st)) ->
  live_rows (sel_next_tokens (fst st'))
  /\ length (sel_sum_logprobs (fst st')) = length (sel_sum_logprobs (fst st))
  /\ Z.of_nat (length (sel_next_tokens (fst st')))
     <= Z.of_nat (length (sel_next_tokens (fst st)))
        + Z.max 0 (beam_size self).
Proof using Type.
  unfold step_group. intros H Hlive.
  destruct (foldM _ _ _) as [ss|e] eqn:Hss; [|discriminate]. simpl in H.
  destruct (select _ _ _ _ _) as [sel|e] eqn:Hsel; [|discriminate].
  simpl in H. injection H as <-. simpl.
  destruct (Z.ltb 0 (beam_size self)) eqn:Hpos.
  - apply Z.ltb_lt in Hpos.
    apply select_live in Hsel; simpl in *; [| lia | | exact Hlive].
    + destruct Hsel as (H1 & H2 & H3). repeat split; auto. lia.
    + intros seq score Hin. apply sorted_desc_In in Hin.
      apply (foldM_invariant (fun _ a => keys_extend (fst a)) _ _ _ _ 0%nat)
        in Hss.
      * exact (Hss seq score Hin).
      * intros _ b a b' Hb Hf. eapply expand_row_keys; eauto.
      * intros k v [].
  - apply Z.ltb_ge in Hpos.
    assert (Z.to_nat (beam_size self) = 0%nat) as E by lia.
    rewrite E in Hss. simpl in Hss. injection Hss as <-.
    simpl in Hsel. injection Hsel as <-. simpl. repeat split; auto. lia.
Qed.

End BeamRows.

Lemma update_with_live (row_hook : list Z -> result unit)
    (tokens : list (list Z)) (logprobs : list (list Q))
    (sum_logprobs : list Q) (w : BeamSearchDecoder.world) :
  live_output (BeamSearchDecoder.eot (fst w)) tokens sum_logprobs
    (fst (BeamSearchDecoder.update_with row_hook tokens logprobs
            sum_logprobs w)).
Proof.
  destruct w as [self inf].
  unfold BeamSearchDecoder.update_with, bind, get, put, lift. simpl.
  destruct (BeamSearchDecoder.beam_size self =? 0) eqn:Hzero; [exact I |].
  destruct (Z.of_nat (length tokens) mod BeamSearchDecoder.beam_size self =? 0)
    eqn:Hmod; [|exact I].
  simpl. apply Z.eqb_neq in Hzero. apply Z.eqb_eq in Hmod.
  destruct (foldM _ _ _) as [st|e] eqn:Hfold; [|exact I].
  unfold zoom. simpl.
  destruct (PyTorchInference.rearrange_kv_cache _ _) as [[[]|e] inf'];
    [|exact I].
  destruct (negb _); [exact I |]. simpl.
  apply (foldM_invariant
           (fun n (st : BeamSearchDecoder.selection * list (dict Q)) =>
              Forall (fun row => last row <> Some (BeamSearchDecoder.eot self)
                                 /\ extends_row tokens row)
                     (BeamSearchDecoder.sel_next_tokens (fst st))
              /\ length (BeamSearchDecoder.sel_sum_logprobs (fst st))
                 = length sum_logprobs
              /\ Z.of_nat (length (BeamSearchDecoder.sel_next_tokens (fst st)))
                 <= Z.of_nat n * Z.max 0 (BeamSearchDecoder.beam_size self))
           _ _ _ _ 0%nat) in Hfold.
  - destruct Hfold as (Hlive & Hlen & Hcount). simpl in Hcount.
    unfold py_range in Hcount. rewrite length_map, length_seq in Hcount.
    split; [|split; [exact Hlen |]].
    + pose proof (Z_div_exact_full_2 _ _ Hzero Hmod) as Hexact.
      destruct (Z.ltb 0 (BeamSearchDecoder.beam_size self)) eqn:Hpos.
      * apply Z.ltb_lt in Hpos.
        assert (0 <= Z.of_nat (length tokens) / BeamSearchDecoder.beam_size self)
          by (apply Z.div_pos; lia).
        rewrite Z2Nat.id in Hcount by assumption. nia.
      * apply Z.ltb_ge in Hpos. nia.
    + intros row Hrow. rewrite Forall_forall in Hlive. now apply Hlive.
  - intros n b a b' (H1 & H2 & H3) Hstep.
    apply step_group_live in Hstep; [|exact H1].
    destruct Hstep as (G1 & G2 & G3). split; [exact G1 |].
    split; [congruence |]. nia.
  - simpl. repeat split; auto. lia.
Qed.

(** X5: when either beam-search decoder returns from [update], it hands
    back no more rows than it was given, every returned row is an input
    row followed by one token that is not end-of-text (sequences ending
    with end-of-text go to the finished sets instead), and the tensor of
    cumulative log-probabilities keeps its size. *)
Theorem beam_update_returns_live_rows :
  (forall (tokens : list (list Z)) (logprobs : list (list Q))
          (sum_logprobs : list Q) (w : BeamSearchDecoder.world),
     live_output (BeamSearchDecoder.eot (fst w)) tokens sum_logprobs
       (fst (BeamSearchDecoder.update tokens logprobs sum_logprobs w)))
  /\ (forall (tokens : list (list Z)) (logprobs : list (list Q))
             (sum_logprobs : list Q) (w : BeamSearchDecoderWithLM.world),
        live_output
          (BeamSearchDecoder.eot (BeamSearchDecoderWithLM.base (fst w)))
          tokens sum_logprobs
          (fst (BeamSearchDecoderWithLM.update tokens logprobs sum_logprobs
                  w))).
Proof.
  split; intros tokens logprobs sum_logprobs w.
  - apply update_with_live.
  - unfold BeamSearchDecoderWithLM.update, zoom.
    pose proof (update_with_live
                  (BeamSearchDecoderWithLM.row_hook (fst w)) tokens logprobs
                  sum_logprobs (BeamSearchDecoderWithLM.base (fst w), snd w))
      as H.
    destruct (BeamSearchDecoder.update_with _ _ _ _ _) as [r bw].
    exact H.
Qed.

(** ** BeamSearchDecoderWithLM: the language-model score is not used *)

Section LmScore.
Import BeamSearchDecoder.

Lemma foldM_ext {A B : Type} (f g : B -> A -> result B) (l : list A) (b : B) :
  (forall b a, f b a = g b a) -> foldM f l b = foldM g l b.
Proof.
  intros Hfg. revert b. induction l as [|a l IH]; intros b; simpl.
  - reflexivity.
  - rewrite Hfg. destruct (g b a); simpl; [apply IH | reflexivity].
Qed.

Lemma py_index_elem {A : Type} (xs : list A) (i : Z) (x : A) :
  py_index xs i = Ok x -> x ∈ xs.
Proof.
  unfold py_index. cbv zeta. case_match; [discriminate |].
  destruct (xs !! _) as [y|] eqn:Hy; [|discriminate].
  intros [= <-]. eapply list_elem_of_lookup_2; eauto.
Qed.

Lemma update_with_silent_hook (row_hook : list Z -> result unit)
    (tokens : list (list Z)) (logprobs : list (list Q))
    (sum_logprobs : list Q) (w : world) :
  (forall row, row ∈ tokens -> row_hook row = Ok tt) ->
  update_with row_hook tokens logprobs sum_logprobs w
  = update tokens logprobs sum_logprobs w.
Proof.
  intros Hhook.
  assert (forall self l b,
            foldM (step_group row_hook self tokens logprobs) l b
            = foldM (step_group (fun _ => Ok tt) self tokens logprobs) l b)
    as Hfold.
  { intros self l b. apply foldM_ext. intros st i. unfold step_group.
    rewrite (foldM_ext
               (expand_row row_hook self tokens logprobs
                  (sel_sum_logprobs (fst st)))
               (expand_row (fun _ => Ok tt) self tokens logprobs
                  (sel_sum_logprobs (fst st)))); [reflexivity |].
    intros acc idx. unfold expand_row.
    destruct (py_index tokens idx) as [prefix|e] eqn:Hp; [|reflexivity].
    simpl. rewrite Hhook; [reflexivity |]. eapply py_index_elem; eauto. }
  unfold update, update_with, bind, get, put, lift.
  destruct (beam_size (fst w) =? 0); [reflexivity |].
  destruct (negb _); [reflexivity |].
  now rewrite Hfold.
Qed.

(** X6: the language-model score that [BeamSearchDecoderWithLM.update]
    computes for each row is never used.  Whenever that scoring raises
    for no row of the batch, the call returns the same tokens, flag and
    cumulative log-probabilities as [BeamSearchDecoder.update] on the
    same decoder state, and leaves the same finished sets and cache. *)
Theorem lm_update_ignores_lm_score (tokens : list (list Z))
    (logprobs : list (list Q)) (sum_logprobs : list Q)
    (w : BeamSearchDecoderWithLM.world) :
  (forall row, row ∈ tokens ->
     BeamSearchDecoderWithLM.row_hook (fst w) row = Ok tt) ->
  BeamSearchDecoderWithLM.update tokens logprobs sum_logprobs w
  = (let '(r, bw) :=
       update tokens logprobs sum_logprobs
              (BeamSearchDecoderWithLM.base (fst w), snd w) in
     (r, (BeamSearchDecoderWithLM.set_base (fst w) (fst bw), snd bw))).
Proof.
  intros Hhook. unfold BeamSearchDecoderWithLM.update, zoom.
  now rewrite update_with_silent_hook.
Qed.

Lemma lm_update_ignores_lm_score_witness :
  let d := {| beam_size := 1; eot := 3; patience := 1; max_candidates := 1;
              finished_sequences := None; data_list := [] |} in
  let w := ({| BeamSearchDecoderWithLM.base := d;
               BeamSearchDecoderWithLM.lm := Some counting_kenlm;
               BeamSearchDecoderWithLM.lm_alpha := 1 # 2;
               BeamSearchDecoderWithLM.lm_beta := 1 # 2;
               BeamSearchDecoderWithLM.select_candidates := Some 100 |},
            toy_inference) in
  let row := [50258; 50259; 50358; 50363; 11; 12] in
  let logprobs := [[(-1)%Q; (-2)%Q; (-3)%Q; (-4)%Q]] in
  BeamSearchDecoderWithLM.lm_prefix_score counting_kenlm row = Ok (-(2))%Q
  /\ BeamSearchDecoderWithLM.update [row] logprobs [0%Q] w
     = (let '(r, bw) := update [row] logprobs [0%Q] (d, toy_inference) in
        (r, (BeamSearchDecoderWithLM.set_base (fst w) (fst bw), snd bw)))
  /\ fst (BeamSearchDecoderWithLM.update [row] logprobs [0%Q] w)
     = Ok ([row ++ [0]], false, [(0 + -1)%Q]).
Proof.
  intros d w row logprobs.
  assert (forall r, r ∈ [row] ->
            BeamSearchDecoderWithLM.row_hook (fst w) r = Ok tt) as Hhook.
  { intros r Hr. apply list_elem_of_In in Hr.
    destruct Hr as [<-|[]]. reflexivity. }
  split; [reflexivity |]. split.
  - exact (lm_update_ignores_lm_score [row] logprobs [0%Q] w Hhook).
  - rewrite (lm_update_ignores_lm_score [row] logprobs [0%Q] w Hhook).
    reflexivity.
Defined.

Lemma update_with_hook_raises (row_hook : list Z -> result unit)
    (tokens : list (list Z)) (logprobs : list (list Q))
    (sum_logprobs : list Q) (w : world) (row : list Z) (e : exn) :
  0 < beam_size (fst w) ->
  (beam_size (fst w) | Z.of_nat (length tokens)) ->
  tokens !! 0%nat = Some row ->
  row_hook row = Raise e ->
  fst (update_with row_hook tokens logprobs sum_logprobs w) = Raise e
  /\ snd (snd (update_with row_hook tokens logprobs sum_logprobs w)) = snd w.
Proof.
  intros Hpos Hdiv Hrow Hhook. destruct w as [self inf]. simpl in Hpos, Hdiv.
  unfold update_with, bind, get, put, lift. simpl.
  destruct (beam_size self =? 0) eqn:Hzero; [apply Z.eqb_eq in Hzero; lia |].
  apply Z.mod_divide in Hdiv; [|lia]. rewrite Hdiv. simpl.
  assert (0 < Z.of_nat (length tokens)) as Hrows.
  { apply lookup_lt_Some in Hrow. lia. }
  assert (0 < Z.of_nat (length tokens) / beam_size self) as Hn.
  { apply Z.div_str_pos. split; [lia |].
    apply Z.divide_pos_le; [lia |]. now apply Z.mod_divide; [lia |]. }
  destruct (Z.to_nat (Z.of_nat (length tokens) / beam_size self))
    as [|n] eqn:En; [lia |].
  assert (forall st, step_group row_hook self tokens logprobs st 0 = Raise e)
    as Hstep.
  { intros st. unfold step_group.
    destruct (Z.to_nat (beam_size self)) as [|b] eqn:Eb; [lia |].
    unfold py_range. cbn [seq map foldM]. unfold expand_row at 1.
    change (0 * beam_size self + Z.of_nat 0) with 0.
    pose proof (py_index_nat tokens 0 row Hrow) as Hp.
    change (Z.of_nat 0) with 0 in Hp. rewrite Hp. cbn [rbind].
    rewrite Hhook. reflexivity. }
  unfold py_range. cbn [seq map foldM]. change (Z.of_nat 0) with 0.
  rewrite Hstep. simpl. split; reflexivity.
Qed.

(** X7: the per-row scoring of [BeamSearchDecoderWithLM.update] stops the
    call on the first row of a batch (a positive [beam_size] dividing a
    non-empty batch): with a [ValueError] when the row does not contain
    the token 50258, and with an [AttributeError] when it contains it,
    is longer than four tokens and no language model was loaded.  The
    cache is left as it was. *)
Theorem lm_update_first_row_errors (tokens : list (list Z))
    (logprobs : list (list Q)) (sum_logprobs : list Q)
    (w : BeamSearchDecoderWithLM.world) (row : list Z) :
  let self := fst w in
  0 < beam_size (BeamSearchDecoderWithLM.base self) ->
  (beam_size (BeamSearchDecoderWithLM.base self) | Z.of_nat (length tokens)) ->
  tokens !! 0%nat = Some row ->
  (50258 ∉ row \/
   (4 < Z.of_nat (length row) /\ BeamSearchDecoderWithLM.lm self = None)) ->
  fst (BeamSearchDecoderWithLM.update tokens logprobs sum_logprobs w)
  = Raise (if bool_decide (50258 ∈ row) then AttributeError
           else ValueError "50258 is not in list")
  /\ snd (snd (BeamSearchDecoderWithLM.update tokens logprobs sum_logprobs w))
     = snd w.
Proof.
  intros self Hpos Hdiv Hrow Hbad.
  assert (BeamSearchDecoderWithLM.row_hook self row
          = Raise (if bool_decide (50258 ∈ row) then AttributeError
                   else ValueError "50258 is not in list")) as Hhook.
  { unfold BeamSearchDecoderWithLM.row_hook.
    assert (forall xs, (exists i, list_index 50258 xs = Some i) <-> In 50258 xs)
      as Hidx.
    { induction xs as [|x xs IH]; simpl.
      - split; [intros [i [=]] | tauto].
      - destruct (x =? 50258) eqn:E.
        + apply Z.eqb_eq in E. split; [now left | eauto].
        + apply Z.eqb_neq in E. rewrite <- IH. split.
          * intros [i Hi]. destruct (list_index 50258 xs); [eauto | discriminate].
          * intros [Hx|[i Hi]]; [lia |]. rewrite Hi. simpl. eauto. }
    destruct (list_index 50258 row) as [i|] eqn:Hi.
    - assert (50258 ∈ row) as Hin by (apply list_elem_of_In, Hidx; eauto).
      rewrite bool_decide_eq_true_2 by assumption.
      destruct Hbad as [Hno|[Hlong Hlm]]; [contradiction |].
      apply Z.ltb_lt in Hlong. rewrite Hlong, Hlm. reflexivity.
    - rewrite bool_decide_eq_false_2; [reflexivity |].
      intros Hin. apply list_elem_of_In, Hidx in Hin as [i Hi']. congruence. }
  pose proof (update_with_hook_raises
                (BeamSearchDecoderWithLM.row_hook self) tokens logprobs
                sum_logprobs (BeamSearchDecoderWithLM.base self, snd w) row _
                Hpos Hdiv Hrow Hhook) as [H1 H2].
  unfold BeamSearchDecoderWithLM.update, zoom. fold self.
  destruct (update_with _ _ _ _ _) as [r bw]. simpl in *. auto.
Qed.

Lemma lm_update_first_row_errors_witness :
  let d := {| beam_size := 1; eot := 3; patience := 1; max_candidates := 1;
              finished_sequences := None; data_list := [] |} in
  let w := ({| BeamSearchDecoderWithLM.base := d;
               BeamSearchDecoderWithLM.lm := None;
               BeamSearchDecoderWithLM.lm_alpha := 1 # 2;
               BeamSearchDecoderWithLM.lm_beta := 1 # 2;
               BeamSearchDecoderWithLM.select_candidates := Some 100 |},
            toy_inference) in
  let tokens := [[50257; 50362; 7]] in
  let logprobs := [[(-1)%Q; (-2)%Q; (-3)%Q; (-4)%Q]] in
  fst (BeamSearchDecoderWithLM.update tokens logprobs [0%Q] w)
  = Raise (ValueError "50258 is not in list").
Proof.
  intros d w tokens logprobs.
  refine (proj1 (lm_update_first_row_errors tokens logprobs [0%Q] w
                   [50257; 50362; 7] _ _ eq_refl _)).
  - simpl. lia.
  - simpl. exists 1. reflexivity.
  - left. intros Hin. apply list_elem_of_In in Hin. simpl in Hin.
    destruct Hin as [H|[H|[H|[]]]]; discriminate.
Defined.

End LmScore.

(** ** Beam search: finished sequences end with end-of-text *)

Section FinishedEot.
Import BeamSearchDecoder.

Lemma keys_end_with_set (e : Z) (k : list Z) (v : Q) (d : dict Q) :
  last k = Some e -> keys_end_with e d -> keys_end_with e (dict_set k v d).
Proof.
  intros Hk Hd k' v' Hin. apply dict_set_In in Hin as [->|Hin]; eauto.
Qed.

Lemma select_finished (self : t) sources candidates saved st st' :
  select self sources candidates saved st = Ok st' ->
  keys_end_with (eot self) (sel_finished st) ->
  keys_end_with (eot self) (sel_finished st').
Proof.
  revert saved st.
  induction candidates as [|[seq score] rest IH]; intros saved st H Hfin;
    simpl in H.
  - now injection H as <-.
  - destruct (last seq) as [x|] eqn:Elast; [|discriminate].
    destruct (x =? eot self) eqn:Eeot.
    + apply Z.eqb_eq in Eeot. subst x. apply IH in H; auto. simpl.
      now apply keys_end_with_set.
    + destruct (py_setitem _ _ _); [|discriminate]. simpl in H.
      destruct (dict_get seq sources); [|discriminate]. simpl in H.
      destruct (_ =? beam_size self).
      * now injection H as <-.
      * apply IH in H; auto.
Qed.

Lemma step_group_finished row_hook (self : t) tokens logprobs st i st' :
  step_group row_hook self tokens logprobs st i = Ok st' ->
  Forall (keys_end_with (eot self)) (snd st) ->
  Forall (keys_end_with (eot self)) (snd st').
Proof.
  unfold step_group. intros H Hfin.
  destruct (foldM _ _ _) as [ss|e]; [|discriminate]. simpl in H.
  destruct (select _ _ _ _ _) as [sel|e] eqn:Hsel; [|discriminate].
  simpl in H. injection H as <-. simpl.
  apply Forall_app. split; [exact Hfin |]. constructor; [|constructor].
  apply select_finished in Hsel; [exact Hsel |]. intros k v [].
Qed.

Lemma merge_finished_eot (self : t) (prev : dict Q)
    (new : list (list Z * Q)) :
  keys_end_with (eot self) prev -> keys_end_with (eot self) new ->
  keys_end_with (eot self) (merge_finished self prev new).
Proof.
  revert prev. induction new as [|[seq score] new IH]; intros prev Hprev Hnew;
    simpl.
  - exact Hprev.
  - destruct (max_candidates self <=? _); [exact Hprev |].
    apply IH.
    + apply keys_end_with_set; [|exact Hprev]. apply (Hnew seq score). now left.
    + intros k v Hin. apply (Hnew k v). now right.
Qed.

Lemma finished_end_with_eot_set (d : t) (fs : list (dict Q)) :
  Forall (keys_end_with (eot d)) fs ->
  finished_end_with_eot (set_finished_sequences d (Some fs)).
Proof. intros Hfs fs'. simpl. now intros [= <-]. Qed.

Lemma update_with_finished_eot (row_hook : list Z -> result unit)
    tokens logprobs sum_logprobs (w w' : world) r :
  finished_end_with_eot (fst w) ->
  update_with row_hook tokens logprobs sum_logprobs w = (r, w') ->
  eot (fst w') = eot (fst w) /\ finished_end_with_eot (fst w').
Proof.
  intros Hinv Hrun. destruct w as [self inf].
  unfold update_with, bind, get in Hrun. simpl in Hrun. simpl in Hinv.
  destruct (beam_size self =? 0).
  { injection Hrun as <- <-. split; auto. }
  destruct (negb _).
  { injection Hrun as <- <-. split; auto. }
  unfold put, lift in Hrun.
  set (previous := match finished_sequences self with
                   | Some fs => fs
                   | None => repeat [] _
                   end) in Hrun.
  assert (Forall (keys_end_with (eot self)) previous) as Hprev.
  { subst previous. destruct (finished_sequences self) as [fs|] eqn:Hfs.
    - now apply Hinv.
    - apply Forall_forall. intros s Hs. apply list_elem_of_In in Hs.
      apply repeat_spec in Hs. subst s. intros k v []. }
  destruct (foldM _ _ _) as [st|e] eqn:Hfold.
  2:{ injection Hrun as <- <-. simpl. split; auto.
      now apply finished_end_with_eot_set. }
  unfold zoom in Hrun. simpl in Hrun.
  destruct (PyTorchInference.rearrange_kv_cache _ _) as [[[]|e] inf'].
  2:{ injection Hrun as <- <-. simpl. split; auto.
      now apply finished_end_with_eot_set. }
  destruct (negb _).
  { injection Hrun as <- <-. simpl. split; auto.
    now apply finished_end_with_eot_set. }
  injection Hrun as <- <-. simpl. split; auto.
  apply finished_end_with_eot_set.
  apply (foldM_invariant
           (fun _ (st : selection * list (dict Q)) =>
              Forall (keys_end_with (eot self)) (snd st))
           _ _ _ _ 0%nat) in Hfold.
  - apply Forall_forall. intros s Hs.
    apply list_elem_of_lookup in Hs as [i Hi].
    apply lookup_zip_with_Some in Hi as (p & n & -> & Hp & Hn).
    apply merge_finished_eot.
    + eapply Forall_lookup_1 in Hprev; eauto.
    + pose proof (Forall_lookup_1 _ _ _ _ Hfold Hn) as Hnew.
      unfold keys_end_with. intros k v Hin. apply sorted_desc_In in Hin.
      eauto.
  - intros _ b a b' Hb Hstep. eapply step_group_finished; eauto.
  - constructor.
Qed.

Lemma pad_sequences_eot (self : t) tokens_i sum_i js
    (sequences sequences' : dict Q) r :
  keys_end_with (eot self) sequences ->
  pad_sequences self tokens_i sum_i js sequences = (r, sequences') ->
  keys_end_with (eot self) sequences'.
Proof.
  revert sequences. induction js as [|j js IH]; intros sequences Hs Hrun;
    simpl in Hrun.
  - now injection Hrun as <- <-.
  - unfold bind, lift, get, put, ret in Hrun.
    destruct tokens_i as [rows|e]; [|now injection Hrun as <- <-].
    destruct (py_index rows j) as [row|e]; [|now injection Hrun as <- <-].
    destruct (py_index sum_i j) as [score|e]; [|now injection Hrun as <- <-].
    assert (keys_end_with (eot self)
              (dict_set (row ++ [eot self]) score sequences)) as Hs'.
    { apply keys_end_with_set; [apply last_snoc | exact Hs]. }
    destruct (beam_size self <=? _).
    + now injection Hrun as <- <-.
    + eapply IH; eauto.
Qed.

Lemma finalize_loop_eot (self : t) preceding_tokens sum_logprobs
    (fs fs' : list (dict Q)) (i : Z) r :
  Forall (keys_end_with (eot self)) fs ->
  finalize_loop self preceding_tokens sum_logprobs i fs = (r, fs') ->
  Forall (keys_end_with (eot self)) fs'.
Proof.
  intros Hfs. revert i r fs'.
  induction Hfs as [|sequences rest Hs Hrest IH]; intros i r fs' Hrun;
    simpl in Hrun.
  - injection Hrun as <- <-. constructor.
  - destruct (Z.of_nat (length sequences) <? beam_size self).
    + destruct (py_index sum_logprobs i) as [sum_i|e].
      * destruct (pad_sequences _ _ _ _ _) as [r1 sequences'] eqn:Hpad.
        apply pad_sequences_eot in Hpad; [|assumption].
        destruct r1 as [[]|e].
        -- destruct (finalize_loop _ _ _ _ rest) as [r' rest'] eqn:Hloop.
           injection Hrun as <- <-. constructor; [assumption |].
           eapply IH; eauto.
        -- injection Hrun as <- <-. now constructor.
      * injection Hrun as <- <-. now constructor.
    + destruct (finalize_loop _ _ _ _ rest) as [r' rest'] eqn:Hloop.
      injection Hrun as <- <-. constructor; [assumption |]. eapply IH; eauto.
Qed.

Lemma beam_reachable_eot (w : world) :
  beam_reachable w -> finished_end_with_eot (fst w).
Proof.
  induction 1 as [bs e p f d inf Hinit | w tokens lp sums r w' _ IH Hrun
                  | w _ IH | w inf _ IH]; simpl.
  - unfold init in Hinit. destruct f as [data|err]; simpl in Hinit;
      [|discriminate].
    destruct (negb _); [discriminate |]. injection Hinit as <-.
    intros fs. simpl. discriminate.
  - now apply update_with_finished_eot in Hrun.
  - intros fs. simpl. discriminate.
  - exact IH.
Qed.

(** X8: in every state a constructed beam-search decoder reaches, every
    finished sequence ends with the end-of-text token; [finalize] keeps
    this, so every sequence it returns ends with end-of-text, and it
    returns as many cumulative log-probabilities as sequences for each
    audio. *)
Theorem beam_finished_sequences_end_with_eot (w : world) :
  beam_reachable w ->
  finished_end_with_eot (fst w)
  /\ forall preceding_tokens sum_logprobs tokens sums d',
       finalize preceding_tokens sum_logprobs (fst w)
       = (Ok (tokens, sums), d') ->
       finished_end_with_eot d'
       /\ (forall group sequence,
             group ∈ tokens -> sequence ∈ group ->
             last sequence = Some (eot (fst w)))
       /\ Forall2 (fun group scores => length group = length scores)
                  tokens sums.
Proof.
  intros Hreach. apply beam_reachable_eot in Hreach as Hinv.
  split; [exact Hinv |].
  intros preceding_tokens sum_logprobs tokens sums d' Hrun.
  unfold finalize in Hrun.
  destruct (finished_sequences (fst w)) as [fs|] eqn:Hfs; [|discriminate].
  destruct (finalize_loop _ _ _ _ _) as [r1 fs'] eqn:Hloop.
  eapply finalize_loop_eot in Hloop; [|now apply Hinv].
  destruct r1 as [[]|e]; [|discriminate]. injection Hrun as <- <- <-.
  split; [|split].
  - now apply finished_end_with_eot_set.
  - intros group sequence Hg Hs.
    apply list_elem_of_fmap in Hg as (s & -> & Hs').
    apply list_elem_of_fmap in Hs as ([k v] & -> & Hkv).
    rewrite Forall_forall in Hloop.
    apply (Hloop s Hs' k v). now apply list_elem_of_In.
  - clear. induction fs' as [|s fs' IH]; constructor; [|exact IH].
    now rewrite !length_map.
Qed.

Lemma one_finished_world_reachable : beam_reachable one_finished_world.
Proof.
  eapply beam_reach_update
    with (w := ({| beam_size := 1; eot := 3; patience := 1;
                   max_candidates := 1; finished_sequences := None;
                   data_list := [] |}, toy_inference)).
  - apply beam_reach_init with (beam_size := 1) (eot := 3)
      (patience := None) (engchar := Ok []).
    reflexivity.
  - apply surjective_pairing.
Defined.

Lemma beam_finished_sequences_end_with_eot_witness :
  finished_sequences (fst one_finished_world)
  = Some [[([7; 3], (-1 # 2)%Q)]]
  /\ finished_end_with_eot (fst one_finished_world)
  /\ forall preceding_tokens sum_logprobs tokens sums d',
       finalize preceding_tokens sum_logprobs (fst one_finished_world)
       = (Ok (tokens, sums), d') ->
       finished_end_with_eot d'
       /\ (forall group sequence,
             group ∈ tokens -> sequence ∈ group ->
             last sequence = Some (eot (fst one_finished_world)))
       /\ Forall2 (fun group scores => length group = length scores)
                  tokens sums.
Proof.
  split; [reflexivity |].
  exact (beam_finished_sequences_end_with_eot one_finished_world
           one_finished_world_reachable).
Defined.

End FinishedEot.

(** ** The timestamp rules: first token, segments, [<|notimestamps|>] *)

Section TimestampSegments.
Import ApplyTimestampRules.
Variable self : t.
Let tb : Z := Tokenizer.timestamp_begin (tokenizer self).
Let eot : Z := Tokenizer.eot (tokenizer self).
Hypothesis tb_nonneg : 0 <= tb.
Hypothesis eot_nonneg : 0 <= eot.

Lemma py_setitem_hit (row row' : list Q) (i : Z) :
  0 <= i -> py_setitem row i neg_inf = Ok row' ->
  row' !! Z.to_nat i = Some neg_inf.
Proof.
  unfold py_setitem. cbv zeta. intros Hi.
  destruct (i <? 0) eqn:E; [apply Z.ltb_lt in E; lia |].
  destruct (_ || _)%bool eqn:E2; [discriminate |]. intros [= <-].
  apply orb_false_iff in E2 as [_ E2]. apply Z.leb_gt in E2.
  apply list_lookup_insert_Some. left. repeat split; lia.
Qed.

Lemma sampled_after_initial (initial seq : list Z) :
  Z.of_nat (length initial) = sample_begin self ->
  sampled self (initial ++ seq) = seq.
Proof.
  intros Hinit. unfold sampled, py_slice_from. rewrite <- Hinit.
  destruct (_ <? 0) eqn:E; [apply Z.ltb_lt in E; lia |].
  rewrite length_app, Z.min_l by lia. rewrite Nat2Z.id.
  now rewrite drop_app_length.
Qed.

(** The entry of a token that can be sampled survives every rule. *)
Lemma producible_kept (initial seq : list Z) (logits_k : list Q) (token : Z) :
  Z.of_nat (length initial) = sample_begin self ->
  producible self (initial ++ seq) logits_k token ->
  exists row1 x,
    suppress_no_timestamps self logits_k = Ok row1
    /\ 0 <= token /\ ~ (x == neg_inf)%Q
    /\ initial_rule self (initial ++ seq)
         (monotonic_rule self seq (pair_rule self seq row1))
         !! Z.to_nat token = Some x.
Proof using Type.
  intros Hinit (out & x & Hrun & Hpos & Hl & Hx).
  unfold apply_row in Hrun.
  destruct (suppress_no_timestamps self logits_k) as [row1|e]; [|discriminate].
  cbn [rbind] in Hrun. cbv zeta in Hrun.
  rewrite (sampled_after_initial _ _ Hinit) in Hrun.
  eapply dominance_rule_kept in Hrun; eauto.
  exists row1, x. auto.
Qed.

Lemma producible_first (initial : list Z) (logits_k : list Q) (token : Z) :
  Z.of_nat (length initial) = sample_begin self ->
  producible self (initial ++ []) logits_k token ->
  tb <= token
  /\ forall index, max_initial_timestamp_index self = Some index ->
       0 <= index -> token <= tb + index.
Proof using tb_nonneg.
  intros Hinit Hp.
  apply producible_kept in Hp as (row1 & x & _ & Hpos & Hx & Hl);
    [|assumption].
  unfold initial_rule in Hl. cbv zeta in Hl. fold tb in Hl.
  rewrite app_nil_r in Hl.
  rewrite (proj2 (Z.eqb_eq _ _) Hinit) in Hl.
  destruct (max_initial_timestamp_index self) as [index|].
  - apply set_slice_kept in Hl as [Hl Hhigh]; [|assumption].
    apply set_slice_kept in Hl as [Hl Hlow]; [|assumption].
    apply lookup_lt_Some in Hl as Hlt.
    apply in_slice_to in Hlow; [|assumption | assumption].
    rewrite Z2Nat.id in Hlow by assumption. split; [assumption |].
    intros i [= <-] Hi.
    unfold set_slice in Hhigh. rewrite length_imap in Hhigh.
    apply in_slice_from in Hhigh; [|lia | assumption].
    rewrite Z2Nat.id in Hhigh by assumption. lia.
  - apply set_slice_kept in Hl as [Hl Hlow]; [|assumption].
    apply lookup_lt_Some in Hl as Hlt.
    apply in_slice_to in Hlow; [|assumption | assumption].
    rewrite Z2Nat.id in Hlow by assumption. split; [assumption |].
    intros i [=].
Qed.

Lemma producible_not_no_timestamps (initial seq : list Z)
    (logits_k : list Q) (token n : Z) :
  Z.of_nat (length initial) = sample_begin self ->
  producible self (initial ++ seq) logits_k token ->
  Tokenizer.no_timestamps (tokenizer self) = Some n -> 0 <= n ->
  token <> n.
Proof using tb_nonneg eot_nonneg.
  intros Hinit Hp Hn Hpos ->.
  apply producible_kept in Hp as (row1 & x & Hrow1 & _ & Hx & Hl);
    [|assumption].
  apply initial_rule_kept in Hl; [|assumption].
  apply monotonic_rule_kept in Hl as [Hl _]; [|assumption | assumption].
  apply pair_rule_kept in Hl as [Hl _]; [|assumption | assumption | assumption].
  unfold suppress_no_timestamps in Hrow1. rewrite Hn in Hrow1.
  apply py_setitem_hit in Hrow1; [|assumption].
  apply Hx. assert (x = neg_inf) as -> by congruence. reflexivity.
Qed.

Lemma producible_after_text (initial seq : list Z) (logits_k : list Q)
    (token newest : Z) :
  Z.of_nat (length initial) = sample_begin self ->
  producible self (initial ++ seq) logits_k token ->
  last_was_timestamp self seq = false ->
  last (List.filter (fun y => tb <=? y) seq) = Some newest ->
  tb <= token -> newest < token.
Proof using tb_nonneg.
  intros Hinit Hp Hlast Hnewest Hts.
  apply producible_kept in Hp as (row1 & x & _ & Hpos & Hx & Hl);
    [|assumption].
  apply initial_rule_kept in Hl; [|assumption].
  apply monotonic_rule_kept in Hl as [_ Hmono]; [|assumption | assumption].
  rewrite Z2Nat.id in Hmono by assumption.
  specialize (Hmono newest Hnewest Hts). rewrite Hlast in Hmono.
  simpl in Hmono. lia.
Qed.

Lemma produced_segments (initial s : list Z) :
  Z.of_nat (length initial) = sample_begin self ->
  produced self initial s ->
  (forall t post, s = t :: post ->
     tb <= t
     /\ forall index, max_initial_timestamp_index self = Some index ->
          0 <= index -> t <= tb + index)
  /\ (forall n, Tokenizer.no_timestamps (tokenizer self) = Some n ->
        0 <= n -> ~ In n s)
  /\ (forall pre a mid x b post,
        s = pre ++ a :: mid ++ [x; b] ++ post ->
        tb <= a -> x < tb -> tb <= b -> a < b).
Proof using tb_nonneg eot_nonneg.
  intros Hinit Hprod. split; [|split].
  - intros t post ->.
    change (t :: post) with (([] ++ [t]) ++ post) in Hprod.
    apply produced_prefix, produced_snoc in Hprod as [_ [logits_k Hp]].
    now apply producible_first in Hp.
  - intros n Hn Hpos Hin. apply in_split in Hin as (l1 & l2 & ->).
    change (l1 ++ n :: l2) with (l1 ++ [n] ++ l2) in Hprod.
    rewrite app_assoc in Hprod.
    apply produced_prefix, produced_snoc in Hprod as [_ [logits_k Hp]].
    now apply (producible_not_no_timestamps _ _ _ _ n Hinit) in Hp.
  - intros pre a mid x b post -> Ha Hx Hb.
    replace (pre ++ a :: mid ++ [x; b] ++ post)
      with (((pre ++ a :: mid ++ [x]) ++ [b]) ++ post) in Hprod
      by (now rewrite <- !app_assoc, <- !app_comm_cons, <- !app_assoc).
    apply produced_prefix, produced_snoc in Hprod as [Hprod [logits_k Hp]].
    destruct (newest_timestamp self pre (mid ++ [x]) a Ha)
      as (c & Hc & Hwhere).
    assert (c < b) as Hcb.
    { eapply producible_after_text; eauto.
      replace (pre ++ a :: mid ++ [x]) with ((pre ++ a :: mid) ++ [x])
        by (now rewrite <- app_assoc).
      rewrite last_was_timestamp_snoc. now apply Z.leb_gt. }
    destruct Hwhere as [->|(m1 & m2 & Hmid & Hts)]; [assumption |].
    apply Z.le_lt_trans with c; [|assumption].
    rewrite Hmid in Hprod.
    apply (timestamps_ordered self tb_nonneg eot_nonneg initial (length m1)
             Hinit pre a m1 c); auto.
    apply produced_prefix with (s2 := m2).
    now rewrite <- !app_assoc, <- !app_comm_cons, <- app_assoc.
Qed.

End TimestampSegments.

(** X9: in a row sampled under the timestamp filter, the first sampled
    token is a timestamp, at most [max_initial_timestamp_index] after
    [timestamp_begin] when that bound is set; the [<|notimestamps|>]
    token never appears; and a timestamp that follows a non-timestamp
    token is strictly later than every timestamp before it (a segment
    has a nonzero length). *)
Theorem timestamp_rules_first_token_and_segments
    (self : ApplyTimestampRules.t) (initial s : list Z) :
  let tk := ApplyTimestampRules.tokenizer self in
  let tb := Tokenizer.timestamp_begin tk in
  0 <= tb ->
  0 <= Tokenizer.eot tk ->
  Z.of_nat (length initial) = ApplyTimestampRules.sample_begin self ->
  produced self initial s ->
  (forall t post, s = t :: post ->
     tb <= t
     /\ forall index,
          ApplyTimestampRules.max_initial_timestamp_index self = Some index ->
          0 <= index -> t <= tb + index)
  /\ (forall n, Tokenizer.no_timestamps tk = Some n -> 0 <= n -> ~ In n s)
  /\ (forall pre a mid x b post,
        s = pre ++ a :: mid ++ [x; b] ++ post ->
        tb <= a -> x < tb -> tb <= b -> a < b).
Proof.
  intros tk tb Htb Heot Hinit Hprod.
  exact (produced_segments self Htb Heot initial s Hinit Hprod).
Qed.

Lemma timestamp_rules_first_token_and_segments_witness :
  let s := [10; 2; 11; 12; 3] in
  (forall t post, s = t :: post ->
     10 <= t
     /\ forall index, Some 2 = Some index -> 0 <= index -> t <= 10 + index)
  /\ (forall n, Some 9 = Some n -> 0 <= n -> ~ In n s)
  /\ (forall pre a mid x b post,
        s = pre ++ a :: mid ++ [x; b] ++ post ->
        10 <= a -> x < 10 -> 10 <= b -> a < b).
Proof.
  apply (timestamp_rules_first_token_and_segments small_rules [5; 6]
           [10; 2; 11; 12; 3]).
  - simpl. lia.
  - simpl. lia.
  - reflexivity.
  - exact paired_row_produced.
Defined.

(** ** The beam-search constructors *)

Section BeamInit.

Lemma Qltb_lt (x y : Q) : Qltb x y = true <-> (x < y)%Q.
Proof.
  unfold Qltb. rewrite negb_true_iff. split.
  - intros H. apply Qnot_le_lt. intros Hle. apply Qle_bool_iff in Hle.
    congruence.
  - intros H. destruct (Qle_bool y x) eqn:E; [|reflexivity].
    apply Qle_bool_iff in E. lra.
Qed.

(** [round] gives a positive integer exactly above one half: the tie at
    one half goes to the even integer 0. *)
Lemma py_round_pos (x : Q) : 0 < py_round x <-> (1 # 2 < x)%Q.
Proof.
  unfold py_round. cbv zeta.
  pose proof (Qfloor_le x) as Hlo. pose proof (Qlt_floor x) as Hhi.
  set (f := Qfloor x) in *.
  rewrite inject_Z_plus in Hhi. change (inject_Z 1) with 1%Q in Hhi.
  assert (forall z : Z, 1 <= z -> (1 <= inject_Z z)%Q) as Hup.
  { intros z Hz. change 1%Q with (inject_Z 1). now rewrite <- Zle_Qle. }
  assert (forall z : Z, z <= -1 -> (inject_Z z <= -1)%Q) as Hdown.
  { intros z Hz. change (-1)%Q with (inject_Z (-1)). now rewrite <- Zle_Qle. }
  destruct (Qltb (x - inject_Z f) (1 # 2)) eqn:E1.
  - apply Qltb_lt in E1. split.
    + intros Hf. specialize (Hup f ltac:(lia)). lra.
    + intros Hx. destruct (Z_lt_le_dec 0 f) as [|Hle]; [assumption |].
      exfalso. destruct (Z.eq_dec f 0) as [E|E].
      * rewrite E in *. change (inject_Z 0) with 0%Q in *. lra.
      * specialize (Hdown f ltac:(lia)). lra.
  - assert (~ (x - inject_Z f < 1 # 2)%Q) as E1'
      by (intros H; apply Qltb_lt in H; congruence).
    destruct (Qltb (1 # 2) (x - inject_Z f)) eqn:E2.
    + apply Qltb_lt in E2. split.
      * intros Hf. destruct (Z.eq_dec f 0) as [E|E].
        -- rewrite E in *. change (inject_Z 0) with 0%Q in *. lra.
        -- specialize (Hup f ltac:(lia)). lra.
      * intros Hx. destruct (Z_lt_le_dec 0 (f + 1)) as [|Hle]; [assumption |].
        exfalso. specialize (Hdown f ltac:(lia)). lra.
    + assert (~ (1 # 2 < x - inject_Z f)%Q) as E2'
        by (intros H; apply Qltb_lt in H; congruence).
      destruct (Z.even f) eqn:Ev.
      * split.
        -- intros Hf. specialize (Hup f ltac:(lia)). lra.
        -- intros Hx. destruct (Z_lt_le_dec 0 f) as [|Hle]; [assumption |].
           exfalso. destruct (Z.eq_dec f 0) as [E|E].
           ++ rewrite E in *. change (inject_Z 0) with 0%Q in *. lra.
           ++ specialize (Hdown f ltac:(lia)). lra.
      * split.
        -- intros Hf. destruct (Z.eq_dec f 0) as [E|E].
           ++ rewrite E in Ev. discriminate.
           ++ specialize (Hup f ltac:(lia)). lra.
        -- intros Hx. destruct (Z_lt_le_dec 0 (f + 1)) as [|Hle]; [assumption |].
           exfalso. specialize (Hdown f ltac:(lia)). lra.
Qed.

(** [round] is within one half of its argument. *)
Lemma py_round_near (x : Q) :
  (x - (1 # 2) <= inject_Z (py_round x) <= x + (1 # 2))%Q.
Proof.
  unfold py_round. cbv zeta.
  pose proof (Qfloor_le x) as Hlo. pose proof (Qlt_floor x) as Hhi.
  set (f := Qfloor x) in *. clearbody f.
  rewrite inject_Z_plus in Hhi. change (inject_Z 1) with 1%Q in Hhi.
  destruct (Qltb (x - inject_Z f) (1 # 2)) eqn:E1; cbv iota.
  - apply Qltb_lt in E1. split; lra.
  - assert (~ (x - inject_Z f < 1 # 2)%Q) as E1'
      by (intros H; apply Qltb_lt in H; congruence).
    assert ((inject_Z (f + 1) == inject_Z f + 1)%Q) as Hsucc
      by (rewrite inject_Z_plus; reflexivity).
    destruct (Qltb (1 # 2) (x - inject_Z f)) eqn:E2; cbv iota;
      [rewrite Hsucc; lra |].
    assert (~ (1 # 2 < x - inject_Z f)%Q) as E2'
      by (intros H; apply Qltb_lt in H; congruence).
    destruct (Z.even f); cbv iota; [lra | rewrite Hsucc; lra].
Qed.

(** X10: the constructor of [BeamSearchDecoder] reads the token-id file
    first (its error comes first) and then accepts exactly the settings
    with [beam_size * (patience or 1.0)] above one half: a product of
    exactly one half rounds to 0 and is refused with an
    [AssertionError].  An accepted decoder has [max_candidates] within
    one half of that product and no finished sequences. *)
Theorem beam_init_accepts (beam_size eot : Z) (patience : option Q)
    (engchar : result (list Z)) :
  let target := (inject_Z beam_size * BeamSearchDecoder.or_float patience 1)%Q in
  match BeamSearchDecoder.init beam_size eot patience engchar with
  | Ok d =>
      (1 # 2 < target)%Q
      /\ engchar = Ok (BeamSearchDecoder.data_list d)
      /\ BeamSearchDecoder.beam_size d = beam_size
      /\ BeamSearchDecoder.eot d = eot
      /\ 0 < BeamSearchDecoder.max_candidates d
      /\ (target - (1 # 2) <= inject_Z (BeamSearchDecoder.max_candidates d)
          <= target + (1 # 2))%Q
      /\ BeamSearchDecoder.finished_sequences d = None
  | Raise e =>
      match engchar with
      | Raise e' => e = e'
      | Ok _ => (target <= 1 # 2)%Q /\ exists msg, e = AssertionError msg
      end
  end.
Proof.
  intros target. unfold BeamSearchDecoder.init. fold target.
  destruct engchar as [data|e']; simpl; [|reflexivity].
  destruct (0 <? py_round target) eqn:Hpos; simpl.
  - apply Z.ltb_lt in Hpos. repeat split; auto.
    + now apply py_round_pos.
    + apply py_round_near.
    + apply py_round_near.
  - apply Z.ltb_ge in Hpos. split; [|eauto].
    apply Qnot_lt_le. intros H. apply py_round_pos in H. lia.
Qed.

End BeamInit.

(** ** [run] on a batch with a group size above one *)

Section GroupedBatch.
Import DecodingTask.

Lemma every_nth_length {A : Type} (step skip : nat) (xs : list A) :
  (length (every_nth step skip xs) <= length xs)%nat.
Proof.
  revert skip. induction xs as [|x xs IH]; intros skip; simpl; [lia |].
  destruct skip as [|k]; simpl.
  - specialize (IH (step - 1)%nat). lia.
  - specialize (IH k). lia.
Qed.

Lemma every_nth_shorter {A : Type} (step : nat) (xs : list A) :
  (2 <= step)%nat -> (2 <= length xs)%nat ->
  (length (every_nth step 0 xs) < length xs)%nat.
Proof.
  intros Hstep Hlen. destruct xs as [|x [|y xs]]; simpl in Hlen; try lia.
  simpl. destruct (step - 1)%nat as [|k] eqn:E; [lia |].
  pose proof (every_nth_length step k xs). lia.
Qed.

(** X11: [run] strides the audio features by the group size although
    they were never repeated by it.  So with a group size (beam size or
    best-of) of at least two and at least two audios in the batch, a
    transcription never returns a result: whatever the sampling loop
    produced, the call ends in an exception (the shape assertion, when
    nothing failed before it). *)
Theorem run_rejects_grouped_batches (be : Backend.t) (self : t)
    (mel : list (list Q)) (w : world) :
  2 <= n_group self ->
  (2 <= length mel)%nat ->
  String.eqb (DecodingOptions.task (options self)) "lang_id" = false ->
  (forall audio_features,
     _get_audio_features self mel = Ok audio_features ->
     length audio_features = length mel) ->
  (exists e, fst (run be self mel w) = Raise e)
  /\ (forall audio_features detected looped w',
        _get_audio_features self mel = Ok audio_features ->
        _detect_language self audio_features
          (repeat (initial_tokens self) (length mel)) = Ok detected ->
        _main_loop be self audio_features
          (flat_map (fun row => repeat row (Z.to_nat (n_group self)))
                    (snd detected))
          (snd (decoder_reset w)) = (Ok looped, w') ->
        run be self mel w = (Raise (AssertionError ""), w')).
Proof.
  intros Hgroup Hmel Htask Hbatch.
  assert (forall audio_features detected looped w',
            _get_audio_features self mel = Ok audio_features ->
            _detect_language self audio_features
              (repeat (initial_tokens self) (length mel)) = Ok detected ->
            _main_loop be self audio_features
              (flat_map (fun row => repeat row (Z.to_nat (n_group self)))
                        (snd detected))
              (snd (decoder_reset w)) = (Ok looped, w') ->
            run be self mel w = (Raise (AssertionError ""), w')) as Hassert.
  { intros audio_features [[languages probs] tokens] [[tokens' sums] nsp] w'
      Haf Hdet Hloop.
    unfold run, bind, lift. simpl in Hloop.
    destruct (decoder_reset w) as [r0 w0] eqn:Hreset.
    unfold decoder_reset in Hreset. injection Hreset as <- <-.
    rewrite Haf, Hdet, Htask. simpl in Hloop. rewrite Hloop.
    unfold py_stride.
    destruct (n_group self =? 0) eqn:E0; [apply Z.eqb_eq in E0; lia |].
    destruct (0 <? n_group self) eqn:E1; [|apply Z.ltb_ge in E1; lia].
    pose proof (every_nth_shorter (Z.to_nat (n_group self)) audio_features
                  ltac:(lia) ltac:(rewrite (Hbatch _ Haf); lia)) as Hshort.
    rewrite (Hbatch _ Haf) in Hshort.
    destruct (length (every_nth _ 0 audio_features)
              =? length (every_nth _ 0 nsp))%nat eqn:E2.
    - apply Nat.eqb_eq in E2.
      destruct (length (every_nth _ 0 nsp) =? length mel)%nat eqn:E3;
        [apply Nat.eqb_eq in E3; lia |].
      reflexivity.
    - reflexivity. }
  split; [|exact Hassert].
  destruct (_get_audio_features self mel) as [audio_features|e] eqn:Haf.
  2:{ exists e. unfold run, bind, lift, decoder_reset. now rewrite Haf. }
  destruct (_detect_language self audio_features
              (repeat (initial_tokens self) (length mel)))
    as [detected|e] eqn:Hdet.
  2:{ exists e. unfold run, bind, lift, decoder_reset. now rewrite Haf, Hdet. }
  destruct (_main_loop be self audio_features
              (flat_map (fun row => repeat row (Z.to_nat (n_group self)))
                        (snd detected))
              (snd (decoder_reset w))) as [[looped|e] w'] eqn:Hloop.
  - exists (AssertionError "").
    now rewrite (Hassert _ _ _ _ eq_refl Hdet Hloop).
  - exists e. destruct detected as [[languages probs] tokens].
    unfold run, bind, lift. simpl in Hloop.
    destruct (decoder_reset w) as [r0 w0] eqn:Hreset.
    unfold decoder_reset in Hreset. injection Hreset as <- <-.
    rewrite Haf, Hdet, Htask. simpl in Hloop. now rewrite Hloop.
Qed.

Lemma run_rejects_grouped_batches_witness :
  exists e,
    fst (run toy_backend group_task [[1%Q]; [2%Q]] group_world) = Raise e.
Proof.
  refine (proj1 (run_rejects_grouped_batches toy_backend group_task
                   [[1%Q]; [2%Q]] group_world _ _ eq_refl _)).
  - simpl. lia.
  - simpl. lia.
  - intros audio_features H. vm_compute in H. now injection H as <-.
Defined.

End GroupedBatch.

(** ** What the constructor of a task establishes *)

Section TaskInit.
Import DecodingTask.

Lemma list_index_first (v : Z) (xs : list Z) (i : nat) :
  list_index v xs = Some i ->
  xs !! i = Some v /\ forall j, (j < i)%nat -> xs !! j <> Some v.
Proof.
  revert i. induction xs as [|x xs IH]; intros i; simpl; [discriminate |].
  destruct (x =? v) eqn:E.
  - intros [= <-]. apply Z.eqb_eq in E. subst.
    split; [reflexivity | intros; lia].
  - destruct (list_index v xs) as [k|]; [|discriminate]. simpl.
    intros [= <-]. destruct (IH k eq_refl) as [H1 H2]. split; [exact H1 |].
    intros [|j] Hj; simpl.
    + intros [= ->]. rewrite Z.eqb_refl in E. discriminate.
    + apply H2. lia.
Qed.

Lemma beam_init_fields (beam_size eot : Z) (patience : option Q)
    (engchar : result (list Z)) (d : BeamSearchDecoder.t) :
  BeamSearchDecoder.init beam_size eot patience engchar = Ok d ->
  BeamSearchDecoder.beam_size d = beam_size
  /\ beam_size <> 0
  /\ 0 < BeamSearchDecoder.max_candidates d
  /\ BeamSearchDecoder.eot d = eot
  /\ BeamSearchDecoder.finished_sequences d = None.
Proof.
  unfold BeamSearchDecoder.init.
  destruct engchar as [data|e]; simpl; [|discriminate].
  destruct (0 <? py_round _) eqn:Hpos; simpl; [|discriminate].
  intros [= <-]. simpl. apply Z.ltb_lt in Hpos.
  repeat split; auto.
  intros ->. apply py_round_pos in Hpos.
  change (inject_Z 0) with 0%Q in Hpos. lra.
Qed.

(** X12: a task that [__init__] builds has passed the option check and
    keeps the options; [sample_begin] is the length of the initial
    tokens and [sot_index] the first position of start-of-transcript in
    them; the inference object starts with an empty cache and that
    initial length; and the decoder is the greedy one exactly when no
    [beam_size] is given, otherwise a beam-search decoder (with the
    language model when [withlm] is set) whose beam size is nonzero and
    equal to the group size of the task. *)
Theorem task_init_establishes (model : Whisper.t) (tk : Tokenizer.t)
    (o : DecodingOptions.t) (engchar : result (list Z))
    (load_lm : string -> result BeamSearchDecoderWithLM.kenlm) :
  match init model tk o engchar load_lm with
  | Ok (task, w) =>
      valid_options o
      /\ options task = o
      /\ tokenizer task = tk
      /\ sample_begin task = Z.of_nat (length (initial_tokens task))
      /\ (exists i : nat,
            sot_index task = Z.of_nat i
            /\ initial_tokens task !! i = Some (Tokenizer.sot tk)
            /\ forall j, (j < i)%nat ->
                 initial_tokens task !! j <> Some (Tokenizer.sot tk))
      /\ PyTorchInference.initial_token_length (inference w)
         = sample_begin task
      /\ PyTorchInference.kv_cache (inference w) = ∅
      /\ trace w = []
      /\ match decoder w with
         | Greedy d =>
             DecodingOptions.beam_size o = None
             /\ n_group task = or_int (DecodingOptions.best_of o) 1
             /\ GreedyDecoder.eot d = Tokenizer.eot tk
             /\ GreedyDecoder.temperature d = DecodingOptions.temperature o
         | Beam d =>
             is_Some (DecodingOptions.beam_size o)
             /\ DecodingOptions.withlm o = false /\ beam_agrees task d
         | BeamWithLM d =>
             is_Some (DecodingOptions.beam_size o)
             /\ DecodingOptions.withlm o = true
             /\ beam_agrees task (BeamSearchDecoderWithLM.base d)
         end
  | Raise _ => True
  end.
Proof.
  unfold init.
  destruct (verify_options_cases o) as [[-> Hvalid]|[[msg ->] _]];
    [|exact I].
  cbn [rbind].
  destruct (list_index (Tokenizer.sot tk) _) as [i|] eqn:Hidx; [|exact I].
  cbn [rbind]. apply list_index_first in Hidx as [Hsot Hfirst].
  set (blank := if DecodingOptions.suppress_blank o then _ else _).
  set (suppress := if truthy_suppress o then _ else _).
  set (timestamps := if negb (DecodingOptions.without_timestamps o)
                     then _ else _).
  destruct (DecodingOptions.beam_size o) as [b|] eqn:Hb.
  - destruct (DecodingOptions.withlm o) eqn:Hlm.
    + destruct (BeamSearchDecoderWithLM.init _ _ _ _ _ _ _ _) as [d|e] eqn:Hd;
        [|exact I].
      cbn [rbind]. destruct suppress as [s|e]; [|exact I]. cbn [rbind].
      destruct timestamps as [ts|e]; [|exact I]. cbn [rbind]. simpl.
      unfold BeamSearchDecoderWithLM.init in Hd.
      destruct (match _ with Some load => _ | None => Ok None end)
        as [lm|e]; [|discriminate].
      cbn [rbind] in Hd.
      destruct (BeamSearchDecoder.init _ _ _ _) as [bd|e] eqn:Hbd;
        [|discriminate].
      cbn [rbind] in Hd. injection Hd as <-. simpl.
      apply beam_init_fields in Hbd as (H1 & H2 & H3 & H4 & H5).
      split; [exact Hvalid |]. repeat split; eauto; [|congruence].
      rewrite H1. apply Z.eqb_neq in H2. now rewrite H2.
    + destruct (BeamSearchDecoder.init _ _ _ _) as [bd|e] eqn:Hbd; [|exact I].
      cbn [rbind]. destruct suppress as [s|e]; [|exact I]. cbn [rbind].
      destruct timestamps as [ts|e]; [|exact I]. cbn [rbind]. simpl.
      apply beam_init_fields in Hbd as (H1 & H2 & H3 & H4 & H5).
      split; [exact Hvalid |]. repeat split; eauto; [|congruence].
      rewrite H1. apply Z.eqb_neq in H2. now rewrite H2.
  - cbn [rbind]. destruct suppress as [s|e]; [|exact I]. cbn [rbind].
    destruct timestamps as [ts|e]; [|exact I]. cbn [rbind]. simpl.
    split; [exact Hvalid |]. repeat split; eauto.
Qed.

End TaskInit.

(** ** The ranker: when it fails *)

Section RankOutcome.
Import MaximumLikelihoodRanker.
Variable pow : Q -> Q -> Q.
Variable length_penalty : option Q.

Lemma scores_outcome (lps : list Q) (toks : list (list Z)) :
  match scores pow length_penalty lps
          (map (fun t => Z.of_nat (length t)) toks) with
  | Ok s =>
      length s = length (combine lps toks)
      /\ forall c, In c (combine lps toks) ->
           ~ (penalty pow length_penalty (Z.of_nat (length (snd c))) == 0)%Q
  | Raise e =>
      e = ZeroDivisionError
      /\ exists c, In c (combine lps toks)
           /\ (penalty pow length_penalty (Z.of_nat (length (snd c))) == 0)%Q
  end.
Proof.
  revert toks. induction lps as [|x lps IH]; intros [|t toks]; simpl;
    try (split; [reflexivity | intros c []]).
  destruct (Qeq_bool _ 0) eqn:Hz.
  - split; [reflexivity |]. exists (x, t).
    split; [now left | now apply Qeq_bool_iff].
  - specialize (IH toks). destruct (scores _ _ _ _) as [s|e]; simpl.
    + destruct IH as [Hl Hne]. split; [simpl; congruence |].
      intros c [<-|Hc]; [|auto]. simpl. intros H.
      apply Qeq_bool_iff in H. congruence.
    + destruct IH as [-> (c & Hc & Hz')]. split; [reflexivity |].
      exists c. split; [now right | assumption].
Qed.

(** X13: [rank] returns only when every score is defined: each audio it
    looks at has a candidate and no candidate has a zero length penalty.
    Otherwise it raises [ZeroDivisionError] for a zero penalty or
    [ValueError] for an audio without candidates.  In particular,
    without a length penalty the divisor is the candidate length, so an
    empty candidate makes the ranking fail. *)
Theorem rank_outcome (tokens : list (list (list Z)))
    (sum_logprobs : list (list Q)) :
  match rank pow length_penalty tokens sum_logprobs with
  | Ok selected =>
      forall a lps toks,
        sum_logprobs !! a = Some lps -> tokens !! a = Some toks ->
        combine lps toks <> []
        /\ forall c, In c (combine lps toks) ->
             ~ (penalty pow length_penalty (Z.of_nat (length (snd c)))
                == 0)%Q
  | Raise e =>
      exists a lps toks,
        sum_logprobs !! a = Some lps /\ tokens !! a = Some toks
        /\ ((e = ZeroDivisionError
             /\ exists c, In c (combine lps toks)
                  /\ (penalty pow length_penalty
                        (Z.of_nat (length (snd c))) == 0)%Q)
            \/ ((exists msg, e = ValueError msg) /\ combine lps toks = []))
  end
  /\ (length_penalty = None ->
      (exists a lps toks lp,
         sum_logprobs !! a = Some lps /\ tokens !! a = Some toks
         /\ In (lp, []) (combine lps toks)) ->
      exists e, rank pow length_penalty tokens sum_logprobs = Raise e).
Proof.
  assert (match rank pow length_penalty tokens sum_logprobs with
          | Ok selected =>
              forall a lps toks,
                sum_logprobs !! a = Some lps -> tokens !! a = Some toks ->
                combine lps toks <> []
                /\ forall c, In c (combine lps toks) ->
                     ~ (penalty pow length_penalty
                          (Z.of_nat (length (snd c))) == 0)%Q
          | Raise e =>
              exists a lps toks,
                sum_logprobs !! a = Some lps /\ tokens !! a = Some toks
                /\ ((e = ZeroDivisionError
                     /\ exists c, In c (combine lps toks)
                          /\ (penalty pow length_penalty
                                (Z.of_nat (length (snd c))) == 0)%Q)
                    \/ ((exists msg, e = ValueError msg)
                        /\ combine lps toks = []))
          end) as Hmain.
  { unfold rank. revert tokens.
    induction sum_logprobs as [|lps rest IH]; intros [|toks T]; simpl;
      try (intros a ? ? Ha; discriminate);
      try (intros a ? ? _ Ha; discriminate).
    pose proof (scores_outcome lps toks) as Hs.
    destruct (scores _ _ _ _) as [s|e]; simpl.
    - destruct Hs as [Hlen Hne]. destruct s as [|x s]; simpl.
      + exists 0%nat, lps, toks. split; [reflexivity |].
        split; [reflexivity |]. right. split; [eauto |].
        destruct (combine lps toks); [reflexivity | discriminate].
      + specialize (IH T). destruct (mapM _ _) as [sel|e]; simpl.
        * intros [|a] l t; simpl.
          -- intros [= <-] [= <-]. split; [|exact Hne].
             intros H. rewrite H in Hlen. discriminate.
          -- apply IH.
        * destruct IH as (a & l & t & Ha & Ht & H).
          exists (S a), l, t. auto.
    - destruct Hs as [-> (c & Hc & Hz)].
      exists 0%nat, lps, toks. split; [reflexivity |].
      split; [reflexivity |]. left. eauto. }
  split; [exact Hmain |].
  intros Hnone (a & lps & toks & lp & Ha & Ht & Hin).
  destruct (rank pow length_penalty tokens sum_logprobs) as [sel|e];
    [|eauto].
  exfalso. destruct (Hmain a lps toks Ha Ht) as [_ Hne].
  apply (Hne (lp, []) Hin). unfold penalty. rewrite Hnone. reflexivity.
Qed.

End RankOutcome.

Lemma rank_outcome_witness :
  exists e,
    MaximumLikelihoodRanker.rank pow_integral None [[[1; 2]; []]]
      [[(-1)%Q; (-2)%Q]] = Raise e.
Proof.
  apply (proj2 (rank_outcome pow_integral None [[[1; 2]; []]]
                  [[(-1)%Q; (-2)%Q]]) eq_refl).
  exists 0%nat, [(-1)%Q; (-2)%Q], [[1; 2]; []], (-2)%Q.
  split; [reflexivity |]. split; [reflexivity |]. simpl. auto.
Defined.

(** ** The suppression filters *)

Section SuppressFilters.

Lemma py_setitem_cases {A : Type} (xs : list A) (i : Z) (v : A) :
  (index_in_range (length xs) i
   /\ py_setitem xs i v = Ok (<[Z.to_nat (norm_index (length xs) i) := v]> xs))
  \/ (~ index_in_range (length xs) i /\ py_setitem xs i v = Raise IndexError).
Proof.
  unfold py_setitem, index_in_range, norm_index. cbv zeta.
  set (j := if i <? 0 then Z.of_nat (length xs) + i else i).
  destruct ((j <? 0) || (Z.of_nat (length xs) <=? j))%bool eqn:E.
  - right. split; [|reflexivity].
    apply orb_true_iff in E as [E|E];
      [apply Z.ltb_lt in E | apply Z.leb_le in E]; lia.
  - left. split; [|reflexivity].
    apply orb_false_iff in E as [E1 E2].
    apply Z.ltb_ge in E1. apply Z.leb_gt in E2. lia.
Qed.

Lemma set_indices_ok (indices : list Z) (row : list Q) :
  (forall i, In i indices -> index_in_range (length row) i) ->
  exists row', set_indices indices neg_inf row = Ok row'
    /\ suppresses indices row row'.
Proof.
  unfold set_indices, suppresses. revert row.
  induction indices as [|i indices IH]; intros row Hin; simpl.
  - exists row. split; [reflexivity |]. split; [reflexivity |]. auto.
  - destruct (py_setitem_cases row i neg_inf) as [[Hi ->]|[Hi _]];
      [|exfalso; apply Hi, Hin; now left].
    simpl.
    destruct (IH (<[Z.to_nat (norm_index (length row) i) := neg_inf]> row))
      as (row' & Hrun & Hlen & Hrow').
    { intros j Hj. rewrite length_insert. apply Hin. now right. }
    exists row'. split; [exact Hrun |]. rewrite length_insert in Hlen, Hrow'.
    split; [exact Hlen |]. intros p x Hp.
    unfold index_in_range in Hi.
    destruct (norm_index (length row) i =? Z.of_nat p) eqn:E; simpl.
    + apply Z.eqb_eq in E. rewrite E, Nat2Z.id in Hrow'.
      rewrite (Hrow' p neg_inf).
      * now destruct (suppressed _ _ _).
      * apply list_lookup_insert_Some. left.
        apply lookup_lt_Some in Hp. auto.
    + apply Z.eqb_neq in E. apply Hrow'.
      apply list_lookup_insert_Some. right. split; [lia | exact Hp].
Qed.

Lemma set_indices_raises (indices : list Z) (row : list Q) :
  (exists i, In i indices /\ ~ index_in_range (length row) i) ->
  set_indices indices neg_inf row = Raise IndexError.
Proof.
  unfold set_indices. revert row.
  induction indices as [|i indices IH]; intros row (j & Hj & Hbad); simpl.
  - destruct Hj.
  - destruct (py_setitem_cases row i neg_inf) as [[Hi ->]|[Hi ->]];
      [|reflexivity].
    simpl. apply IH. destruct Hj as [->|Hj]; [contradiction |].
    exists j. split; [exact Hj |]. now rewrite length_insert.
Qed.

Lemma index_range_dec (indices : list Z) (len : nat) :
  (forall i, In i indices -> index_in_range len i)
  \/ (exists i, In i indices /\ ~ index_in_range len i).
Proof.
  induction indices as [|i indices IH]; [left; intros i [] |].
  destruct IH as [Hall|(j & Hj & Hbad)].
  - unfold index_in_range in *.
    destruct (Z_le_dec 0 (norm_index len i)) as [Hlo|Hlo];
      [destruct (Z_lt_dec (norm_index len i) (Z.of_nat len)) as [Hhi|Hhi] |].
    + left. intros k [<-|Hk]; [lia | auto].
    + right. exists i. split; [now left | lia].
    + right. exists i. split; [now left | lia].
  - right. exists j. split; [now right | exact Hbad].
Qed.

Lemma suppress_rows_ok (indices : list Z) (logits : list (list Q)) :
  (forall row i, In row logits -> In i indices ->
     index_in_range (length row) i) ->
  exists out, mapM (set_indices indices neg_inf) logits = Ok out
    /\ Forall2 (suppresses indices) logits out.
Proof.
  induction logits as [|row logits IH]; intros Hin; simpl.
  - exists []. split; [reflexivity | constructor].
  - destruct (set_indices_ok indices row) as (row' & -> & Hrow).
    { intros i Hi. apply Hin; [now left | exact Hi]. }
    destruct IH as (out & -> & Hout).
    { intros r i Hr Hi. apply Hin; [now right | exact Hi]. }
    exists (row' :: out). split; [reflexivity | now constructor].
Qed.

Lemma suppress_rows_raise (indices : list Z) (logits : list (list Q)) :
  (exists row i, In row logits /\ In i indices
     /\ ~ index_in_range (length row) i) ->
  mapM (set_indices indices neg_inf) logits = Raise IndexError.
Proof.
  induction logits as [|row logits IH]; intros (r & i & Hr & Hi & Hbad);
    simpl.
  - destruct Hr.
  - destruct (index_range_dec indices (length row)) as [Hall|Hsome].
    + destruct (set_indices_ok indices row Hall) as (row' & -> & _). simpl.
      rewrite IH; [reflexivity |].
      destruct Hr as [->|Hr]; [exfalso; now apply Hbad, Hall |].
      exists r, i. auto.
    + now rewrite (set_indices_raises indices row Hsome).
Qed.

End SuppressFilters.

(** X14: [SuppressTokens.apply] does not look at the tokens: when every
    listed id is inside every logits row it returns each row with [-inf]
    at the listed ids and every other entry unchanged, and when some id
    is outside some row it raises [IndexError].  [SuppressBlank.apply]
    does the same with the ids of a blank and of end-of-text, but only
    when the rows are [sample_begin] tokens long; at any other length it
    returns the logits unchanged. *)
Theorem suppress_filters_apply (logits : list (list Q))
    (tokens : list (list Z)) :
  (forall self : SuppressTokens.t,
     let ids := SuppressTokens.suppress_tokens self in
     ((forall row i, In row logits -> In i ids ->
         index_in_range (length row) i) ->
      exists out, SuppressTokens.apply self logits tokens = Ok out
        /\ Forall2 (suppresses ids) logits out)
     /\ ((exists row i, In row logits /\ In i ids
            /\ ~ index_in_range (length row) i) ->
         SuppressTokens.apply self logits tokens = Raise IndexError))
  /\ (forall self : SuppressBlank.t,
        let tk := SuppressBlank.tokenizer self in
        let ids := Tokenizer.encode tk " " ++ [Tokenizer.eot tk] in
        (shape_last tokens <> SuppressBlank.sample_begin self ->
         SuppressBlank.apply self logits tokens = Ok logits)
        /\ (shape_last tokens = SuppressBlank.sample_begin self ->
            (forall row i, In row logits -> In i ids ->
               index_in_range (length row) i) ->
            exists out, SuppressBlank.apply self logits tokens = Ok out
              /\ Forall2 (suppresses ids) logits out)
        /\ (shape_last tokens = SuppressBlank.sample_begin self ->
            (exists row i, In row logits /\ In i ids
               /\ ~ index_in_range (length row) i) ->
            SuppressBlank.apply self logits tokens = Raise IndexError)).
Proof.
  split.
  - intros self ids. split.
    + apply suppress_rows_ok.
    + apply suppress_rows_raise.
  - intros self tk ids. unfold SuppressBlank.apply. fold tk.
    split; [|split].
    + intros Hne. apply Z.eqb_neq in Hne. now rewrite Hne.
    + intros -> Hin. rewrite Z.eqb_refl. now apply suppress_rows_ok.
    + intros -> Hbad. rewrite Z.eqb_refl. now apply suppress_rows_raise.
Qed.

Lemma suppress_filters_apply_witness :
  exists out,
    SuppressTokens.apply {| SuppressTokens.suppress_tokens := [1; 3] |}
      [[1%Q; 2%Q; 3%Q; 4%Q]] [[7; 8]] = Ok out
    /\ Forall2 (suppresses [1; 3]) [[1%Q; 2%Q; 3%Q; 4%Q]] out.
Proof.
  apply (proj1 (proj1 (suppress_filters_apply [[1%Q; 2%Q; 3%Q; 4%Q]] [[7; 8]])
                  {| SuppressTokens.suppress_tokens := [1; 3] |})).
  intros row i [<-|[]] [<-|[<-|[]]]; unfold index_in_range, norm_index;
    simpl; lia.
Defined.

(** ** [run] for a language identification *)

Section LangId.
Import DecodingTask.

(** X15: with the task [lang_id], [run] makes no forward pass through
    the inference object (the detection is the model's own call) and no
    cache clean-up, and leaves the inference object as it was; when it
    returns, every result carries the detected language
    probabilities and neither tokens, text nor scores, and there is at
    most one result per encoded audio. *)
Theorem run_lang_id_only_detects (be : Backend.t) (self : t)
    (mel : list (list Q)) (w : world) :
  String.eqb (DecodingOptions.task (options self)) "lang_id" = true ->
  trace (snd (run be self mel w)) = trace w
  /\ inference (snd (run be self mel w)) = inference w
  /\ forall results,
       fst (run be self mel w) = Ok results ->
       (exists audio_features,
          _get_audio_features self mel = Ok audio_features
          /\ (length results <= length audio_features)%nat)
       /\ Forall (fun r =>
                    DecodingResult.tokens r = []
                    /\ DecodingResult.text r = ""%string
                    /\ is_Some (DecodingResult.language_probs r)
                    /\ DecodingResult.avg_logprob r = None
                    /\ DecodingResult.no_speech_prob r = None)
                 results.
Proof.
  intros Htask. unfold run, bind, lift, decoder_reset. simpl.
  destruct (_get_audio_features self mel) as [audio_features|e];
    [|simpl; repeat split; auto; discriminate].
  destruct (_detect_language self audio_features _)
    as [[[languages probs] tokens]|e];
    [|simpl; repeat split; auto; discriminate].
  rewrite Htask.
  destruct probs as [probs|]; [|simpl; repeat split; auto; discriminate].
  simpl. split; [destruct (decoder w); reflexivity |].
  split; [reflexivity |]. intros results [= <-]. split.
  - exists audio_features. split; [reflexivity |].
    rewrite length_map, !length_combine. lia.
  - apply Forall_forall. intros r Hr.
    apply list_elem_of_fmap in Hr as (flp & -> & _). simpl.
    repeat split; eauto.
Qed.

Lemma run_lang_id_only_detects_witness :
  trace (snd (run toy_backend lang_id_task [[1%Q]] group_world)) = [].
Proof.
  exact (proj1 (run_lang_id_only_detects toy_backend lang_id_task [[1%Q]]
                  group_world eq_refl)).
Defined.

End LangId.

(** ** Language detection inside a task *)

Section DetectLanguage.
Import DecodingTask.

Lemma fold_max_spec (rest : list (string * Q)) (kv : string * Q) :
  let r := fold_left (fun best kv' =>
                        if Qltb (snd best) (snd kv') then kv' else best)
                     rest kv in
  (r = kv \/ In r rest)
  /\ (snd kv <= snd r)%Q
  /\ forall x, In x rest -> (snd x <= snd r)%Q.
Proof.
  revert kv. induction rest as [|y rest IH]; intros kv; simpl.
  - split; [now left |]. split; [apply Qle_refl | intros x []].
  - destruct (Qltb (snd kv) (snd y)) eqn:E.
    + apply Qltb_lt in E. destruct (IH y) as (Hin & Hle & Hall).
      split; [destruct Hin; auto |]. split; [lra |].
      intros x [<-|Hx]; auto.
    + assert (snd y <= snd kv)%Q as Hy.
      { apply Qnot_lt_le. intros H. apply Qltb_lt in H. congruence. }
      destruct (IH kv) as (Hin & Hle & Hall).
      split; [destruct Hin; auto |]. split; [exact Hle |].
      intros x [<-|Hx]; [lra | auto].
Qed.

Lemma max_key_spec (probs : list (string * Q)) :
  probs <> [] ->
  exists l p, max_key probs = Ok l /\ In (l, p) probs
    /\ forall x, In x probs -> (snd x <= p)%Q.
Proof.
  destruct probs as [|kv rest]; [congruence | intros _].
  destruct (fold_max_spec rest kv) as (Hin & Hle & Hall). simpl in *.
  set (r := fold_left _ rest kv) in *.
  exists (fst r), (snd r). split; [reflexivity |]. split.
  - rewrite <- surjective_pairing. destruct Hin as [->|Hin]; auto.
  - intros x [<-|Hx]; auto.
Qed.

(** X16: with a pinned language and a task other than [lang_id],
    [_detect_language] does not call the model: it answers the pinned
    language for every audio and leaves the tokens alone.  With no
    language given, it names for every audio a language of greatest
    detected probability and writes the detected language token at
    position [sot_index + 1] of every token row, changing nothing
    else. *)
Theorem detect_language_writes_token (self : t)
    (audio_features : list (list Q)) (tokens : list (list Z)) :
  let o := options self in
  (forall lang,
     DecodingOptions.language o = Some lang ->
     String.eqb (DecodingOptions.task o) "lang_id" = false ->
     _detect_language self audio_features tokens
     = Ok (repeat (Some lang) (length audio_features), None, tokens))
  /\ (forall lang_tokens probs,
        DecodingOptions.language o = None ->
        Whisper.detect_language (model self) audio_features
        = Ok (lang_tokens, probs) ->
        length lang_tokens = length tokens ->
        (forall row, In row tokens ->
           0 <= sot_index self + 1 < Z.of_nat (length row)) ->
        (forall ps, In ps probs -> ps <> []) ->
        exists languages tokens',
          _detect_language self audio_features tokens
          = Ok (map Some languages, Some probs, tokens')
          /\ Forall2 (fun l ps =>
                        exists p, In (l, p) ps
                          /\ forall x, In x ps -> (snd x <= p)%Q)
                     languages probs
          /\ Forall2 (fun row' rt =>
                        row' = <[Z.to_nat (sot_index self + 1) := snd rt]>
                                 (fst rt))
                     tokens' (combine tokens lang_tokens)).
Proof.
  intros o. subst o. split.
  - intros lang Hlang Htask. unfold _detect_language.
    rewrite Hlang, Htask. simpl.
    rewrite ?bool_decide_eq_true_2 by eauto. reflexivity.
  - intros lang_tokens probs Hlang Hdet Hlen Hrows Hprobs.
    unfold _detect_language. rewrite Hlang, Hdet. simpl.
    rewrite ?bool_decide_eq_false_2 by (intros [x Hx]; discriminate). simpl.
    assert (exists languages,
              mapM max_key probs = Ok languages
              /\ Forall2 (fun l ps =>
                            exists p, In (l, p) ps
                              /\ forall x, In x ps -> (snd x <= p)%Q)
                         languages probs) as (languages & -> & Hlangs).
    { clear Hdet. induction probs as [|ps probs IH].
      - exists []. split; [reflexivity | constructor].
      - destruct (max_key_spec ps) as (l & p & Hl & Hin & Hmax).
        { apply Hprobs. now left. }
        destruct IH as (ls & Hls & Hall).
        { intros q Hq. apply Hprobs. now right. }
        exists (l :: ls). simpl. rewrite Hl. simpl. rewrite Hls.
        split; [reflexivity |]. constructor; eauto. }
    simpl. rewrite (proj2 (Nat.eqb_eq _ _)) by (symmetry; exact Hlen). simpl.
    assert (exists tokens',
              mapM (fun rt : list Z * Z =>
                      py_setitem (fst rt) (sot_index self + 1) (snd rt))
                   (combine tokens lang_tokens) = Ok tokens'
              /\ Forall2 (fun row' rt =>
                            row' = <[Z.to_nat (sot_index self + 1) := snd rt]>
                                     (fst rt))
                         tokens' (combine tokens lang_tokens))
      as (tokens' & -> & Htokens).
    { clear Hlen Hdet. revert lang_tokens.
      induction tokens as [|row tokens IH]; intros [|t lang_tokens]; simpl;
        try (exists []; split; [reflexivity | constructor]).
      destruct (py_setitem_cases row (sot_index self + 1) t)
        as [[Hi ->]|[Hi _]].
      - destruct (IH (fun r Hr => Hrows r (or_intror Hr)) lang_tokens)
          as (rest & -> & Hrest).
        eexists. split; [reflexivity |]. constructor; [|exact Hrest].
        simpl. unfold norm_index.
        destruct (sot_index self + 1 <? 0) eqn:E; [|reflexivity].
        apply Z.ltb_lt in E. specialize (Hrows row (or_introl eq_refl)). lia.
      - exfalso. apply Hi. unfold index_in_range, norm_index.
        specialize (Hrows row (or_introl eq_refl)).
        destruct (sot_index self + 1 <? 0) eqn:E; [apply Z.ltb_lt in E |];
          lia. }
    simpl. eauto.
Qed.

Lemma detect_language_writes_token_witness :
  exists languages tokens',
    _detect_language group_task [[1%Q]] [[50258; 0; 50358]]
    = Ok (map Some languages, Some [[("en"%string, 1%Q)]], tokens')
    /\ Forall2 (fun l ps =>
                  exists p, In (l, p) ps
                    /\ forall x, In x ps -> (snd x <= p)%Q)
               languages [[("en"%string, 1%Q)]]
    /\ Forall2 (fun row' rt =>
                  row' = <[Z.to_nat (sot_index group_task + 1) := snd rt]>
                           (fst rt))
               tokens' (combine [[50258; 0; 50358]] [50259]).
Proof.
  apply (proj2 (detect_language_writes_token group_task [[1%Q]]
                  [[50258; 0; 50358]]) [50259] [[("en"%string, 1%Q)]]).
  - reflexivity.
  - reflexivity.
  - reflexivity.
  - intros row [<-|[]]. simpl. lia.
  - intros ps [<-|[]]. discriminate.
Defined.

End DetectLanguage.

(** ** Beam search: finished sequences are kept *)

Section KeepsFinished.
Import BeamSearchDecoder.

Lemma dict_set_keeps {V : Type} (k k' : list Z) (v : V) (d : dict V) :
  In k (map fst d) -> In k (map fst (dict_set k' v d)).
Proof.
  induction d as [|[k0 v0] d IH]; simpl; [tauto |].
  destruct (bool_decide (k0 = k')); simpl; tauto.
Qed.

Lemma merge_finished_keeps (self : t) (prev : dict Q)
    (new : list (list Z * Q)) (k : list Z) :
  In k (map fst prev) -> In k (map fst (merge_finished self prev new)).
Proof.
  revert prev. induction new as [|[seq score] new IH]; intros prev Hin; simpl.
  - exact Hin.
  - destruct (max_candidates self <=? _); [exact Hin |].
    apply IH. now apply dict_set_keeps.
Qed.

Lemma Forall2_same {A : Type} (P : A -> A -> Prop) (l : list A) :
  (forall x, P x x) -> Forall2 P l l.
Proof. intros H. induction l; constructor; auto. Qed.

Lemma update_with_keeps (row_hook : list Z -> result unit)
    tokens logprobs sum_logprobs (w w' : world) r :
  update_with row_hook tokens logprobs sum_logprobs w = (r, w') ->
  keeps_finished (fst w) (fst w') /\ completed_means_full (fst w') r.
Proof.
  intros Hrun. destruct w as [self inf].
  unfold update_with, bind, get in Hrun. simpl in Hrun.
  assert (keeps_finished self self) as Hsame.
  { intros fs Hfs. exists fs. split; [exact Hfs |].
    apply Forall2_same. auto. }
  destruct (beam_size self =? 0).
  { injection Hrun as <- <-. split; [exact Hsame | intros ? ? ? [=]]. }
  destruct (negb _).
  { injection Hrun as <- <-. split; [exact Hsame | intros ? ? ? [=]]. }
  unfold put, lift in Hrun.
  set (previous := match finished_sequences self with
                   | Some fs => fs
                   | None => repeat [] _
                   end) in Hrun.
  assert (keeps_finished self (set_finished_sequences self (Some previous)))
    as Hprev.
  { intros fs Hfs. exists previous. split; [reflexivity |].
    subst previous. rewrite Hfs. apply Forall2_same. auto. }
  destruct (foldM _ _ _) as [st|e].
  2:{ injection Hrun as <- <-. split; [exact Hprev | intros ? ? ? [=]]. }
  unfold zoom in Hrun. simpl in Hrun.
  destruct (PyTorchInference.rearrange_kv_cache _ _) as [[[]|e] inf'].
  2:{ injection Hrun as <- <-. split; [exact Hprev | intros ? ? ? [=]]. }
  destruct (length previous =? length (snd st))%nat eqn:Hlen; simpl in Hrun.
  2:{ injection Hrun as <- <-. split; [exact Hprev | intros ? ? ? [=]]. }
  apply Nat.eqb_eq in Hlen.
  injection Hrun as <- <-. simpl. split.
  - intros fs Hfs. eexists. split; [reflexivity |].
    assert (previous = fs) as <- by (subst previous; now rewrite Hfs).
    clear Hprev Hfs. revert Hlen. generalize (snd st).
    induction previous as [|s prev IH]; intros [|n new] Hlen; simpl in *;
      try discriminate; constructor.
    + intros k. apply merge_finished_keeps.
    + apply IH. lia.
  - intros next completed sums [= <- <- <-]. eexists.
    split; [reflexivity |]. rewrite forallb_forall, Forall_forall. split.
    + intros H s Hs. apply Z.leb_le, H. now apply list_elem_of_In.
    + intros H s Hs. apply Z.leb_le, H. now apply list_elem_of_In.
Qed.

(** X17: an [update] of either beam-search decoder, whatever its
    outcome, loses no finished sequence: the audios stay the same in
    number and a sequence finished for an audio stays finished for it.
    When the call returns, its flag is true exactly when every audio has
    at least [max_candidates] finished sequences. *)
Theorem beam_update_keeps_finished :
  (forall (tokens : list (list Z)) (logprobs : list (list Q))
          (sum_logprobs : list Q) (w : world),
     let out := update tokens logprobs sum_logprobs w in
     keeps_finished (fst w) (fst (snd out))
     /\ completed_means_full (fst (snd out)) (fst out))
  /\ (forall (tokens : list (list Z)) (logprobs : list (list Q))
             (sum_logprobs : list Q) (w : BeamSearchDecoderWithLM.world),
        let out :=
          BeamSearchDecoderWithLM.update tokens logprobs sum_logprobs w in
        keeps_finished (BeamSearchDecoderWithLM.base (fst w))
                       (BeamSearchDecoderWithLM.base (fst (snd out)))
        /\ completed_means_full
             (BeamSearchDecoderWithLM.base (fst (snd out))) (fst out)).
Proof.
  split; intros tokens logprobs sum_logprobs w out; subst out.
  - apply (update_with_keeps (fun _ => Ok tt) tokens logprobs sum_logprobs w).
    apply surjective_pairing.
  - unfold BeamSearchDecoderWithLM.update, zoom.
    destruct (update_with _ _ _ _ _) as [r bw] eqn:Hrun.
    apply update_with_keeps in Hrun. exact Hrun.
Qed.

End KeepsFinished.
